(** * shm_comm: shared-memory ring buffers, segment lifecycle and endpoints

    A shallow embedding of the Python package [shm_comm] (modules
    [exceptions], [core], [buffer], [serialize], [utils], [sync] and the
    endpoint classes of [patterns]) together with the properties its
    specification states about the ring protocol and further properties
    of the code.

    Conventions of the embedding:
    - [shm.buf] is a [list byte]; the header is the numpy ["<i8"] view of its
      first 128 bytes, so a header cell is read by decoding 8 little-endian
      bytes as a signed 64-bit integer and written by encoding them;
    - Python integers are [Z]; numpy [int64] arithmetic wraps around;
    - a call either returns, raises or (for the polling loops, which are
      given fuel) is still looping: [outcome];
    - time is counted in microseconds; the clock, the other processes and
      the operating system's name space are an explicit environment. *)

From Stdlib Require Import ZArith List Lia Bool String Ascii.
From coqutil Require Import Byte Word.LittleEndianList.
From stdpp Require Import base list gmap strings.
Import ListNotations.
Local Open Scope Z_scope.
Set Warnings "-clear-no-such-hyp".

Abbreviation bytes := (list Init.Byte.byte).

(* ------------------------------------------------------------------ *)
(** ** exceptions.py and the built-in exceptions the code meets *)

Module Exceptions.

Inductive pyclass :=
| Exception
| ValueError | TypeError | OverflowError | ZeroDivisionError | ArithmeticError
| OSError | FileNotFoundError | StructError
| SHMError | SHMConnectionError | SHMTimeoutError | SHMBufferFullError
| SHMSerializationError.

Definition pyclass_eqb (c d : pyclass) : bool :=
  match c, d with
  | Exception, Exception | ValueError, ValueError | TypeError, TypeError
  | OverflowError, OverflowError | ZeroDivisionError, ZeroDivisionError
  | ArithmeticError, ArithmeticError | OSError, OSError
  | FileNotFoundError, FileNotFoundError | StructError, StructError
  | SHMError, SHMError | SHMConnectionError, SHMConnectionError
  | SHMTimeoutError, SHMTimeoutError | SHMBufferFullError, SHMBufferFullError
  | SHMSerializationError, SHMSerializationError => true
  | _, _ => false
  end.

(** The base class named in each [class X(Base)] statement. *)
Definition base (c : pyclass) : option pyclass :=
  match c with
  | Exception => None
  | ValueError | TypeError | ArithmeticError | OSError | StructError => Some Exception
  | OverflowError | ZeroDivisionError => Some ArithmeticError
  | FileNotFoundError => Some OSError
  | SHMError => Some Exception
  | SHMConnectionError | SHMTimeoutError | SHMBufferFullError
  | SHMSerializationError => Some SHMError
  end.

Fixpoint ancestors (depth : nat) (c : pyclass) : list pyclass :=
  c :: match depth, base c with
       | S d, Some b => ancestors d b
       | _, _ => []
       end.

Definition issubclass (c d : pyclass) : bool :=
  existsb (pyclass_eqb d) (ancestors 3 c).

(** A raised exception: its class and (the fixed part of) its message. *)
Record exn := Exn { exn_class : pyclass; exn_msg : string }.

Definition isinstance (e : exn) (c : pyclass) : bool :=
  issubclass (exn_class e) c.

End Exceptions.
Import Exceptions.

(* ------------------------------------------------------------------ *)
(** ** Outcomes and the state monad over the mapped buffer *)

Inductive outcome (A : Type) :=
| Ret (a : A)
| Raise (e : exn)
| Diverge.
Arguments Ret {A} a.
Arguments Raise {A} e.
Arguments Diverge {A}.

(** A computation on a state [Σ].  The state that comes back is the one
    the call left, also when it raised.  [M] is a computation on the
    mapped buffer [shm.buf]. *)
Definition St (Σ A : Type) : Type := Σ -> outcome A * Σ.
Definition M (A : Type) : Type := St bytes A.

Definition ret {Σ A} (a : A) : St Σ A := fun s => (Ret a, s).
Definition raise {Σ A} (e : exn) : St Σ A := fun s => (Raise e, s).
Definition bind {Σ A B} (m : St Σ A) (k : A -> St Σ B) : St Σ B :=
  fun s => match m s with
           | (Ret a, s') => k a s'
           | (Raise e, s') => (Raise e, s')
           | (Diverge, s') => (Diverge, s')
           end.

(** [try: m  except Exception as exc: h exc] *)
Definition try_except {Σ A} (m : St Σ A) (h : exn -> St Σ A) : St Σ A :=
  fun s => match m s with
           | (Raise e, s') => h e s'
           | r => r
           end.

Declare Scope shm_scope.
Delimit Scope shm_scope with shm.
Notation "x <- m ;; k" := (bind m (fun x => k))
  (at level 60, m at next level, right associativity) : shm_scope.
Notation "m ;;; k" := (bind m (fun _ => k))
  (at level 60, right associativity) : shm_scope.
Local Open Scope shm_scope.

(* ------------------------------------------------------------------ *)
(** ** Python's buffer primitives: slices, [struct.Struct("<I")], int64 cells *)

Module Py.

Definition len (b : bytes) : Z := Z.of_nat (length b).

(** [slice.indices] for step 1: a negative index counts from the end, and
    both ends are clipped to [[0, len]]. *)
Definition slice_index (n i : Z) : Z :=
  if i <? 0 then Z.max 0 (i + n) else Z.min i n.

(** [b[start:stop]] *)
Definition slice (b : bytes) (start stop : Z) : bytes :=
  let lo := slice_index (len b) start in
  let hi := slice_index (len b) stop in
  take (Z.to_nat (hi - lo)) (drop (Z.to_nat lo) b).

(** The [n] bytes of [b] from offset [off] on. *)
Definition peek (b : bytes) (off : Z) (n : nat) : bytes :=
  take n (drop (Z.to_nat off) b).

(** Overwrite [length data] bytes of [b] from offset [off] on
    (callers have checked that they fit). *)
Definition splice (b : bytes) (off : Z) (data : bytes) : bytes :=
  take (Z.to_nat off) b ++ data ++ drop (Z.to_nat off + length data) b.

(** [buf[start:stop] = data] on a memoryview: the slice cannot be resized. *)
Definition slice_assign (start stop : Z) (data : bytes) : M unit :=
  fun b =>
    let lo := slice_index (len b) start in
    let hi := slice_index (len b) stop in
    if Z.max 0 (hi - lo) =? len data
    then (Ret tt, splice b lo data)
    else (Raise (Exn ValueError "memoryview assignment: lvalue and rvalue have different structures"), b).

(** Where a 4-byte field at [offset] lies in a buffer of [n] bytes, as
    [pack_into] and [unpack_from] decide it. *)
Definition struct_offset (n offset : Z) : option Z :=
  if offset <? 0 then
    if 0 <? offset + 4 then None
    else if offset + n <? 0 then None
    else Some (offset + n)
  else if n - offset <? 4 then None
  else Some offset.

(** [_SIZE_STRUCT.pack_into(buf, offset, v)] *)
Definition pack_into (offset v : Z) : M unit :=
  fun b =>
    match struct_offset (len b) offset with
    | None => (Raise (Exn StructError "pack_into requires a buffer of at least 4 bytes at offset"), b)
    | Some off =>
        if (v <? 0) || (2 ^ 32 <=? v)
        then (Raise (Exn StructError "argument out of range"), b)
        else (Ret tt, splice b off (le_split 4 v))
    end.

(** [_SIZE_STRUCT.unpack_from(buf, offset)] *)
Definition unpack_from (offset : Z) : M Z :=
  fun b =>
    match struct_offset (len b) offset with
    | None => (Raise (Exn StructError "unpack_from requires a buffer of at least 4 bytes at offset"), b)
    | Some off => (Ret (le_combine (peek b off 4)), b)
    end.

(** Two's-complement reading of an unsigned 64-bit value. *)
Definition int64 (u : Z) : Z := if u <? 2 ^ 63 then u else u - 2 ^ 64.

Definition in_int64 (v : Z) : bool := (- 2 ^ 63 <=? v) && (v <? 2 ^ 63).

(** Cell [i] of the ["<i8"] view over the buffer, and the buffer after
    cell [i] is given the value [v]. *)
Definition cell (b : bytes) (i : nat) : Z :=
  int64 (le_combine (peek b (8 * Z.of_nat i) 8)).

Definition store (b : bytes) (i : nat) (v : Z) : bytes :=
  splice b (8 * Z.of_nat i) (le_split 8 v).

(** [int(hdr[i])] *)
Definition getitem (i : nat) : M Z :=
  fun b => (Ret (cell b i), b).

(** [hdr[i] = v]; numpy refuses a Python integer outside int64. *)
Definition setitem (i : nat) (v : Z) : M unit :=
  fun b =>
    if in_int64 v
    then (Ret tt, store b i v)
    else (Raise (Exn OverflowError "Python integer out of bounds for int64"), b).

(** [hdr[i] += 1]: int64 scalar addition, which wraps around. *)
Definition iadd1 (i : nat) : M unit :=
  fun b => (Ret tt, store b i (int64 ((cell b i + 1) mod 2 ^ 64))).

(** [a % n] on Python integers. *)
Definition mod_ (a n : Z) : M Z :=
  if n =? 0 then raise (Exn ZeroDivisionError "integer modulo by zero")
  else ret (a mod n).

End Py.

(* ------------------------------------------------------------------ *)
(** ** core.py: constants and header helpers *)

Definition MAGIC : Z := 0x53484D434F4D4D31.
Definition VERSION : Z := 1.
Definition HEADER_SIZE : Z := 128.

Definition _IDX_MAGIC : nat := 0.
Definition _IDX_VERSION : nat := 1.
Definition _IDX_HEAD : nat := 2.
Definition _IDX_TAIL : nat := 3.
Definition _IDX_MSG_COUNT : nat := 4.
Definition _IDX_DROP_COUNT : nat := 5.
Definition _IDX_NUM_SLOTS : nat := 6.
Definition _IDX_SLOT_SIZE : nat := 7.

Definition SLOT_PREFIX_SIZE : Z := 4.

Definition segment_size (num_slots slot_size : Z) : Z :=
  HEADER_SIZE + num_slots * slot_size.

(** [np.ndarray((16,), dtype="<i8", buffer=shm.buf, offset=0)]: the view
    aliases the buffer, so it is represented by the buffer itself; numpy
    refuses a buffer shorter than the 128 bytes of the array. *)
Definition _make_header_array : M unit :=
  fun b =>
    if Py.len b <? HEADER_SIZE
    then (Raise (Exn TypeError "buffer is too small for requested array"), b)
    else (Ret tt, b).

Definition _init_header (num_slots slot_size : Z) : M unit :=
  _make_header_array ;;;
  Py.setitem _IDX_MAGIC MAGIC ;;;
  Py.setitem _IDX_VERSION VERSION ;;;
  Py.setitem _IDX_HEAD 0 ;;;
  Py.setitem _IDX_TAIL 0 ;;;
  Py.setitem _IDX_MSG_COUNT 0 ;;;
  Py.setitem _IDX_DROP_COUNT 0 ;;;
  Py.setitem _IDX_NUM_SLOTS num_slots ;;;
  Py.setitem _IDX_SLOT_SIZE slot_size.

Definition _validate_header : M unit :=
  _make_header_array ;;;
  magic <- Py.getitem _IDX_MAGIC ;;
  if negb (magic =? MAGIC)
  then raise (Exn SHMConnectionError "invalid magic")
  else
    version <- Py.getitem _IDX_VERSION ;;
    if negb (version =? VERSION)
    then raise (Exn SHMConnectionError "unexpected version")
    else ret tt.

Definition get_header : M unit := _make_header_array.

Definition IDX_HEAD := _IDX_HEAD.
Definition IDX_TAIL := _IDX_TAIL.
Definition IDX_MSG_COUNT := _IDX_MSG_COUNT.
Definition IDX_DROP_COUNT := _IDX_DROP_COUNT.
Definition IDX_NUM_SLOTS := _IDX_NUM_SLOTS.
Definition IDX_SLOT_SIZE := _IDX_SLOT_SIZE.

(* ------------------------------------------------------------------ *)
(** ** The environment of a process *)

(** What a process cannot decide itself: the successive readings of
    [time.monotonic()] (microseconds), what the shared-tail consumers of
    other processes store into TAIL while this process sleeps, and what
    the operating system answers to successive attempts to open a name
    (a new handle, numbered [id], on the memory [b]; no such name; or
    another failure). *)
Inductive open_result :=
| Opened (id : nat) (b : bytes)
| NotFound
| OpenFailed (e : exn).

Record Env := {
  monotonic : nat -> Z;
  consumer : nat -> option Z;
  shm_open : nat -> string -> open_result;
}.

(** [time.sleep] number [k], as far as the segment is concerned: another
    process may have stored a new TAIL meanwhile. *)
Definition sleep (env : Env) (k : nat) : M unit :=
  fun b =>
    match consumer env k with
    | Some t => (Ret tt, Py.store b IDX_TAIL t)
    | None => (Ret tt, b)
    end.

(* ------------------------------------------------------------------ *)
(** ** buffer.py *)

Definition _slot_offset (slot_index slot_size : Z) : Z :=
  HEADER_SIZE + slot_index * slot_size.

Definition _write_slot (slot_index slot_size : Z) (payload : bytes) : M unit :=
  let offset := _slot_offset slot_index slot_size in
  Py.pack_into offset (Py.len payload) ;;;
  let end_ := offset + SLOT_PREFIX_SIZE + Py.len payload in
  Py.slice_assign (offset + SLOT_PREFIX_SIZE) end_ payload.

Definition _read_slot (slot_index slot_size : Z) : M bytes :=
  let offset := _slot_offset slot_index slot_size in
  payload_size <- Py.unpack_from offset ;;
  let start := offset + SLOT_PREFIX_SIZE in
  fun b => (Ret (Py.slice b start (start + payload_size)), b).

(** Outcome of the [while True] loop of the non-overwrite path. *)
Inductive wait_result := SlotFree | Dropped.

(** Iteration [k] of the loop.  When there is a deadline, reading 0 of the
    clock computed it and iteration [k] takes reading [k + 1]. *)
Fixpoint wait_for_slot (fuel : nat) (env : Env) (k : nat)
    (deadline : option Z) (block : bool) (num_slots : Z) : M wait_result :=
  match fuel with
  | O => fun b => (Diverge, b)
  | S fuel' =>
      head <- Py.getitem IDX_HEAD ;;
      tail <- Py.getitem IDX_TAIL ;;
      next_head <- Py.mod_ (head + 1) num_slots ;;
      if negb (next_head =? tail) then ret SlotFree
      else if negb block then
        Py.iadd1 IDX_DROP_COUNT ;;; ret Dropped
      else if match deadline with
              | Some d => d <=? monotonic env (S k)
              | None => false
              end
      then raise (Exn SHMBufferFullError "Ring buffer full; could not write message")
      else
        sleep env k ;;;
        wait_for_slot fuel' env (S k) deadline block num_slots
  end.

Definition write_message (fuel : nat) (env : Env) (payload : bytes)
    (block : bool) (timeout : option Z) (overwrite : bool) : M bool :=
  get_header ;;;
  num_slots <- Py.getitem IDX_NUM_SLOTS ;;
  slot_size <- Py.getitem IDX_SLOT_SIZE ;;
  let max_payload := slot_size - SLOT_PREFIX_SIZE in
  if max_payload <? Py.len payload
  then raise (Exn ValueError "Payload size exceeds slot capacity")
  else
    w <- (if negb overwrite then
            let deadline :=
              if block then option_map (Z.add (monotonic env 0)) timeout
              else None in
            wait_for_slot fuel env 0 deadline block num_slots
          else ret SlotFree) ;;
    match w with
    | Dropped => ret false
    | SlotFree =>
        head <- Py.getitem IDX_HEAD ;;
        next_head <- Py.mod_ (head + 1) num_slots ;;
        _write_slot head slot_size payload ;;;
        Py.setitem IDX_HEAD next_head ;;;
        Py.iadd1 IDX_MSG_COUNT ;;;
        ret true
    end.

Definition read_message_spsc (local_tail : Z) : M (option (bytes * Z)) :=
  get_header ;;;
  head <- Py.getitem IDX_HEAD ;;
  num_slots <- Py.getitem IDX_NUM_SLOTS ;;
  slot_size <- Py.getitem IDX_SLOT_SIZE ;;
  if local_tail =? head then ret None
  else
    payload <- _read_slot local_tail slot_size ;;
    new_tail <- Py.mod_ (local_tail + 1) num_slots ;;
    ret (Some (payload, new_tail)).

Definition read_message_shared_tail : M (option bytes) :=
  get_header ;;;
  head <- Py.getitem IDX_HEAD ;;
  tail <- Py.getitem IDX_TAIL ;;
  num_slots <- Py.getitem IDX_NUM_SLOTS ;;
  slot_size <- Py.getitem IDX_SLOT_SIZE ;;
  if tail =? head then ret None
  else
    payload <- _read_slot tail slot_size ;;
    new_tail <- Py.mod_ (tail + 1) num_slots ;;
    Py.setitem IDX_TAIL new_tail ;;;
    ret (Some payload).

(** The dictionary that [get_stats] returns, as a record of its keys. *)
Module Stats.
Record t := {
  head : Z;
  tail : Z;
  num_slots : Z;
  slot_size : Z;
  msg_count : Z;
  drop_count : Z;
  used_slots : Z;
  free_slots : Z;
}.
End Stats.

Definition get_stats : M Stats.t :=
  get_header ;;;
  head <- Py.getitem IDX_HEAD ;;
  tail <- Py.getitem IDX_TAIL ;;
  num_slots <- Py.getitem IDX_NUM_SLOTS ;;
  used <- Py.mod_ (head - tail) num_slots ;;
  slot_size <- Py.getitem IDX_SLOT_SIZE ;;
  msg_count <- Py.getitem IDX_MSG_COUNT ;;
  drop_count <- Py.getitem IDX_DROP_COUNT ;;
  ret {| Stats.head := head;
         Stats.tail := tail;
         Stats.num_slots := num_slots;
         Stats.slot_size := slot_size;
         Stats.msg_count := msg_count;
         Stats.drop_count := drop_count;
         Stats.used_slots := used;
         Stats.free_slots := num_slots - used - 1 |}.

(* ------------------------------------------------------------------ *)
(** ** Vocabulary of the ring properties *)

Definition HEAD (b : bytes) : Z := Py.cell b IDX_HEAD.
Definition TAIL (b : bytes) : Z := Py.cell b IDX_TAIL.
Definition MSG_COUNT (b : bytes) : Z := Py.cell b IDX_MSG_COUNT.
Definition DROP_COUNT (b : bytes) : Z := Py.cell b IDX_DROP_COUNT.
Definition NUM_SLOTS (b : bytes) : Z := Py.cell b IDX_NUM_SLOTS.
Definition SLOT_SIZE (b : bytes) : Z := Py.cell b IDX_SLOT_SIZE.

(** The mapped memory covers the header and all [NUM_SLOTS] slots. *)
Definition sound_geometry (b : bytes) : bool :=
  (0 <? NUM_SLOTS b) && (0 <=? SLOT_SIZE b)
  && (segment_size (NUM_SLOTS b) (SLOT_SIZE b) <=? Py.len b).

(** A segment with a valid header: MAGIC and VERSION as [_validate_header]
    wants them, a geometry that the memory covers, and both cursors inside
    the ring. *)
Definition valid_segment (b : bytes) : bool :=
  (Py.cell b _IDX_MAGIC =? MAGIC) && (Py.cell b _IDX_VERSION =? VERSION)
  && sound_geometry b
  && (0 <=? HEAD b) && (HEAD b <? NUM_SLOTS b)
  && (0 <=? TAIL b) && (TAIL b <? NUM_SLOTS b).

(** Slot [i] of a ring with slots of [slot_size] bytes holds the message
    [p]: the length prefix and then the payload. *)
Definition holds (b : bytes) (slot_size i : Z) (p : bytes) : Prop :=
  0 <= i /\ 0 <= slot_size /\ Py.len p < 2 ^ 32 /\
  Py.peek b (_slot_offset i slot_size) (4 + length p)
    = le_split 4 (Py.len p) ++ p.

(** The memory after the producer stored [p] in the slot at HEAD and
    committed it (steps 4 and 5 of [write_message]). *)
Definition commit (b : bytes) (p : bytes) : bytes :=
  let b1 := Py.splice b (_slot_offset (HEAD b) (SLOT_SIZE b))
                      (le_split 4 (Py.len p) ++ p) in
  let b2 := Py.store b1 IDX_HEAD ((HEAD b + 1) mod NUM_SLOTS b) in
  Py.store b2 IDX_MSG_COUNT (Py.int64 ((MSG_COUNT b2 + 1) mod 2 ^ 64)).

(** [b'] has the length of [b] and differs from it at most inside the
    listed header cells. *)
Definition same_outside (cells : list nat) (b b' : bytes) : Prop :=
  length b' = length b /\
  forall k : nat,
    (forall i, In i cells -> ~ (8 * i <= k < 8 * i + 8)%nat) ->
    b' !! k = b !! k.

(** The producer finds the ring full: the slot after HEAD is TAIL. *)
Definition ring_full (b : bytes) : bool :=
  (HEAD b + 1) mod NUM_SLOTS b =? TAIL b.

(** The segment as iteration [k] of the producer's wait loop sees it:
    after the first [k] sleeps. *)
Fixpoint observed (env : Env) (k : nat) (b : bytes) : bytes :=
  match k with
  | O => b
  | S k' => snd (sleep env k' (observed env k' b))
  end.

(** A producer writing the messages one after the other, as a loop over
    [write_message] does; the results are collected. *)
Fixpoint write_all (fuel : nat) (env : Env) (msgs : list bytes)
    (block : bool) (timeout : option Z) (overwrite : bool) : M (list bool) :=
  match msgs with
  | [] => ret []
  | p :: rest =>
      ok <- write_message fuel env p block timeout overwrite ;;
      oks <- write_all fuel env rest block timeout overwrite ;;
      ret (ok :: oks)
  end.

(** A consumer with a private cursor reading until the ring is empty, at
    most [n] times, storing [new_tail] as its next cursor each time. *)
Fixpoint read_all (n : nat) (local_tail : Z) (b : bytes) : list bytes :=
  match n with
  | O => []
  | S n' =>
      match read_message_spsc local_tail b with
      | (Ret (Some (payload, new_tail)), _) => payload :: read_all n' new_tail b
      | _ => []
      end
  end.

(** The producer can store a message at HEAD: the geometry is covered by
    the memory and HEAD is inside the ring. *)
Definition writable (b : bytes) : Prop :=
  sound_geometry b = true /\ 0 <= HEAD b < NUM_SLOTS b.

(** A zero-filled mapping of [n] bytes, and the ring that
    [_init_header] makes of a mapping of exactly [segment_size] bytes. *)
Definition zeros (n : Z) : bytes := repeat Byte.x00 (Z.to_nat n).

Definition fresh_ring (num_slots slot_size : Z) : bytes :=
  snd (_init_header num_slots slot_size (zeros (segment_size num_slots slot_size))).

(** An environment in which nothing happens: the clock stands still, no
    consumer stores TAIL and no name exists. *)
Definition quiet : Env :=
  {| monotonic := fun _ => 0;
     consumer := fun _ => None;
     shm_open := fun _ _ => NotFound |}.

(** The number of slots between the shared TAIL and HEAD, as [get_stats]
    counts them. *)
Definition used (b : bytes) : Z := (HEAD b - TAIL b) mod NUM_SLOTS b.

(** Consumers that share TAIL taking messages until the ring is empty, at
    most [n] times; the memory comes back with TAIL advanced. *)
Fixpoint pull_all (n : nat) (b : bytes) : list bytes * bytes :=
  match n with
  | O => ([], b)
  | S n' =>
      match read_message_shared_tail b with
      | (Ret (Some payload), b') =>
          let (rest, b'') := pull_all n' b' in (payload :: rest, b'')
      | (_, b') => ([], b')
      end
  end.

(** A request/reply channel in use: its producer sends as [Replier.send]
    and [Requester.send] do (a [write_message] with the default
    [block=False], [overwrite=False]) and its consumer reads with a
    private cursor, in any order.  The results of the sends are
    collected; a send that raises ends the run. *)
Inductive spsc_op :=
| Send (payload : bytes)
| Recv (local_tail : Z).

Fixpoint run_spsc (env : Env) (ops : list spsc_op) (b : bytes) : list bool * bytes :=
  match ops with
  | [] => ([], b)
  | Send p :: rest =>
      match write_message 1 env p false None false b with
      | (Ret ok, b') =>
          let (oks, b'') := run_spsc env rest b' in (ok :: oks, b'')
      | (_, b') => ([], b')
      end
  | Recv t :: rest => run_spsc env rest (snd (read_message_spsc t b))
  end.

Definition sends (ops : list spsc_op) : list bytes :=
  omap (fun o => match o with Send p => Some p | Recv _ => None end) ops.

(** Environments for the examples: a clock that advances 50 microseconds
    per reading, with no consumer, and the same with a consumer that
    stores TAIL = 1 during the first sleep. *)
Definition ticking : Env :=
  {| monotonic := fun k => 50 * Z.of_nat k;
     consumer := fun _ => None;
     shm_open := fun _ _ => NotFound |}.

Definition draining : Env :=
  {| monotonic := fun k => 50 * Z.of_nat k;
     consumer := fun k => match k with O => Some 1 | _ => None end;
     shm_open := fun _ _ => NotFound |}.

(* ------------------------------------------------------------------ *)
(** ** core.py: attaching and closing *)

(** A [SharedMemory] object: the handle number the runtime gave it, the
    name it was opened with and the memory it maps. *)
Record SharedMemory := {
  shm_id : nat;
  name : string;
  buf : bytes;
}.

(** What [attach_segment] does to the outside, in order. *)
Inductive event :=
| EvOpen (name : string)
| EvSleep (d : Z).

(** The body of the [try] in [attach_segment]. *)
Definition try_attach (env : Env) (k : nat) (name : string) : outcome SharedMemory :=
  match shm_open env k name with
  | Opened id b =>
      match fst (_validate_header b) with
      | Ret _ => Ret {| shm_id := id; name := name; buf := b |}
      | Raise e => Raise e
      | Diverge => Diverge
      end
  | NotFound => Raise (Exn FileNotFoundError "No such file or directory")
  | OpenFailed e => Raise e
  end.

(** Iteration [k] of [while time.monotonic() < deadline]; reading 0 of the
    clock computed the deadline, so the loop test of iteration [k] is
    reading [k + 1]. *)
Fixpoint attach_poll (fuel : nat) (env : Env) (k : nat) (name : string)
    (deadline poll_interval : Z) : outcome SharedMemory * list event :=
  match fuel with
  | O => (Diverge, [])
  | S fuel' =>
      if monotonic env (S k) <? deadline then
        let retry :=
          (* [time.sleep] refuses a negative length *)
          if poll_interval <? 0
          then (Raise (Exn ValueError "sleep length must be non-negative"),
                [EvOpen name])
          else
            let (r, tr) := attach_poll fuel' env (S k) name deadline poll_interval in
            (r, EvOpen name :: EvSleep poll_interval :: tr) in
        match try_attach env k name with
        | Ret shm => (Ret shm, [EvOpen name])
        | Raise e =>
            if isinstance e FileNotFoundError then retry
            else if isinstance e SHMConnectionError then (Raise e, [EvOpen name])
            else retry
        | Diverge => (Diverge, [EvOpen name])
        end
      else
        (Raise (Exn SHMConnectionError "Shared memory segment did not appear"), [])
  end.

(** The defaults of [attach_segment]: [timeout = 5.0] seconds and
    [poll_interval = 0.005] seconds, in microseconds. *)
Definition attach_segment_timeout : Z := 5000000.
Definition attach_segment_poll_interval : Z := 5000.

(** [attach_segment(name, timeout, poll_interval)]; [None] for an argument
    the caller leaves out. *)
Definition attach_segment (fuel : nat) (env : Env) (name : string)
    (timeout poll_interval : option Z) : outcome SharedMemory * list event :=
  let timeout := from_option id attach_segment_timeout timeout in
  let poll_interval := from_option id attach_segment_poll_interval poll_interval in
  let deadline := monotonic env 0 + timeout in
  attach_poll fuel env 0 name deadline poll_interval.

(** The part of the world [close_segment] acts on: the names linked in the
    operating system's name space and the handles of this process whose
    mapping is open. *)
Record Proc := {
  linked : gset string;
  mapped : gset nat;
}.

(** [shm.close()] releases the mapping; closing a closed handle is
    allowed. *)
Definition SharedMemory_close (shm : SharedMemory) : St Proc unit :=
  fun s => (Ret tt, {| linked := linked s; mapped := mapped s ∖ {[shm_id shm]} |}).

(** [shm.unlink()] removes the name, which must exist. *)
Definition SharedMemory_unlink (shm : SharedMemory) : St Proc unit :=
  fun s =>
    if decide (name shm ∈ linked s)
    then (Ret tt, {| linked := linked s ∖ {[name shm]}; mapped := mapped s |})
    else (Raise (Exn FileNotFoundError "No such file or directory"), s).

Definition close_segment (shm : SharedMemory) (destroy : bool) : St Proc unit :=
  try_except
    (SharedMemory_close shm ;;;
     if destroy then SharedMemory_unlink shm else ret tt)
    (fun exc => ret tt).


(** The runtime's [SharedMemory(name, create=...)] constructor of
    CPython on POSIX, as far as this package depends on it.  What the
    operating system decides is given by the host: the memory behind a
    name; whether opening an existing name fails ([denies]: the mapping
    of a zero-length segment raises [ValueError], a segment of another
    user [PermissionError], an [OSError]); and whether [shm_open],
    [ftruncate] or [mmap] fail for a new segment of a given size
    ([refuses]).  A new handle takes a number no open mapping of the
    process has.  [FileExistsError] is an [OSError]. *)
Record Host := {
  contents : string -> bytes;
  denies : string -> option exn;
  refuses : string -> Z -> option exn;
}.

Definition SharedMemory_attach (host : Host) (name : string) : St Proc SharedMemory :=
  fun s =>
    if decide (name ∈ linked s)
    then match denies host name with
         | Some e => (Raise e, s)
         | None =>
             let id := fresh (mapped s) in
             (Ret {| shm_id := id; name := name; buf := contents host name |},
              {| linked := linked s; mapped := mapped s ∪ {[id]} |})
         end
    else (Raise (Exn FileNotFoundError "No such file or directory"), s).

(** With [create=True] the constructor checks [size], links the name
    with [shm_open] (which refuses an existing name), and then sizes and
    maps the segment inside [try: ... except OSError: self.unlink();
    raise]: an [OSError] removes the name again, but any other exception
    leaves it linked, as does the [OverflowError] of [os.ftruncate] for a
    size that does not fit a signed 64-bit offset. *)
Definition SharedMemory_create (host : Host) (name : string) (size : Z)
    : St Proc SharedMemory :=
  fun s =>
    if size <? 0
    then (Raise (Exn ValueError "'size' must be a positive integer"), s)
    else if size =? 0
    then (Raise (Exn ValueError "'size' must be a positive number different from zero"), s)
    else if decide (name ∈ linked s)
    then (Raise (Exn OSError "File exists"), s)
    else
      let made := {| linked := linked s ∪ {[name]}; mapped := mapped s |} in
      if 2 ^ 63 <=? size
      then (Raise (Exn OverflowError "Python int too large to convert to C long"), made)
      else match refuses host name size with
           | Some e => if isinstance e OSError then (Raise e, s) else (Raise e, made)
           | None =>
               let id := fresh (mapped s) in
               (Ret {| shm_id := id; name := name; buf := zeros size |},
                {| linked := linked s ∪ {[name]}; mapped := mapped s ∪ {[id]} |})
           end.

Definition create_segment (host : Host) (name : string) (num_slots slot_size : Z)
    : St Proc SharedMemory :=
  let size := segment_size num_slots slot_size in
  try_except
    (stale <- SharedMemory_attach host name ;;
     SharedMemory_close stale ;;;
     SharedMemory_unlink stale)
    (fun exc => if isinstance exc FileNotFoundError then ret tt else ret tt) ;;;
  shm <- try_except (SharedMemory_create host name size)
           (fun exc => raise (Exn SHMConnectionError "Failed to create shared memory")) ;;
  match _init_header num_slots slot_size (buf shm) with
  | (Ret _, b) => ret {| shm_id := shm_id shm; name := name; buf := b |}
  | (Raise e, _) => raise e
  | (Diverge, _) => fun s => (Diverge, s)
  end.

(* ------------------------------------------------------------------ *)
(** ** utils.py: cleanup *)


(** Whether [SharedMemory(name, create=False)] succeeds: the name is
    linked and the host lets the segment be opened. *)
Definition openable (host : Host) (name : string) (s : Proc) : bool :=
  bool_decide (name ∈ linked s)
  && match denies host name with
     | None => true
     | Some _ => false
     end.

(** [list_segments()]: [is_linux] is what [sys.platform] says, and
    [listdir] is the outcome of [os.listdir("/dev/shm")]. *)
Definition list_segments (is_linux : bool) (listdir : outcome (list string))
    : list string :=
  if negb is_linux then []
  else match listdir with
       | Ret entries =>
           List.filter (fun entry => String.prefix "shmcomm_" entry) entries
       | Raise exc => []
       | Diverge => []
       end.

(* ------------------------------------------------------------------ *)
(** ** utils.py: segment names *)

Definition pub_segment_name (channel : string) : string := "shmcomm_pub_" ++ channel.
Definition req_segment_name (channel : string) : string := "shmcomm_req_" ++ channel.
Definition rep_segment_name (channel : string) : string := "shmcomm_rep_" ++ channel.
Definition push_segment_name (channel : string) : string := "shmcomm_push_" ++ channel.

(** A Python value as [poll_until] and the callers of [recv] tell it
    apart: [None], [False], or anything else. *)
Inductive pyval (A : Type) :=
| PyNone
| PyFalse
| PyVal (a : A).
Arguments PyNone {A}.
Arguments PyFalse {A}.
Arguments PyVal {A} a.

(** [None] and [False] are what [poll_until] takes for "nothing yet". *)
Definition nothing {A} (x : pyval A) : Prop := forall a, x <> PyVal a.

(* ------------------------------------------------------------------ *)
(** ** serialize.py *)

Module Serialize.

(** Python values as [serialize] tells them apart: the three bytes-like
    types, and any other object. *)
Inductive pyobj (Obj : Type) :=
| PyBytes (b : bytes)
| PyByteArray (b : bytes)
| PyMemoryView (b : bytes)
| PyObject (o : Obj).
Arguments PyBytes {Obj} b.
Arguments PyByteArray {Obj} b.
Arguments PyMemoryView {Obj} b.
Arguments PyObject {Obj} o.

(** [isinstance(obj, (bytes, bytearray, memoryview))] *)
Definition is_bytes_like {Obj} (obj : pyobj Obj) : bool :=
  match obj with
  | PyBytes _ | PyByteArray _ | PyMemoryView _ => true
  | PyObject _ => false
  end.

(** The two codecs are collaborators of the package: [pickle.dumps] and
    [msgpack.packb] give the encoding, or [None] when they raise. *)
Record Codec (Obj : Type) := {
  pickle_dumps : Obj -> option bytes;
  msgpack_packb : Obj -> option bytes;
  _MSGPACK_AVAILABLE : bool;
}.
Arguments pickle_dumps {Obj} c.
Arguments msgpack_packb {Obj} c.
Arguments _MSGPACK_AVAILABLE {Obj} c.

Definition serialize {Obj} (codec : Codec Obj) (obj : pyobj Obj) (method : string)
    : outcome bytes :=
  match obj with
  | PyBytes b | PyByteArray b | PyMemoryView b => Ret b
  | PyObject o =>
      if String.eqb method "pickle" then
        match pickle_dumps codec o with
        | Some data => Ret data
        | None => Raise (Exn SHMSerializationError "pickle serialization failed")
        end
      else if String.eqb method "msgpack" then
        if negb (_MSGPACK_AVAILABLE codec)
        then Raise (Exn SHMSerializationError "msgpack is not installed")
        else match msgpack_packb codec o with
             | Some data => Ret data
             | None => Raise (Exn SHMSerializationError "msgpack serialization failed")
             end
      else Raise (Exn SHMSerializationError "Unknown serialization method")
  end.


(** [pickle.loads] and [msgpack.unpackb] are collaborators too.  On
    given bytes they return an object, which may be [None] or [False],
    or raise; and since unpickling runs what the bytes name, they may
    also not return.  As everywhere in this development an exception is
    an instance of one of the classes of [pyclass], all of them
    subclasses of [Exception]; a [KeyboardInterrupt] or [SystemExit]
    raised while unpickling is not described. *)
Record Decoder (Obj : Type) := {
  pickle_loads : bytes -> outcome (pyval Obj);
  msgpack_unpackb : bytes -> outcome (pyval Obj);
}.
Arguments pickle_loads {Obj} d.
Arguments msgpack_unpackb {Obj} d.

Definition deserialize {Obj} (codec : Codec Obj) (dec : Decoder Obj) (data : bytes)
    (method : string) : outcome (pyval Obj) :=
  if String.eqb method "pickle" then
    match pickle_loads dec data with
    | Ret obj => Ret obj
    | Raise exc =>
        if isinstance exc Exception
        then Raise (Exn SHMSerializationError "pickle deserialization failed")
        else Raise exc
    | Diverge => Diverge
    end
  else if String.eqb method "msgpack" then
    if negb (_MSGPACK_AVAILABLE codec)
    then Raise (Exn SHMSerializationError "msgpack is not installed")
    else match msgpack_unpackb dec data with
         | Ret obj => Ret obj
         | Raise exc =>
             if isinstance exc Exception
             then Raise (Exn SHMSerializationError "msgpack deserialization failed")
             else Raise exc
         | Diverge => Diverge
         end
  else Raise (Exn SHMSerializationError "Unknown serialization method").

End Serialize.

(** A call that does not touch the state, inside a computation. *)
Definition lift {Σ A} (r : outcome A) : St Σ A := fun s => (r, s).

(* ------------------------------------------------------------------ *)
(** ** utils.py: polling *)

(** [poll_until(check_fn, timeout, poll_interval)] over any state [Σ] that
    [check_fn] acts on.  [pause k] is what the rest of the world does to
    the state during sleep number [k].  Reading 0 of the clock computes
    the deadline, so the test of iteration [k] is reading [k + 1]; with
    no timeout the clock is not read. *)
Section PollUntil.

Context {Σ A : Type}.
Variables (env : Env) (pause : nat -> Σ -> Σ) (check_fn : St Σ (pyval A)).

Fixpoint poll_loop (fuel : nat) (deadline : option Z) (poll_interval : Z) (k : nat)
    : St Σ (pyval A) :=
  match fuel with
  | O => fun s => (Diverge, s)
  | S fuel' =>
      result <- check_fn ;;
      match result with
      | PyVal a => ret (PyVal a)
      | PyNone | PyFalse =>
          if match deadline with
             | Some d => d <=? monotonic env (S k)
             | None => false
             end
          then ret PyNone
          else if poll_interval <? 0
          then (* [time.sleep] refuses a negative length *)
            raise (Exn ValueError "sleep length must be non-negative")
          else
            (fun s => (Ret tt, pause k s)) ;;;
            poll_loop fuel' deadline poll_interval (S k)
      end
  end.

Definition poll_until (fuel : nat) (timeout : option Z) (poll_interval : Z)
    : St Σ (pyval A) :=
  let deadline := option_map (fun t => monotonic env 0 + t) timeout in
  poll_loop fuel deadline poll_interval 0.

(** The state at the [n]-th call of [check_fn] when every earlier call
    gave nothing. *)
Fixpoint idle (n : nat) (s : Σ) : Σ :=
  match n with
  | O => s
  | S n' => pause n' (snd (check_fn (idle n' s)))
  end.

(** Whether the clock reading of iteration [k] has reached the deadline. *)
Definition reached (deadline : option Z) (k : nat) : bool :=
  match deadline with
  | Some d => d <=? monotonic env (S k)
  | None => false
  end.

End PollUntil.

(** The default [poll_interval = 0.000_100] seconds, in microseconds. *)
Definition poll_until_poll_interval : Z := 100.

(* ------------------------------------------------------------------ *)
(** ** sync.py *)

(** [s.replace(old, new)] for one-character [old] and [new]. *)
Fixpoint str_replace (old new : Ascii.ascii) (s : string) : string :=
  match s with
  | EmptyString => EmptyString
  | String c s' =>
      String (if Ascii.eqb c old then new else c) (str_replace old new s')
  end.

(** [s.endswith(c)] for a character [c]. *)
Fixpoint endswith (c : Ascii.ascii) (s : string) : bool :=
  match s with
  | EmptyString => false
  | String a s' =>
      match s' with
      | EmptyString => Ascii.eqb a c
      | String _ _ => endswith c s'
      end
  end.

(** [os.path.join(a, b)] of [posixpath]. *)
Definition path_join (a b : string) : string :=
  if String.prefix "/" b then b
  else if String.eqb a "" || endswith "/"%char a then a ++ b
  else a ++ "/" ++ b.

(** [_lock_path(name)], where [tmpdir] is what [tempfile.gettempdir()]
    returns. *)
Definition _lock_path (tmpdir name : string) : string :=
  let safe := str_replace "\"%char "_"%char (str_replace "/"%char "_"%char name) in
  path_join tmpdir ("shmcomm_" ++ safe ++ ".lock").

Module FileLock.

Record t := {
  _path : string;
  _timeout : option Z;
  _fd : option nat;
}.

(** What the methods act on besides the object: the descriptors the
    process has open, those of them on which it holds the lock, and the
    number of [flock] calls it has made. *)
Record Files := {
  fds : gset nat;
  locked : gset nat;
  flock_calls : nat;
}.

Definition set_fd (self : t) (fd : option nat) : t :=
  {| _path := _path self; _timeout := _timeout self; _fd := fd |}.

(** [FileLock(name, timeout)]; that the lock file is created is not part
    of the state. *)
Definition init (tmpdir name : string) (timeout : option Z) : t :=
  {| _path := _lock_path tmpdir name; _timeout := timeout; _fd := None |}.

(** The methods, in a state that also holds whatever else ([W]) changes
    while the process sleeps.  [flock n] tells whether the process's
    [n]-th non-blocking [flock] call takes the lock (it raises [OSError]
    otherwise), and [nap n] is what the other processes do during the
    sleep that follows a failed call [n].  [os.open] is assumed to
    succeed and returns a descriptor that is not open. *)
Section Methods.

Context {W : Type}.
Variables (env : Env) (flock : nat -> bool) (nap : nat -> W -> W).

(** Iteration [k] of [while True] in [acquire], with [self._fd = fd]. *)
Fixpoint acquire_loop (fuel : nat) (deadline : option Z) (fd : nat) (k : nat)
    : St (t * Files * W) unit :=
  match fuel with
  | O => fun s => (Diverge, s)
  | S fuel' =>
      fun '(self, f, w) =>
        let n := flock_calls f in
        if flock n
        then (Ret tt,
              (self,
               {| fds := fds f; locked := locked f ∪ {[fd]}; flock_calls := S n |},
               w))
        else if reached env deadline k
        then (Raise (Exn SHMTimeoutError "Could not acquire lock"),
              (set_fd self None,
               {| fds := fds f ∖ {[fd]}; locked := locked f ∖ {[fd]};
                  flock_calls := S n |},
               w))
        else acquire_loop fuel' deadline fd (S k)
               (self,
                {| fds := fds f; locked := locked f; flock_calls := S n |},
                nap n w)
  end.

Definition acquire (fuel : nat) (timeout : option Z) : St (t * Files * W) unit :=
  fun '(self, f, w) =>
    let timeout := match timeout with
                   | None => _timeout self
                   | Some _ => timeout
                   end in
    let deadline := option_map (fun t => monotonic env 0 + t) timeout in
    let fd := fresh (fds f) in
    acquire_loop fuel deadline fd 0
      (set_fd self (Some fd),
       {| fds := fds f ∪ {[fd]}; locked := locked f; flock_calls := flock_calls f |},
       w).

(** [release]: unlocking and closing a descriptor that is not open
    raises [OSError], in the [try] and again in the [finally]. *)
Definition release : St (t * Files * W) unit :=
  fun '(self, f, w) =>
    match _fd self with
    | None => (Ret tt, (self, f, w))
    | Some fd =>
        if decide (fd ∈ fds f)
        then (Ret tt,
              (set_fd self None,
               {| fds := fds f ∖ {[fd]}; locked := locked f ∖ {[fd]};
                  flock_calls := flock_calls f |},
               w))
        else (Raise (Exn OSError "Bad file descriptor"), (self, f, w))
    end.

(** [with self: body]: [__enter__] is [acquire()], [__exit__] is
    [release()], which runs whether [body] returns or raises. *)
Definition with_ {A} (fuel : nat) (body : St (t * Files * W) A)
    : St (t * Files * W) A :=
  fun s =>
    match acquire fuel None s with
    | (Ret _, s1) =>
        match body s1 with
        | (Diverge, s2) => (Diverge, s2)
        | (r, s2) =>
            match release s2 with
            | (Ret _, s3) => (r, s3)
            | (Raise e, s3) => (Raise e, s3)
            | (Diverge, s3) => (Diverge, s3)
            end
        end
    | (Raise e, s1) => (Raise e, s1)
    | (Diverge, s1) => (Diverge, s1)
    end.

(** The rest of the state after the [n] sleeps that follow the failed
    [flock] calls [c], ..., [c + n - 1]. *)
Fixpoint napped (c n : nat) (w : W) : W :=
  match n with
  | O => w
  | S n' => nap (c + n')%nat (napped c n' w)
  end.

End Methods.

(** A computation on the rest of the state, run while the lock object and
    the descriptors stay as they are. *)
Definition inside {W A} (m : St W A) : St (t * Files * W) A :=
  fun '(self, f, w) => let (r, w') := m w in (r, (self, f, w')).

End FileLock.

(** [named_lock(name, timeout)] around [body], which is given the lock. *)
Definition named_lock {W A} (env : Env) (flock : nat -> bool) (nap : nat -> W -> W)
    (tmpdir name : string) (timeout : option Z) (fuel : nat)
    (body : St (FileLock.t * FileLock.Files * W) A) : St (FileLock.Files * W) A :=
  fun '(f, w) =>
    let lock := FileLock.init tmpdir name timeout in
    let drop := fun s : FileLock.t * FileLock.Files * W => (snd (fst s), snd s) in
    match FileLock.acquire env flock nap fuel timeout (lock, f, w) with
    | (Ret _, s1) =>
        match body s1 with
        | (Diverge, s2) => (Diverge, drop s2)
        | (r, s2) =>
            match FileLock.release s2 with
            | (Ret _, s3) => (r, drop s3)
            | (Raise e, s3) => (Raise e, drop s3)
            | (Diverge, s3) => (Diverge, drop s3)
            end
        end
    | (Raise e, s1) => (Raise e, drop s1)
    | (Diverge, s1) => (Diverge, drop s1)
    end.

(* ------------------------------------------------------------------ *)
(** ** patterns: the endpoints *)

(** The producer-side methods act on the memory of the endpoint's segment;
    [close] acts on the process state.  [atexit] registration and logging
    are left out. *)

Module Publisher.
Record t := {
  _name : string;
  _serialization : string;
  _shm_name : string;
  _shm : option SharedMemory;
}.

Definition _DEFAULT_NUM_SLOTS : Z := 64.
Definition _DEFAULT_SLOT_SIZE : Z := 4096.

Definition init (host : Host) (name : string) (num_slots slot_size : Z)
    (serialization : string) : St Proc t :=
  let shm_name := pub_segment_name name in
  shm <- create_segment host shm_name num_slots slot_size ;;
  ret {| _name := name; _serialization := serialization;
         _shm_name := shm_name; _shm := Some shm |}.

Definition stats (self : t) : M Stats.t := get_stats.

Definition send {Obj} (codec : Serialize.Codec Obj) (fuel : nat) (env : Env)
    (self : t) (data : Serialize.pyobj Obj) (block : bool) (timeout : option Z)
    : M bool :=
  payload <- lift (Serialize.serialize codec data (_serialization self)) ;;
  write_message fuel env payload false None true.

Definition send_bytes (fuel : nat) (env : Env) (self : t) (payload : bytes)
    (block : bool) (timeout : option Z) : M bool :=
  write_message fuel env payload false None true.

Definition close (self : t) : St Proc t :=
  match _shm self with
  | Some shm =>
      close_segment shm true ;;;
      ret {| _name := _name self; _serialization := _serialization self;
             _shm_name := _shm_name self; _shm := None |}
  | None => ret self
  end.
End Publisher.

Module Subscriber.
Record t := {
  _name : string;
  _serialization : string;
  _shm_name : string;
  _shm : option SharedMemory;
  _tail : Z;
}.

Definition init (fuel : nat) (env : Env) (name : string) (timeout_connect : Z)
    (serialization : string) : outcome t * list event :=
  let shm_name := pub_segment_name name in
  match attach_segment fuel env shm_name (Some timeout_connect) None with
  | (Ret shm, tr) =>
      match (get_header ;;; Py.getitem IDX_HEAD) (buf shm) with
      | (Ret head, _) =>
          (Ret {| _name := name; _serialization := serialization;
                  _shm_name := shm_name; _shm := Some shm; _tail := head |}, tr)
      | (Raise e, _) => (Raise e, tr)
      | (Diverge, _) => (Diverge, tr)
      end
  | (Raise e, tr) => (Raise e, tr)
  | (Diverge, tr) => (Diverge, tr)
  end.

(** The receiving methods act on the endpoint, whose cursor they move,
    and on the memory of its segment; [world k] is what the other
    processes do to that memory during sleep number [k]. *)
Definition set_tail (self : t) (new_tail : Z) : t :=
  {| _name := _name self; _serialization := _serialization self;
     _shm_name := _shm_name self; _shm := _shm self; _tail := new_tail |}.

Definition _try_recv {Obj} (codec : Serialize.Codec Obj) (dec : Serialize.Decoder Obj)
    : St (t * bytes) (pyval Obj) :=
  fun '(self, b) =>
    match read_message_spsc (_tail self) b with
    | (Ret None, b') => (Ret PyNone, (self, b'))
    | (Ret (Some (raw, new_tail)), b') =>
        (Serialize.deserialize codec dec raw (_serialization self),
         (set_tail self new_tail, b'))
    | (Raise e, b') => (Raise e, (self, b'))
    | (Diverge, b') => (Diverge, (self, b'))
    end.

Definition _try_recv_bytes : St (t * bytes) (pyval bytes) :=
  fun '(self, b) =>
    match read_message_spsc (_tail self) b with
    | (Ret None, b') => (Ret PyNone, (self, b'))
    | (Ret (Some (raw, new_tail)), b') =>
        (Ret (PyVal raw), (set_tail self new_tail, b'))
    | (Raise e, b') => (Raise e, (self, b'))
    | (Diverge, b') => (Diverge, (self, b'))
    end.

Definition others (world : nat -> bytes -> bytes) (k : nat) : t * bytes -> t * bytes :=
  fun '(self, b) => (self, world k b).

Definition recv {Obj} (codec : Serialize.Codec Obj) (dec : Serialize.Decoder Obj)
    (fuel : nat) (env : Env) (world : nat -> bytes -> bytes) (timeout : option Z)
    : St (t * bytes) (pyval Obj) :=
  poll_until env (others world) (_try_recv codec dec) fuel timeout
    poll_until_poll_interval.

Definition recv_bytes (fuel : nat) (env : Env) (world : nat -> bytes -> bytes)
    (timeout : option Z) : St (t * bytes) (pyval bytes) :=
  poll_until env (others world) _try_recv_bytes fuel timeout
    poll_until_poll_interval.

Definition close (self : t) : St Proc t :=
  match _shm self with
  | Some shm =>
      close_segment shm false ;;;
      ret {| _name := _name self; _serialization := _serialization self;
             _shm_name := _shm_name self; _shm := None; _tail := _tail self |}
  | None => ret self
  end.
End Subscriber.

Module Pusher.
Record t := {
  _name : string;
  _serialization : string;
  _shm_name : string;
  _shm : option SharedMemory;
}.

Definition _DEFAULT_NUM_SLOTS : Z := 128.
Definition _DEFAULT_SLOT_SIZE : Z := 4096.

Definition init (host : Host) (name : string) (num_slots slot_size : Z)
    (serialization : string) : St Proc t :=
  let shm_name := push_segment_name name in
  shm <- create_segment host shm_name num_slots slot_size ;;
  ret {| _name := name; _serialization := serialization;
         _shm_name := shm_name; _shm := Some shm |}.

Definition send {Obj} (codec : Serialize.Codec Obj) (fuel : nat) (env : Env)
    (self : t) (data : Serialize.pyobj Obj) (block : bool) (timeout : option Z)
    : M bool :=
  payload <- lift (Serialize.serialize codec data (_serialization self)) ;;
  write_message fuel env payload block timeout false.

Definition send_bytes (fuel : nat) (env : Env) (self : t) (payload : bytes)
    (block : bool) (timeout : option Z) : M bool :=
  write_message fuel env payload block timeout false.

Definition close (self : t) : St Proc t :=
  match _shm self with
  | Some shm =>
      close_segment shm true ;;;
      ret {| _name := _name self; _serialization := _serialization self;
             _shm_name := _shm_name self; _shm := None |}
  | None => ret self
  end.
End Pusher.

Module Puller.
Record t := {
  _name : string;
  _serialization : string;
  _shm_name : string;
  _shm : option SharedMemory;
}.

(** The receiving methods act on the lock object (the attribute [_lock],
    made by [FileLock(self._shm_name)]), the descriptors of the process
    and the memory of the segment; [nap] is what the other processes do
    to the memory while this one waits for the lock, [world] what they do
    while it sleeps between two polls. *)
Definition _try_claim {Obj} (codec : Serialize.Codec Obj) (dec : Serialize.Decoder Obj)
    (fuel : nat) (env : Env) (flock : nat -> bool) (nap : nat -> bytes -> bytes)
    (self : t) : St (FileLock.t * FileLock.Files * bytes) (pyval Obj) :=
  fun s =>
    match FileLock.with_ env flock nap fuel
            (FileLock.inside read_message_shared_tail) s with
    | (Ret None, s') => (Ret PyNone, s')
    | (Ret (Some raw), s') =>
        (Serialize.deserialize codec dec raw (_serialization self), s')
    | (Raise e, s') => (Raise e, s')
    | (Diverge, s') => (Diverge, s')
    end.

Definition _try_claim_bytes (fuel : nat) (env : Env) (flock : nat -> bool)
    (nap : nat -> bytes -> bytes)
    : St (FileLock.t * FileLock.Files * bytes) (pyval bytes) :=
  fun s =>
    match FileLock.with_ env flock nap fuel
            (FileLock.inside read_message_shared_tail) s with
    | (Ret None, s') => (Ret PyNone, s')
    | (Ret (Some raw), s') => (Ret (PyVal raw), s')
    | (Raise e, s') => (Raise e, s')
    | (Diverge, s') => (Diverge, s')
    end.

Definition others (world : nat -> bytes -> bytes) (k : nat)
    : FileLock.t * FileLock.Files * bytes -> FileLock.t * FileLock.Files * bytes :=
  fun '(l, f, b) => (l, f, world k b).

Definition recv {Obj} (codec : Serialize.Codec Obj) (dec : Serialize.Decoder Obj)
    (fuel : nat) (env : Env) (flock : nat -> bool) (nap world : nat -> bytes -> bytes)
    (self : t) (timeout : option Z)
    : St (FileLock.t * FileLock.Files * bytes) (pyval Obj) :=
  poll_until env (others world) (_try_claim codec dec fuel env flock nap self)
    fuel timeout poll_until_poll_interval.

Definition recv_bytes (fuel : nat) (env : Env) (flock : nat -> bool)
    (nap world : nat -> bytes -> bytes) (timeout : option Z)
    : St (FileLock.t * FileLock.Files * bytes) (pyval bytes) :=
  poll_until env (others world) (_try_claim_bytes fuel env flock nap)
    fuel timeout poll_until_poll_interval.

Definition close (self : t) : St Proc t :=
  match _shm self with
  | Some shm =>
      close_segment shm false ;;;
      ret {| _name := _name self; _serialization := _serialization self;
             _shm_name := _shm_name self; _shm := None |}
  | None => ret self
  end.
End Puller.

Module Replier.
Record t := {
  _name : string;
  _serialization : string;
  _req_shm : option SharedMemory;
  _rep_shm : option SharedMemory;
  _req_tail : Z;
}.

Definition _DEFAULT_NUM_SLOTS : Z := 16.
Definition _DEFAULT_SLOT_SIZE : Z := 8192.

Definition init (host : Host) (name : string) (num_slots slot_size : Z)
    (serialization : string) : St Proc t :=
  let req_name := req_segment_name name in
  let rep_name := rep_segment_name name in
  req_shm <- create_segment host req_name num_slots slot_size ;;
  rep_shm <- create_segment host rep_name num_slots slot_size ;;
  ret {| _name := name; _serialization := serialization;
         _req_shm := Some req_shm; _rep_shm := Some rep_shm;
         _req_tail := 0 |}.

(** Sending acts on the memory of the reply segment, receiving on
    the endpoint and the memory of the request segment; [world k] is
    what the other processes do to that memory during sleep number
    [k]. *)
Definition send {Obj} (codec : Serialize.Codec Obj) (fuel : nat) (env : Env)
    (self : t) (data : Serialize.pyobj Obj) : M bool :=
  payload <- lift (Serialize.serialize codec data (_serialization self)) ;;
  write_message fuel env payload false None false.

Definition send_bytes (fuel : nat) (env : Env) (self : t) (payload : bytes)
    : M bool :=
  write_message fuel env payload false None false.

Definition set_tail (self : t) (new_tail : Z) : t :=
  {| _name := _name self; _serialization := _serialization self;
     _req_shm := _req_shm self; _rep_shm := _rep_shm self;
     _req_tail := new_tail |}.

Definition _try_recv {Obj} (codec : Serialize.Codec Obj) (dec : Serialize.Decoder Obj)
    : St (t * bytes) (pyval Obj) :=
  fun '(self, b) =>
    match read_message_spsc (_req_tail self) b with
    | (Ret None, b') => (Ret PyNone, (self, b'))
    | (Ret (Some (raw, new_tail)), b') =>
        (Serialize.deserialize codec dec raw (_serialization self),
         (set_tail self new_tail, b'))
    | (Raise e, b') => (Raise e, (self, b'))
    | (Diverge, b') => (Diverge, (self, b'))
    end.

Definition _try_recv_bytes : St (t * bytes) (pyval bytes) :=
  fun '(self, b) =>
    match read_message_spsc (_req_tail self) b with
    | (Ret None, b') => (Ret PyNone, (self, b'))
    | (Ret (Some (raw, new_tail)), b') =>
        (Ret (PyVal raw), (set_tail self new_tail, b'))
    | (Raise e, b') => (Raise e, (self, b'))
    | (Diverge, b') => (Diverge, (self, b'))
    end.

Definition others (world : nat -> bytes -> bytes) (k : nat) : t * bytes -> t * bytes :=
  fun '(self, b) => (self, world k b).

Definition recv {Obj} (codec : Serialize.Codec Obj) (dec : Serialize.Decoder Obj)
    (fuel : nat) (env : Env) (world : nat -> bytes -> bytes) (timeout : option Z)
    : St (t * bytes) (pyval Obj) :=
  poll_until env (others world) (_try_recv codec dec) fuel timeout
    poll_until_poll_interval.

Definition recv_bytes (fuel : nat) (env : Env) (world : nat -> bytes -> bytes)
    (timeout : option Z) : St (t * bytes) (pyval bytes) :=
  poll_until env (others world) _try_recv_bytes fuel timeout
    poll_until_poll_interval.

(** [for attr in ("_req_shm", "_rep_shm"): ...] *)
Definition close (self : t) : St Proc t :=
  (match _req_shm self with
   | Some shm => close_segment shm true
   | None => ret tt
   end) ;;;
  (match _rep_shm self with
   | Some shm => close_segment shm true
   | None => ret tt
   end) ;;;
  ret {| _name := _name self; _serialization := _serialization self;
         _req_shm := None; _rep_shm := None; _req_tail := _req_tail self |}.
End Replier.

Module Requester.
Record t := {
  _name : string;
  _serialization : string;
  _req_shm : option SharedMemory;
  _rep_shm : option SharedMemory;
  _rep_tail : Z;
}.

(** The two [attach_segment] calls each meet the environment as it is
    when they start: [env_req], then [env_rep]. *)
Definition init (fuel : nat) (env_req env_rep : Env) (name : string)
    (timeout_connect : Z) (serialization : string) : outcome t * list event :=
  let req_name := req_segment_name name in
  let rep_name := rep_segment_name name in
  match attach_segment fuel env_req req_name (Some timeout_connect) None with
  | (Ret req_shm, tr1) =>
      match attach_segment fuel env_rep rep_name (Some timeout_connect) None with
      | (Ret rep_shm, tr2) =>
          (Ret {| _name := name; _serialization := serialization;
                  _req_shm := Some req_shm; _rep_shm := Some rep_shm;
                  _rep_tail := 0 |}, tr1 ++ tr2)
      | (Raise e, tr2) => (Raise e, tr1 ++ tr2)
      | (Diverge, tr2) => (Diverge, tr1 ++ tr2)
      end
  | (Raise e, tr) => (Raise e, tr)
  | (Diverge, tr) => (Diverge, tr)
  end.

(** Sending acts on the memory of the request segment, receiving on
    the endpoint and the memory of the reply segment; [world k] is
    what the other processes do to that memory during sleep number
    [k]. *)
Definition send {Obj} (codec : Serialize.Codec Obj) (fuel : nat) (env : Env)
    (self : t) (data : Serialize.pyobj Obj) : M bool :=
  payload <- lift (Serialize.serialize codec data (_serialization self)) ;;
  write_message fuel env payload false None false.

Definition send_bytes (fuel : nat) (env : Env) (self : t) (payload : bytes)
    : M bool :=
  write_message fuel env payload false None false.

Definition set_tail (self : t) (new_tail : Z) : t :=
  {| _name := _name self; _serialization := _serialization self;
     _req_shm := _req_shm self; _rep_shm := _rep_shm self;
     _rep_tail := new_tail |}.

Definition _try_recv {Obj} (codec : Serialize.Codec Obj) (dec : Serialize.Decoder Obj)
    : St (t * bytes) (pyval Obj) :=
  fun '(self, b) =>
    match read_message_spsc (_rep_tail self) b with
    | (Ret None, b') => (Ret PyNone, (self, b'))
    | (Ret (Some (raw, new_tail)), b') =>
        (Serialize.deserialize codec dec raw (_serialization self),
         (set_tail self new_tail, b'))
    | (Raise e, b') => (Raise e, (self, b'))
    | (Diverge, b') => (Diverge, (self, b'))
    end.

Definition _try_recv_bytes : St (t * bytes) (pyval bytes) :=
  fun '(self, b) =>
    match read_message_spsc (_rep_tail self) b with
    | (Ret None, b') => (Ret PyNone, (self, b'))
    | (Ret (Some (raw, new_tail)), b') =>
        (Ret (PyVal raw), (set_tail self new_tail, b'))
    | (Raise e, b') => (Raise e, (self, b'))
    | (Diverge, b') => (Diverge, (self, b'))
    end.

Definition others (world : nat -> bytes -> bytes) (k : nat) : t * bytes -> t * bytes :=
  fun '(self, b) => (self, world k b).

Definition recv {Obj} (codec : Serialize.Codec Obj) (dec : Serialize.Decoder Obj)
    (fuel : nat) (env : Env) (world : nat -> bytes -> bytes) (timeout : option Z)
    : St (t * bytes) (pyval Obj) :=
  poll_until env (others world) (_try_recv codec dec) fuel timeout
    poll_until_poll_interval.

Definition recv_bytes (fuel : nat) (env : Env) (world : nat -> bytes -> bytes)
    (timeout : option Z) : St (t * bytes) (pyval bytes) :=
  poll_until env (others world) _try_recv_bytes fuel timeout
    poll_until_poll_interval.

(** [request(data, timeout)], on the endpoint and the memories of the
    request and the reply segment.  The message of the [SHMTimeoutError]
    formats [timeout] with [.3f], which [None] does not support. *)
Definition request {Obj} (codec : Serialize.Codec Obj) (dec : Serialize.Decoder Obj)
    (fuel : nat) (env : Env) (world : nat -> bytes -> bytes)
    (data : Serialize.pyobj Obj) (timeout : option Z)
    : St (t * bytes * bytes) (pyval Obj) :=
  fun '(self, req, rep) =>
    match send codec fuel env self data req with
    | (Ret _, req') =>
        match recv codec dec fuel env world timeout (self, rep) with
        | (Ret PyNone, (self', rep')) =>
            (Raise match timeout with
                   | Some _ => Exn SHMTimeoutError "No reply from service"
                   | None => Exn TypeError "unsupported format string"
                   end,
             (self', req', rep'))
        | (Ret reply, (self', rep')) => (Ret reply, (self', req', rep'))
        | (Raise e, (self', rep')) => (Raise e, (self', req', rep'))
        | (Diverge, (self', rep')) => (Diverge, (self', req', rep'))
        end
    | (Raise e, req') => (Raise e, (self, req', rep))
    | (Diverge, req') => (Diverge, (self, req', rep))
    end.

Definition close (self : t) : St Proc t :=
  (match _req_shm self with
   | Some shm => close_segment shm false
   | None => ret tt
   end) ;;;
  (match _rep_shm self with
   | Some shm => close_segment shm false
   | None => ret tt
   end) ;;;
  ret {| _name := _name self; _serialization := _serialization self;
         _req_shm := None; _rep_shm := None; _rep_tail := _rep_tail self |}.
End Requester.

(** Any of the six endpoints, and its [close]. *)
Inductive endpoint :=
| APublisher (e : Publisher.t)
| ASubscriber (e : Subscriber.t)
| APusher (e : Pusher.t)
| APuller (e : Puller.t)
| AReplier (e : Replier.t)
| ARequester (e : Requester.t).

Definition close (ep : endpoint) : St Proc endpoint :=
  match ep with
  | APublisher e => e' <- Publisher.close e ;; ret (APublisher e')
  | ASubscriber e => e' <- Subscriber.close e ;; ret (ASubscriber e')
  | APusher e => e' <- Pusher.close e ;; ret (APusher e')
  | APuller e => e' <- Puller.close e ;; ret (APuller e')
  | AReplier e => e' <- Replier.close e ;; ret (AReplier e')
  | ARequester e => e' <- Requester.close e ;; ret (ARequester e')
  end.

(** The segments an endpoint holds, and whether it is their owner (the
    endpoint that created them and passes [destroy=True]). *)
Definition segments (ep : endpoint) : list SharedMemory :=
  match ep with
  | APublisher e => option_list (Publisher._shm e)
  | ASubscriber e => option_list (Subscriber._shm e)
  | APusher e => option_list (Pusher._shm e)
  | APuller e => option_list (Puller._shm e)
  | AReplier e => option_list (Replier._req_shm e) ++ option_list (Replier._rep_shm e)
  | ARequester e => option_list (Requester._req_shm e) ++ option_list (Requester._rep_shm e)
  end.

Definition is_owner (ep : endpoint) : bool :=
  match ep with
  | APublisher _ | APusher _ | AReplier _ => true
  | ASubscriber _ | APuller _ | ARequester _ => false
  end.

(* ------------------------------------------------------------------ *)
(** ** Vocabulary of the lifecycle properties *)

(** The trace of [k] failed attempts: each opens the name and then sleeps
    for [poll_interval]. *)
Fixpoint retries (name : string) (poll_interval : Z) (k : nat) : list event :=
  match k with
  | O => []
  | S k' => EvOpen name :: EvSleep poll_interval :: retries name poll_interval k'
  end.

(** A ring of two slots holding one message: full for its producer. *)
Definition full_ring : bytes :=
  snd (write_message 1 quiet [Byte.x61] false None false (fresh_ring 2 8)).

(** A ring of four slots into which three messages were written. *)
Definition backlog : bytes :=
  snd (write_all 1 quiet [[Byte.x01]; [Byte.x02]; [Byte.x03]]
         false None false (fresh_ring 4 8)).

(** Environments for the examples of attaching: the name appears at the
    third attempt; the name is there but the memory is not a ring; the
    request and reply segments of service ["svc"], the reply segment with
    a backlog. *)
Definition appearing : Env :=
  {| monotonic := fun k => 50 * Z.of_nat k;
     consumer := fun _ => None;
     shm_open := fun k _ =>
       match k with
       | O | S O => NotFound
       | _ => Opened 7 (fresh_ring 4 8)
       end |}.

Definition foreign : Env :=
  {| monotonic := fun k => 50 * Z.of_nat k;
     consumer := fun _ => None;
     shm_open := fun _ _ => Opened 7 (zeros 136) |}.

Definition service : Env :=
  {| monotonic := fun k => 50 * Z.of_nat k;
     consumer := fun _ => None;
     shm_open := fun _ n =>
       if String.eqb n "shmcomm_req_svc" then Opened 1 (fresh_ring 4 8)
       else if String.eqb n "shmcomm_rep_svc" then Opened 2 backlog
       else if String.eqb n "shmcomm_pub_svc" then Opened 3 backlog
       else NotFound |}.

(** A codec for the examples: objects are natural numbers, pickled as one
    byte and packed as two; both codecs refuse numbers above 255. *)
Definition toy_codec : Serialize.Codec nat :=
  {| Serialize.pickle_dumps := fun n =>
       if (n <=? 255)%nat then Some [byte.of_Z (Z.of_nat n)] else None;
     Serialize.msgpack_packb := fun n =>
       if (n <=? 255)%nat then Some [Byte.xcc; byte.of_Z (Z.of_nat n)] else None;
     Serialize._MSGPACK_AVAILABLE := true |}.

(** A Publisher on channel ["c1"] with its segment, in a process where
    that segment is linked and mapped. *)
Definition publisher_c1 : Publisher.t :=
  {| Publisher._name := "c1";
     Publisher._serialization := "pickle";
     Publisher._shm_name := "shmcomm_pub_c1";
     Publisher._shm :=
       Some {| shm_id := 3; name := "shmcomm_pub_c1"; buf := fresh_ring 4 8 |} |}.

Definition running : Proc :=
  {| linked := {[ "shmcomm_pub_c1"%string ]}; mapped := {[ 3%nat ]} |}.


(** A decoder for the examples, inverse to [toy_codec] except that the
    pickles of 0 and 1 are read as [None] and [False]; other input is
    refused with [ValueError]. *)
Definition toy_decoder : Serialize.Decoder nat :=
  {| Serialize.pickle_loads := fun data =>
       match data with
       | [c] => Ret match Z.to_nat (byte.unsigned c) with
                    | O => PyNone
                    | S O => PyFalse
                    | n => PyVal n
                    end
       | _ => Raise (Exn ValueError "could not unpickle")
       end;
     Serialize.msgpack_unpackb := fun data =>
       match data with
       | [m; c] => if byte.unsigned m =? 204
                   then Ret (PyVal (Z.to_nat (byte.unsigned c)))
                   else Raise (Exn ValueError "could not unpack")
       | _ => Raise (Exn ValueError "could not unpack")
       end |}.

(** A Subscriber on channel ["c1"] whose cursor is at slot 0. *)
Definition subscriber_c1 : Subscriber.t :=
  {| Subscriber._name := "c1";
     Subscriber._serialization := "pickle";
     Subscriber._shm_name := "shmcomm_pub_c1";
     Subscriber._shm :=
       Some {| shm_id := 4; name := "shmcomm_pub_c1"; buf := backlog |};
     Subscriber._tail := 0 |}.

(** Hosts for the examples.  [generous] grants any request other than
    for the name ["shmcomm_pub_denied"], every existing name can be
    opened and holds a ring of four slots.  On [guarded] the existing
    segment ["shmcomm_pub_c1"] cannot be opened. *)
Definition generous : Host :=
  {| contents := fun _ => fresh_ring 4 8;
     denies := fun _ => None;
     refuses := fun n _ =>
       if String.eqb n "shmcomm_pub_denied"
       then Some (Exn OSError "Cannot allocate memory")
       else None |}.


(** The two ends of service ["svc"] with their cursors at slot 0. *)
Definition replier_svc : Replier.t :=
  {| Replier._name := "svc";
     Replier._serialization := "pickle";
     Replier._req_shm :=
       Some {| shm_id := 1; name := "shmcomm_req_svc"; buf := fresh_ring 4 8 |};
     Replier._rep_shm :=
       Some {| shm_id := 2; name := "shmcomm_rep_svc"; buf := fresh_ring 4 8 |};
     Replier._req_tail := 0 |}.

Definition requester_svc : Requester.t :=
  {| Requester._name := "svc";
     Requester._serialization := "pickle";
     Requester._req_shm :=
       Some {| shm_id := 1; name := "shmcomm_req_svc"; buf := fresh_ring 4 8 |};
     Requester._rep_shm :=
       Some {| shm_id := 2; name := "shmcomm_rep_svc"; buf := fresh_ring 4 8 |};
     Requester._rep_tail := 0 |}.

(** The lock of the pullers of channel ["jobs"], not held, and a process
    with the three standard descriptors open. *)
Definition lock_jobs : FileLock.t :=
  FileLock.init "/tmp" "shmcomm_push_jobs" None.

Definition idle_files : FileLock.Files :=
  {| FileLock.fds := {[ 0%nat; 1%nat; 2%nat ]};
     FileLock.locked := ∅;
     FileLock.flock_calls := 0 |}.

(** A Pusher and a Puller on channel ["jobs"]. *)
Definition pusher_jobs : Pusher.t :=
  {| Pusher._name := "jobs";
     Pusher._serialization := "pickle";
     Pusher._shm_name := "shmcomm_push_jobs";
     Pusher._shm :=
       Some {| shm_id := 5; name := "shmcomm_push_jobs"; buf := fresh_ring 4 8 |} |}.

Definition puller_jobs : Puller.t :=
  {| Puller._name := "jobs";
     Puller._serialization := "pickle";
     Puller._shm_name := "shmcomm_push_jobs";
     Puller._shm :=
       Some {| shm_id := 6; name := "shmcomm_push_jobs"; buf := fresh_ring 4 8 |} |}.
(* ================================================================== *)
(** * Properties *)

(** ** The byte buffer *)

Section Memory.

Implicit Types (b data : bytes) (off o : Z) (n : nat).

Lemma len_nonneg b : 0 <= Py.len b.
Proof. unfold Py.len. lia. Qed.

Lemma length_splice b off data :
  0 <= off -> off + Py.len data <= Py.len b ->
  length (Py.splice b off data) = length b.
Proof.
  unfold Py.splice, Py.len. intros.
  rewrite !length_app, length_take, length_drop. lia.
Qed.

Lemma len_splice b off data :
  0 <= off -> off + Py.len data <= Py.len b ->
  Py.len (Py.splice b off data) = Py.len b.
Proof. intros. unfold Py.len. now rewrite length_splice. Qed.

Lemma lookup_peek b off n (k : nat) :
  Py.peek b off n !! k = if (k <? n)%nat then b !! (Z.to_nat off + k)%nat else None.
Proof.
  unfold Py.peek. destruct (Nat.ltb_spec k n).
  - rewrite lookup_take_lt by lia. apply lookup_drop.
  - apply lookup_take_ge. lia.
Qed.

Lemma lookup_splice b off data (k : nat) :
  0 <= off -> off + Py.len data <= Py.len b ->
  Py.splice b off data !! k =
    if (k <? Z.to_nat off)%nat then b !! k
    else if (k <? Z.to_nat off + length data)%nat then data !! (k - Z.to_nat off)%nat
    else b !! k.
Proof.
  unfold Py.splice, Py.len. intros.
  destruct (Nat.ltb_spec k (Z.to_nat off)).
  - rewrite lookup_app_l by (rewrite length_take; lia).
    now rewrite lookup_take_lt by lia.
  - rewrite lookup_app_r by (rewrite length_take; lia).
    rewrite length_take.
    replace (Z.to_nat off `min` length b)%nat with (Z.to_nat off) by lia.
    destruct (Nat.ltb_spec k (Z.to_nat off + length data)).
    + now rewrite lookup_app_l by lia.
    + rewrite lookup_app_r by lia. rewrite lookup_drop. f_equal. lia.
Qed.

Lemma peek_splice_same b off data :
  0 <= off -> off + Py.len data <= Py.len b ->
  Py.peek (Py.splice b off data) off (length data) = data.
Proof.
  intros. apply list_eq. intros k.
  rewrite lookup_peek, lookup_splice by assumption.
  destruct (Nat.ltb_spec k (length data)).
  - destruct (Nat.ltb_spec (Z.to_nat off + k) (Z.to_nat off)); [lia|].
    destruct (Nat.ltb_spec (Z.to_nat off + k) (Z.to_nat off + length data)); [|lia].
    f_equal. lia.
  - symmetry. apply lookup_ge_None. lia.
Qed.

Lemma peek_splice_disjoint b off data o n :
  0 <= off -> off + Py.len data <= Py.len b -> 0 <= o ->
  o + Z.of_nat n <= off \/ off + Py.len data <= o ->
  Py.peek (Py.splice b off data) o n = Py.peek b o n.
Proof.
  unfold Py.len. intros ? ? ? Hd. apply list_eq. intros k.
  rewrite !lookup_peek, lookup_splice by assumption.
  destruct (Nat.ltb_spec k n); [|reflexivity].
  destruct (Nat.ltb_spec (Z.to_nat o + k) (Z.to_nat off)); [reflexivity|].
  destruct (Nat.ltb_spec (Z.to_nat o + k) (Z.to_nat off + length data)); [lia|reflexivity].
Qed.

Lemma length_peek b off n :
  0 <= off -> off + Z.of_nat n <= Py.len b -> length (Py.peek b off n) = n.
Proof.
  unfold Py.peek, Py.len. intros. rewrite length_take, length_drop. lia.
Qed.

Lemma peek_full_length b off n :
  0 <= off -> length (Py.peek b off n) = n -> off + Z.of_nat n <= Py.len b \/ n = 0%nat.
Proof.
  unfold Py.peek, Py.len. rewrite length_take, length_drop. lia.
Qed.

Lemma peek_app b off n m :
  0 <= off ->
  Py.peek b off (n + m) = Py.peek b off n ++ Py.peek b (off + Z.of_nat n) m.
Proof.
  intros. unfold Py.peek.
  replace (Z.to_nat (off + Z.of_nat n)) with (Z.to_nat off + n)%nat by lia.
  rewrite <- drop_drop. symmetry. apply take_take_drop.
Qed.

Lemma peek_ext b b' off n :
  0 <= off ->
  (forall k : nat, (Z.to_nat off <= k < Z.to_nat off + n)%nat -> b' !! k = b !! k) ->
  Py.peek b' off n = Py.peek b off n.
Proof.
  intros ? Hk. apply list_eq. intros k. rewrite !lookup_peek.
  destruct (Nat.ltb_spec k n); [|reflexivity]. apply Hk. lia.
Qed.

(** *** int64 cells *)

Lemma int64_wrap v :
  Py.in_int64 v = true -> Py.int64 (v mod 2 ^ 64) = v.
Proof.
  unfold Py.in_int64, Py.int64. intros Hv.
  apply andb_true_iff in Hv as [Hlo Hhi].
  apply Z.leb_le in Hlo. apply Z.ltb_lt in Hhi.
  destruct (Z.ltb_spec (v mod 2 ^ 64) (2 ^ 63)) as [Hm|Hm].
  - destruct (Z.neg_nonneg_cases v) as [Hn|Hn].
    + rewrite <- (Z.mod_add v 1 (2 ^ 64)) in Hm by lia.
      rewrite Z.mod_small in Hm by lia. lia.
    + rewrite Z.mod_small by lia. reflexivity.
  - destruct (Z.neg_nonneg_cases v) as [Hn|Hn].
    + rewrite <- (Z.mod_add v 1 (2 ^ 64)) by lia.
      rewrite Z.mod_small by lia. lia.
    + rewrite Z.mod_small in Hm by lia. lia.
Qed.

Lemma int64_range u :
  0 <= u < 2 ^ 64 -> Py.in_int64 (Py.int64 u) = true.
Proof.
  unfold Py.in_int64, Py.int64. intros.
  destruct (Z.ltb_spec u (2 ^ 63)); apply andb_true_iff; split;
    try apply Z.leb_le; try apply Z.ltb_lt; lia.
Qed.

Lemma cell_in_int64 b i : Py.in_int64 (Py.cell b i) = true.
Proof.
  unfold Py.cell. apply int64_range.
  pose proof (le_combine_bound (Py.peek b (8 * Z.of_nat i) 8)) as Hb.
  assert (length (Py.peek b (8 * Z.of_nat i) 8) <= 8)%nat
    by (unfold Py.peek; rewrite length_take; lia).
  split; [lia|]. eapply Z.lt_le_trans; [apply Hb|].
  apply Z.pow_le_mono_r; lia.
Qed.

Lemma cell_store_same b i v :
  8 * Z.of_nat i + 8 <= Py.len b ->
  Py.cell (Py.store b i v) i = Py.int64 (v mod 2 ^ 64).
Proof.
  intros. unfold Py.cell, Py.store.
  replace 8%nat with (length (le_split 8 v)) at 2 by apply length_le_split.
  rewrite peek_splice_same.
  - now rewrite le_combine_split.
  - lia.
  - unfold Py.len at 1. rewrite length_le_split. lia.
Qed.

Lemma cell_store_other b i j v :
  i <> j -> 8 * Z.of_nat j + 8 <= Py.len b ->
  Py.cell (Py.store b j v) i = Py.cell b i.
Proof.
  intros. unfold Py.cell, Py.store. f_equal. f_equal.
  apply peek_splice_disjoint; try lia.
  - unfold Py.len at 1. rewrite length_le_split. lia.
  - unfold Py.len at 1. rewrite length_le_split. lia.
Qed.

Lemma len_store b i v :
  8 * Z.of_nat i + 8 <= Py.len b -> Py.len (Py.store b i v) = Py.len b.
Proof.
  intros. unfold Py.store. apply len_splice; [lia|].
  unfold Py.len at 1. rewrite length_le_split. lia.
Qed.

Lemma cell_splice_above b i off data :
  8 * Z.of_nat i + 8 <= off -> off + Py.len data <= Py.len b ->
  Py.cell (Py.splice b off data) i = Py.cell b i.
Proof.
  intros. unfold Py.cell. f_equal. f_equal.
  apply peek_splice_disjoint; lia.
Qed.

Lemma peek_store_above b i v o n :
  8 * Z.of_nat i + 8 <= o -> 8 * Z.of_nat i + 8 <= Py.len b ->
  Py.peek (Py.store b i v) o n = Py.peek b o n.
Proof.
  intros. unfold Py.store. apply peek_splice_disjoint; try lia;
    unfold Py.len at 1; rewrite length_le_split; lia.
Qed.

End Memory.

(** ** Slots *)

Section Slots.

Implicit Types (b p q : bytes) (S i j : Z).

Lemma slot_offset_ge i S : 0 <= i -> 0 <= S -> HEADER_SIZE <= _slot_offset i S.
Proof. unfold _slot_offset, HEADER_SIZE. nia. Qed.

Lemma len_prefixed p : Py.len (le_split 4 (Py.len p) ++ p) = 4 + Py.len p.
Proof. unfold Py.len. rewrite length_app, length_le_split. lia. Qed.

Lemma read_slot_holds b S i p :
  holds b S i p -> _read_slot i S b = (Ret p, b).
Proof.
  intros (Hi & HS & Hp & Hpeek).
  pose proof (slot_offset_ge i S Hi HS) as Hoff. unfold HEADER_SIZE in Hoff.
  pose proof (f_equal length Hpeek) as Hlen.
  rewrite length_app, length_le_split in Hlen.
  apply peek_full_length in Hlen; [|lia].
  destruct Hlen as [Hlen|Hlen]; [|lia].
  assert (Hfit : _slot_offset i S + 4 + Py.len p <= Py.len b)
    by (unfold Py.len in *; lia).
  pose proof (len_nonneg p) as Hp0.
  rewrite peek_app in Hpeek by lia.
  apply app_inj_1 in Hpeek as [H4 Hp'];
    [|rewrite length_peek, length_le_split; lia].
  unfold _read_slot, bind, Py.unpack_from, Py.struct_offset.
  destruct (Z.ltb_spec (_slot_offset i S) 0); [lia|].
  destruct (Z.ltb_spec (Py.len b - _slot_offset i S) 4); [lia|].
  rewrite H4, le_combine_split.
  rewrite Z.mod_small by (pose proof (len_nonneg p); change (2 ^ (Z.of_nat 4 * 8)) with (2 ^ 32); lia).
  f_equal. unfold Py.slice, Py.slice_index, SLOT_PREFIX_SIZE.
  destruct (Z.ltb_spec (_slot_offset i S + 4) 0); [lia|].
  destruct (Z.ltb_spec (_slot_offset i S + 4 + Py.len p) 0); [pose proof (len_nonneg p); lia|].
  rewrite !Z.min_l by lia.
  replace (Z.to_nat (_slot_offset i S + 4 + Py.len p - (_slot_offset i S + 4)))
    with (length p) by (unfold Py.len; lia).
  f_equal. exact Hp'.
Qed.

Lemma splice_splice_adjacent b off d1 d2 :
  0 <= off -> off + Py.len d1 + Py.len d2 <= Py.len b ->
  Py.splice (Py.splice b off d1) (off + Py.len d1) d2 = Py.splice b off (d1 ++ d2).
Proof.
  intros. pose proof (len_nonneg d1). pose proof (len_nonneg d2).
  apply list_eq. intros k.
  rewrite lookup_splice; [|lia|rewrite len_splice; lia].
  rewrite lookup_splice by lia.
  rewrite lookup_splice; [|lia|unfold Py.len in *; rewrite length_app; lia].
  rewrite length_app. unfold Py.len in *.
  repeat match goal with
         | |- context [(?a <? ?c)%nat] => destruct (Nat.ltb_spec a c)
         end; try lia; try reflexivity.
  - now rewrite lookup_app_l by lia.
  - rewrite lookup_app_r by lia. f_equal. lia.
Qed.

Lemma write_slot_ok b S i p :
  0 <= i -> 0 <= S -> Py.len p < 2 ^ 32 ->
  _slot_offset i S + 4 + Py.len p <= Py.len b ->
  _write_slot i S p b
    = (Ret tt, Py.splice b (_slot_offset i S) (le_split 4 (Py.len p) ++ p)).
Proof.
  intros Hi HS Hp Hfit.
  pose proof (slot_offset_ge i S Hi HS) as Hoff. unfold HEADER_SIZE in Hoff.
  pose proof (len_nonneg p).
  unfold _write_slot, bind, Py.pack_into, Py.struct_offset.
  destruct (Z.ltb_spec (_slot_offset i S) 0); [lia|].
  destruct (Z.ltb_spec (Py.len b - _slot_offset i S) 4); [lia|].
  destruct (Z.ltb_spec (Py.len p) 0); [lia|].
  destruct (Z.leb_spec (2 ^ 32) (Py.len p)); [lia|]. cbn [orb].
  unfold Py.slice_assign, Py.slice_index, SLOT_PREFIX_SIZE.
  assert (Hl4 : Py.len (le_split 4 (Py.len p)) = 4)
    by (unfold Py.len at 1; now rewrite length_le_split).
  rewrite len_splice by lia.
  destruct (Z.ltb_spec (_slot_offset i S + 4) 0); [lia|].
  destruct (Z.ltb_spec (_slot_offset i S + 4 + Py.len p) 0); [lia|].
  rewrite !Z.min_l by lia.
  destruct (Z.eqb_spec (Z.max 0 (_slot_offset i S + 4 + Py.len p - (_slot_offset i S + 4))) (Py.len p)); [|lia].
  f_equal.
  replace (_slot_offset i S + 4)
    with (_slot_offset i S + Py.len (le_split 4 (Py.len p))) by lia.
  apply splice_splice_adjacent; lia.
Qed.

Lemma holds_splice_same b S i p :
  0 <= i -> 0 <= S -> Py.len p < 2 ^ 32 ->
  _slot_offset i S + 4 + Py.len p <= Py.len b ->
  holds (Py.splice b (_slot_offset i S) (le_split 4 (Py.len p) ++ p)) S i p.
Proof.
  intros Hi HS Hp Hfit. repeat split; try assumption.
  pose proof (slot_offset_ge i S Hi HS) as Hoff. unfold HEADER_SIZE in Hoff.
  replace (4 + length p)%nat with (length (le_split 4 (Py.len p) ++ p))
    by (rewrite length_app, length_le_split; lia).
  apply peek_splice_same; [lia|]. rewrite len_prefixed. lia.
Qed.

Lemma holds_splice_other b S i j p q :
  i <> j -> 0 <= j -> Py.len p <= S - 4 -> Py.len q <= S - 4 ->
  _slot_offset j S + 4 + Py.len p <= Py.len b ->
  holds b S i q ->
  holds (Py.splice b (_slot_offset j S) (le_split 4 (Py.len p) ++ p)) S i q.
Proof.
  intros Hij Hj Hp Hq Hfit (Hi & HS & Hq32 & Hpeek).
  repeat split; try assumption.
  pose proof (slot_offset_ge i S Hi HS) as Hoff. unfold HEADER_SIZE in Hoff.
  pose proof (slot_offset_ge j S Hj HS) as Hoffj. unfold HEADER_SIZE in Hoffj.
  rewrite <- Hpeek. apply peek_splice_disjoint; try lia.
  - rewrite len_prefixed. lia.
  - rewrite len_prefixed. unfold _slot_offset, Py.len in *.
    destruct (Z.lt_ge_cases i j); [left|right]; nia.
Qed.

Lemma holds_store b S i p (c : nat) v :
  (c <= 15)%nat -> HEADER_SIZE <= Py.len b ->
  holds b S i p -> holds (Py.store b c v) S i p.
Proof.
  unfold HEADER_SIZE. intros Hc Hlen (Hi & HS & Hp & Hpeek).
  repeat split; try assumption.
  pose proof (slot_offset_ge i S Hi HS) as Hoff. unfold HEADER_SIZE in Hoff.
  rewrite <- Hpeek. apply peek_store_above; lia.
Qed.

End Slots.

(** ** Frames: what a store to a header cell leaves alone *)

Section Frames.

Implicit Types (b p q : bytes) (cells : list nat).

Lemma same_outside_refl cells b : same_outside cells b b.
Proof. split; auto. Qed.

Lemma same_outside_trans cells b1 b2 b3 :
  same_outside cells b1 b2 -> same_outside cells b2 b3 ->
  same_outside cells b1 b3.
Proof.
  intros [L1 K1] [L2 K2]. split; [congruence|].
  intros k Hk. rewrite K2, K1; auto.
Qed.

Lemma same_outside_len cells b b' :
  same_outside cells b b' -> Py.len b' = Py.len b.
Proof. intros [L _]. unfold Py.len. now rewrite L. Qed.

Lemma same_outside_store cells b c v :
  In c cells -> 8 * Z.of_nat c + 8 <= Py.len b ->
  same_outside cells b (Py.store b c v).
Proof.
  intros Hc Hlen. unfold Py.store.
  assert (Hl8 : Py.len (le_split 8 v) = 8)
    by (unfold Py.len; now rewrite length_le_split).
  split; [apply length_splice; lia|].
  intros k Hk. specialize (Hk c Hc).
  rewrite lookup_splice by lia. rewrite length_le_split.
  destruct (Nat.ltb_spec k (Z.to_nat (8 * Z.of_nat c))); [reflexivity|].
  destruct (Nat.ltb_spec k (Z.to_nat (8 * Z.of_nat c) + 8)); [lia|reflexivity].
Qed.

Lemma same_outside_cell cells b b' c :
  same_outside cells b b' -> ~ In c cells -> Py.cell b' c = Py.cell b c.
Proof.
  intros [_ K] Hc. unfold Py.cell. do 2 f_equal.
  apply peek_ext; [lia|]. intros k Hk. apply K.
  intros i Hi. assert (i <> c) by congruence. lia.
Qed.

Lemma same_outside_holds cells b b' S i p :
  same_outside cells b b' -> (forall c, In c cells -> (c <= 15)%nat) ->
  holds b S i p -> holds b' S i p.
Proof.
  intros [_ K] Hcells (Hi & HS & Hp & Hpeek).
  repeat split; try assumption.
  pose proof (slot_offset_ge i S Hi HS) as Hoff. unfold HEADER_SIZE in Hoff.
  rewrite <- Hpeek. apply peek_ext; [lia|]. intros k Hk. apply K.
  intros c Hc. specialize (Hcells c Hc). lia.
Qed.

End Frames.

(** ** The producer *)

Section Producer.

Implicit Types (b p q : bytes).

Lemma sound_geometry_spec b :
  sound_geometry b = true <->
  0 < NUM_SLOTS b /\ 0 <= SLOT_SIZE b
  /\ segment_size (NUM_SLOTS b) (SLOT_SIZE b) <= Py.len b.
Proof.
  unfold sound_geometry. rewrite !andb_true_iff, Z.ltb_lt, !Z.leb_le. tauto.
Qed.

Lemma valid_segment_spec b :
  valid_segment b = true <->
  Py.cell b _IDX_MAGIC = MAGIC /\ Py.cell b _IDX_VERSION = VERSION
  /\ sound_geometry b = true
  /\ 0 <= HEAD b < NUM_SLOTS b /\ 0 <= TAIL b < NUM_SLOTS b.
Proof.
  unfold valid_segment.
  rewrite !andb_true_iff, !Z.ltb_lt, !Z.leb_le, !Z.eqb_eq. tauto.
Qed.

Lemma valid_writable b : valid_segment b = true -> writable b.
Proof. rewrite valid_segment_spec. unfold writable. tauto. Qed.

Lemma header_fits b : sound_geometry b = true -> HEADER_SIZE <= Py.len b.
Proof.
  rewrite sound_geometry_spec. unfold segment_size, HEADER_SIZE. nia.
Qed.

Lemma slot_fits b i p :
  sound_geometry b = true -> 0 <= i < NUM_SLOTS b ->
  Py.len p <= SLOT_SIZE b - 4 ->
  _slot_offset i (SLOT_SIZE b) + 4 + Py.len p <= Py.len b.
Proof.
  rewrite sound_geometry_spec. unfold segment_size, _slot_offset, HEADER_SIZE.
  intros (HN & HS & Hlen) Hi Hp. nia.
Qed.

Lemma same_outside_writable cells b b' :
  same_outside cells b b' ->
  ~ In IDX_HEAD cells -> ~ In IDX_NUM_SLOTS cells -> ~ In IDX_SLOT_SIZE cells ->
  writable b -> writable b'.
Proof.
  intros Hs H1 H2 H3 [Hg Hh]. unfold writable, sound_geometry, HEAD, NUM_SLOTS, SLOT_SIZE in *.
  rewrite (same_outside_len _ _ _ Hs).
  rewrite !(same_outside_cell _ _ _ _ Hs) by assumption. auto.
Qed.

Lemma next_head_in_int64 b :
  0 < NUM_SLOTS b -> Py.in_int64 ((HEAD b + 1) mod NUM_SLOTS b) = true.
Proof.
  intros HN.
  pose proof (Z.mod_pos_bound (HEAD b + 1) (NUM_SLOTS b) HN).
  pose proof (cell_in_int64 b IDX_NUM_SLOTS) as Hc. fold (NUM_SLOTS b) in Hc.
  unfold Py.in_int64 in *. apply andb_true_iff in Hc as [_ Hc].
  apply Z.ltb_lt in Hc. apply andb_true_iff. split.
  - apply Z.leb_le. lia.
  - apply Z.ltb_lt. lia.
Qed.

(** What a committed write changes and what it leaves alone. *)
Lemma commit_spec b p :
  writable b -> Py.len p <= SLOT_SIZE b - 4 -> Py.len p < 2 ^ 32 ->
  Py.len (commit b p) = Py.len b
  /\ (forall c : nat, (c <= 15)%nat -> c <> IDX_HEAD -> c <> IDX_MSG_COUNT ->
        Py.cell (commit b p) c = Py.cell b c)
  /\ HEAD (commit b p) = (HEAD b + 1) mod NUM_SLOTS b
  /\ MSG_COUNT (commit b p) = Py.int64 ((MSG_COUNT b + 1) mod 2 ^ 64)
  /\ holds (commit b p) (SLOT_SIZE b) (HEAD b) p
  /\ (forall j q, j <> HEAD b -> Py.len q <= SLOT_SIZE b - 4 ->
        holds b (SLOT_SIZE b) j q -> holds (commit b p) (SLOT_SIZE b) j q).
Proof.
  intros [Hg Hh] Hp Hp32.
  pose proof (header_fits b Hg) as Hhdr. unfold HEADER_SIZE in Hhdr.
  pose proof (slot_fits b (HEAD b) p Hg Hh Hp) as Hfit.
  pose proof Hg as Hg'. apply sound_geometry_spec in Hg' as (HN & HS & _).
  pose proof (slot_offset_ge (HEAD b) (SLOT_SIZE b) (proj1 Hh) HS) as Hoff.
  unfold HEADER_SIZE in Hoff.
  unfold commit.
  set (b1 := Py.splice b _ _).
  set (b2 := Py.store b1 IDX_HEAD _).
  assert (L1 : Py.len b1 = Py.len b)
    by (apply len_splice; [lia|rewrite len_prefixed; lia]).
  assert (L2 : Py.len b2 = Py.len b)
    by (unfold b2; rewrite len_store; [exact L1|unfold IDX_HEAD, _IDX_HEAD; lia]).
  assert (C1 : forall c : nat, (c <= 15)%nat -> Py.cell b1 c = Py.cell b c)
    by (intros c Hc; apply cell_splice_above; [lia|rewrite len_prefixed; lia]).
  assert (M2 : MSG_COUNT b2 = MSG_COUNT b).
  { unfold MSG_COUNT, b2. rewrite cell_store_other; [apply C1|discriminate|];
      unfold IDX_MSG_COUNT, _IDX_MSG_COUNT, IDX_HEAD, _IDX_HEAD; lia. }
  rewrite M2.
  split; [|split; [|split; [|split; [|split]]]].
  - rewrite len_store; [exact L2|unfold IDX_MSG_COUNT, _IDX_MSG_COUNT; lia].
  - intros c Hc Hc1 Hc2.
    rewrite cell_store_other; [|congruence|unfold IDX_MSG_COUNT, _IDX_MSG_COUNT; lia].
    unfold b2. rewrite cell_store_other; [|congruence|unfold IDX_HEAD, _IDX_HEAD; lia].
    now apply C1.
  - unfold HEAD at 1.
    rewrite cell_store_other; [|discriminate|unfold IDX_MSG_COUNT, _IDX_MSG_COUNT; lia].
    unfold b2. rewrite cell_store_same by (unfold IDX_HEAD, _IDX_HEAD; lia).
    apply int64_wrap. now apply next_head_in_int64.
  - unfold MSG_COUNT at 1.
    rewrite cell_store_same by (unfold IDX_MSG_COUNT, _IDX_MSG_COUNT; lia).
    apply int64_wrap, int64_range. apply Z.mod_pos_bound. lia.
  - apply holds_store; [unfold IDX_MSG_COUNT, _IDX_MSG_COUNT; lia|unfold HEADER_SIZE; lia|].
    apply holds_store; [unfold IDX_HEAD, _IDX_HEAD; lia|unfold HEADER_SIZE; lia|].
    apply holds_splice_same; lia.
  - intros j q Hj Hq Hholds.
    apply holds_store; [unfold IDX_MSG_COUNT, _IDX_MSG_COUNT; lia|unfold HEADER_SIZE; lia|].
    apply holds_store; [unfold IDX_HEAD, _IDX_HEAD; lia|unfold HEADER_SIZE; lia|].
    apply holds_splice_other; try assumption; try lia.
Qed.

(** Steps 4 and 5 of [write_message]: the message is committed, unless
    its length does not fit the 32-bit prefix. *)
Lemma write_commit b p :
  writable b -> Py.len p <= SLOT_SIZE b - 4 ->
  (head <- Py.getitem IDX_HEAD ;;
   next_head <- Py.mod_ (head + 1) (NUM_SLOTS b) ;;
   _write_slot head (SLOT_SIZE b) p ;;;
   Py.setitem IDX_HEAD next_head ;;;
   Py.iadd1 IDX_MSG_COUNT ;;;
   ret true) b
  = if Py.len p <? 2 ^ 32 then (Ret true, commit b p)
    else (Raise (Exn StructError "argument out of range"), b).
Proof.
  intros [Hg Hh] Hp.
  pose proof (slot_fits b (HEAD b) p Hg Hh Hp) as Hfit.
  pose proof Hg as Hg'. apply sound_geometry_spec in Hg' as (HN & HS & _).
  pose proof (slot_offset_ge (HEAD b) (SLOT_SIZE b) (proj1 Hh) HS) as Hoff.
  unfold HEADER_SIZE in Hoff. pose proof (len_nonneg p) as Hp0.
  unfold bind at 1. unfold Py.getitem at 1. fold (HEAD b).
  unfold bind at 1. unfold Py.mod_.
  destruct (Z.eqb_spec (NUM_SLOTS b) 0); [lia|]. unfold ret at 1.
  destruct (Z.ltb_spec (Py.len p) (2 ^ 32)) as [Hp32|Hp32].
  - unfold bind at 1. rewrite write_slot_ok by lia.
    unfold bind at 1. unfold Py.setitem.
    rewrite next_head_in_int64 by assumption.
    unfold bind, Py.iadd1, ret, commit, MSG_COUNT. reflexivity.
  - unfold bind at 1. unfold _write_slot. unfold bind at 1.
    unfold Py.pack_into, Py.struct_offset.
    destruct (Z.ltb_spec (_slot_offset (HEAD b) (SLOT_SIZE b)) 0); [lia|].
    destruct (Z.ltb_spec (Py.len b - _slot_offset (HEAD b) (SLOT_SIZE b)) 4); [lia|].
    destruct (Z.ltb_spec (Py.len p) 0); [lia|].
    destruct (Z.leb_spec (2 ^ 32) (Py.len p)); [|lia]. reflexivity.
Qed.

(** The loop of the non-overwrite path, one iteration at a time. *)
Lemma wait_free fuel env k deadline block b :
  NUM_SLOTS b <> 0 -> ring_full b = false ->
  wait_for_slot (S fuel) env k deadline block (NUM_SLOTS b) b = (Ret SlotFree, b).
Proof.
  intros HN Hfree. unfold ring_full in Hfree. cbn [wait_for_slot].
  unfold bind, Py.getitem, Py.mod_. fold (HEAD b) (TAIL b).
  destruct (Z.eqb_spec (NUM_SLOTS b) 0); [contradiction|].
  unfold ret. now rewrite Hfree.
Qed.

Lemma wait_drop fuel env k deadline b :
  NUM_SLOTS b <> 0 -> ring_full b = true ->
  wait_for_slot (S fuel) env k deadline false (NUM_SLOTS b) b
  = (Ret Dropped,
     Py.store b IDX_DROP_COUNT (Py.int64 ((DROP_COUNT b + 1) mod 2 ^ 64))).
Proof.
  intros HN Hfull. unfold ring_full in Hfull. cbn [wait_for_slot].
  unfold bind, Py.getitem, Py.mod_. fold (HEAD b) (TAIL b).
  destruct (Z.eqb_spec (NUM_SLOTS b) 0); [contradiction|].
  unfold ret. rewrite Hfull. reflexivity.
Qed.

Lemma wait_deadline fuel env k d b :
  NUM_SLOTS b <> 0 -> ring_full b = true -> d <= monotonic env (S k) ->
  wait_for_slot (S fuel) env k (Some d) true (NUM_SLOTS b) b
  = (Raise (Exn SHMBufferFullError "Ring buffer full; could not write message"), b).
Proof.
  intros HN Hfull Hd. unfold ring_full in Hfull. cbn [wait_for_slot].
  unfold bind, Py.getitem, Py.mod_. fold (HEAD b) (TAIL b).
  destruct (Z.eqb_spec (NUM_SLOTS b) 0); [contradiction|].
  unfold ret. rewrite Hfull. cbn [negb].
  apply Z.leb_le in Hd. now rewrite Hd.
Qed.

Lemma wait_sleep fuel env k deadline b :
  NUM_SLOTS b <> 0 -> ring_full b = true ->
  match deadline with Some d => monotonic env (S k) < d | None => True end ->
  wait_for_slot (S fuel) env k deadline true (NUM_SLOTS b) b
  = wait_for_slot fuel env (S k) deadline true (NUM_SLOTS b) (snd (sleep env k b)).
Proof.
  intros HN Hfull Hd. unfold ring_full in Hfull. cbn [wait_for_slot].
  unfold bind at 1. unfold Py.getitem at 1. unfold bind at 1.
  unfold Py.getitem at 1. unfold bind at 1. unfold Py.mod_.
  fold (HEAD b) (TAIL b).
  destruct (Z.eqb_spec (NUM_SLOTS b) 0); [contradiction|].
  unfold ret at 1. rewrite Hfull. cbn [negb].
  assert (Hnd : match deadline with
                | Some d => d <=? monotonic env (S k)
                | None => false
                end = false).
  { destruct deadline; [apply Z.leb_gt; exact Hd|reflexivity]. }
  rewrite Hnd. unfold bind at 1. unfold sleep.
  destruct (consumer env k); reflexivity.
Qed.

Lemma sleep_frame env k b :
  HEADER_SIZE <= Py.len b ->
  same_outside [IDX_TAIL; IDX_DROP_COUNT] b (snd (sleep env k b)).
Proof.
  unfold HEADER_SIZE. intros. unfold sleep.
  destruct (consumer env k); cbn [snd].
  - apply same_outside_store; [now left|unfold IDX_TAIL, _IDX_TAIL; lia].
  - apply same_outside_refl.
Qed.

(** Waiting touches nothing but TAIL (the consumers' stores) and
    DROP_COUNT. *)
Lemma wait_frame fuel : forall env k deadline block N b r b',
  HEADER_SIZE <= Py.len b ->
  wait_for_slot fuel env k deadline block N b = (r, b') ->
  same_outside [IDX_TAIL; IDX_DROP_COUNT] b b'.
Proof.
  induction fuel as [|fuel IH]; intros env k deadline block N b r b' Hlen Hw.
  - cbn in Hw. injection Hw as _ <-. apply same_outside_refl.
  - cbn [wait_for_slot] in Hw.
    unfold bind at 1 in Hw. unfold Py.getitem at 1 in Hw.
    unfold bind at 1 in Hw. unfold Py.getitem at 1 in Hw.
    unfold bind at 1 in Hw. unfold Py.mod_ in Hw.
    destruct (N =? 0).
    { unfold raise in Hw. injection Hw as _ <-. apply same_outside_refl. }
    unfold ret at 1 in Hw.
    destruct (negb _).
    { unfold ret in Hw. injection Hw as _ <-. apply same_outside_refl. }
    destruct block; cbn [negb] in Hw.
    + destruct (match deadline with Some d => _ | None => _ end).
      { unfold raise in Hw. injection Hw as _ <-. apply same_outside_refl. }
      unfold bind at 1 in Hw.
      pose proof (sleep_frame env k b Hlen) as Hs.
      destruct (sleep env k b) as [[u|e|] b1] eqn:Hsl; cbn [snd] in Hs.
      * eapply same_outside_trans; [exact Hs|].
        eapply IH; [|exact Hw].
        now rewrite (same_outside_len _ _ _ Hs).
      * injection Hw as _ <-. exact Hs.
      * injection Hw as _ <-. exact Hs.
    + unfold bind, Py.iadd1, ret in Hw. injection Hw as _ <-.
      unfold HEADER_SIZE in Hlen.
      apply same_outside_store; [right; now left|unfold IDX_DROP_COUNT, _IDX_DROP_COUNT; lia].
Qed.

(** [write_message] in one equation. *)
Lemma write_message_cases fuel env b p block timeout overwrite :
  writable b -> Py.len p <= SLOT_SIZE b - 4 ->
  write_message fuel env p block timeout overwrite b
  = match (if overwrite then (Ret SlotFree, b)
           else wait_for_slot fuel env 0
                  (if block then option_map (Z.add (monotonic env 0)) timeout
                   else None)
                  block (NUM_SLOTS b) b) with
    | (Ret SlotFree, b1) =>
        if Py.len p <? 2 ^ 32 then (Ret true, commit b1 p)
        else (Raise (Exn StructError "argument out of range"), b1)
    | (Ret Dropped, b1) => (Ret false, b1)
    | (Raise e, b1) => (Raise e, b1)
    | (Diverge, b1) => (Diverge, b1)
    end.
Proof.
  intros Hw Hp. pose proof (header_fits b (proj1 Hw)) as Hhdr.
  unfold write_message.
  unfold bind at 1. unfold get_header, _make_header_array.
  destruct (Z.ltb_spec (Py.len b) HEADER_SIZE); [lia|].
  unfold bind at 1. unfold Py.getitem at 1. fold (NUM_SLOTS b).
  unfold bind at 1. unfold Py.getitem at 1. fold (SLOT_SIZE b).
  unfold SLOT_PREFIX_SIZE.
  destruct (Z.ltb_spec (SLOT_SIZE b - 4) (Py.len p)); [lia|].
  unfold bind at 1. destruct overwrite; cbn [negb].
  - unfold ret at 1. now apply write_commit.
  - destruct (wait_for_slot _ _ _ _ _ _ _) as [[[|]|e|] b1] eqn:Hwait;
      try reflexivity.
    pose proof (wait_frame _ _ _ _ _ _ _ _ _ Hhdr Hwait) as Hf.
    assert (HN : NUM_SLOTS b1 = NUM_SLOTS b)
      by (apply (same_outside_cell _ _ _ _ Hf); cbv; intuition discriminate).
    assert (HS : SLOT_SIZE b1 = SLOT_SIZE b)
      by (apply (same_outside_cell _ _ _ _ Hf); cbv; intuition discriminate).
    rewrite <- HN, <- HS. apply write_commit.
    + eapply same_outside_writable; [exact Hf| | | |exact Hw];
        cbv; intuition discriminate.
    + now rewrite HS.
Qed.

End Producer.

(** ** The private-cursor consumer *)

Section Consumer.

Implicit Types (b p q : bytes).

Lemma read_spsc_empty b :
  HEADER_SIZE <= Py.len b -> read_message_spsc (HEAD b) b = (Ret None, b).
Proof.
  intros Hlen. unfold read_message_spsc.
  unfold bind at 1. unfold get_header, _make_header_array.
  destruct (Z.ltb_spec (Py.len b) HEADER_SIZE); [lia|].
  unfold bind, Py.getitem. fold (HEAD b). now rewrite Z.eqb_refl.
Qed.

Lemma read_spsc_holds b t p :
  HEADER_SIZE <= Py.len b -> t <> HEAD b -> NUM_SLOTS b <> 0 ->
  holds b (SLOT_SIZE b) t p ->
  read_message_spsc t b = (Ret (Some (p, (t + 1) mod NUM_SLOTS b)), b).
Proof.
  intros Hlen Ht HN Hholds. unfold read_message_spsc.
  unfold bind at 1. unfold get_header, _make_header_array.
  destruct (Z.ltb_spec (Py.len b) HEADER_SIZE); [lia|].
  unfold bind at 1. unfold Py.getitem at 1. fold (HEAD b).
  unfold bind at 1. unfold Py.getitem at 1. fold (NUM_SLOTS b).
  unfold bind at 1. unfold Py.getitem at 1. fold (SLOT_SIZE b).
  destruct (Z.eqb_spec t (HEAD b)); [contradiction|].
  unfold bind at 1. rewrite (read_slot_holds _ _ _ _ Hholds).
  unfold bind, Py.mod_. destruct (Z.eqb_spec (NUM_SLOTS b) 0); [contradiction|].
  reflexivity.
Qed.

End Consumer.

(** ** The repository's buffer tests, replayed on the embedding *)

(** [test_round_trip_spsc] and [test_write_advances_head]. *)
Example test_round_trip_spsc :
  let payload := [Byte.x74; Byte.x65; Byte.x73; Byte.x74] in
  let r := write_message 1 quiet payload false None false (fresh_ring 8 128) in
  fst r = Ret true
  /\ HEAD (snd r) = 1 /\ MSG_COUNT (snd r) = 1
  /\ fst (read_message_spsc 0 (snd r)) = Ret (Some (payload, 1)).
Proof. vm_compute. repeat split; congruence. Qed.

(** [test_read_returns_none_when_empty] and [test_shared_tail_empty]. *)
Example test_read_returns_none_when_empty :
  fst (read_message_spsc 0 (fresh_ring 8 128)) = Ret None
  /\ fst (read_message_shared_tail (fresh_ring 8 128)) = Ret None.
Proof. vm_compute. split; reflexivity. Qed.

(** [test_shared_tail_read]: the shared-tail read claims the slot by
    advancing TAIL. *)
Example test_shared_tail_read :
  let b := snd (write_message 1 quiet [Byte.x73] false None false (fresh_ring 8 128)) in
  fst (read_message_shared_tail b) = Ret (Some [Byte.x73])
  /\ TAIL (snd (read_message_shared_tail b)) = 1.
Proof. vm_compute. split; reflexivity. Qed.

(** [test_spsc_wrap_around] on a ring of four slots: two cycles of three
    overwriting writes, each read back by a cursor that keeps its place. *)
Example test_spsc_wrap_around :
  let m c := [c] in
  let b1 := snd (write_all 1 quiet [m Byte.x01; m Byte.x02; m Byte.x03]
                   false None true (fresh_ring 4 8)) in
  let b2 := snd (write_all 1 quiet [m Byte.x04; m Byte.x05; m Byte.x06]
                   false None true b1) in
  read_all 3 0 b1 = [m Byte.x01; m Byte.x02; m Byte.x03]
  /\ HEAD b2 = 2
  /\ read_all 3 3 b2 = [m Byte.x04; m Byte.x05; m Byte.x06].
Proof. vm_compute. repeat split; congruence. Qed.

(* ================================================================== *)
(** * The claims *)

(** ** C1: raw-bytes round trip *)

(** C1, as stated, fails on a ring of one slot.  With NUM_SLOTS = 1 an
    overwriting write succeeds and leaves HEAD at 0, so the read at the
    pre-write HEAD finds the ring empty and returns [None], not the
    payload. *)
Lemma C1_single_slot_counterexample :
  let b := fresh_ring 1 8 in
  let p := [Byte.x61] in
  valid_segment b = true /\ Py.len p <= SLOT_SIZE b - 4
  /\ fst (write_message 1 quiet p false None true b) = Ret true
  /\ fst (read_message_spsc (HEAD b)
            (snd (write_message 1 quiet p false None true b))) = Ret None.
Proof. vm_compute. repeat split; congruence. Qed.

(** C1 (amended): on a segment with a valid header and at least two
    slots, for every payload [p] with [|p| <= SLOT_SIZE - 4], whenever
    [write_message] returns [True] (in any mode, after any waiting), the
    read at the pre-write HEAD returns exactly [p] together with
    [new_tail = (old HEAD + 1) mod NUM_SLOTS]. *)
Theorem C1_raw_bytes_round_trip :
  forall fuel env b p block timeout overwrite b',
    valid_segment b = true ->
    2 <= NUM_SLOTS b ->
    Py.len p <= SLOT_SIZE b - 4 ->
    write_message fuel env p block timeout overwrite b = (Ret true, b') ->
    read_message_spsc (HEAD b) b'
    = (Ret (Some (p, (HEAD b + 1) mod NUM_SLOTS b)), b').
Proof.
  intros fuel env b p block timeout overwrite b' Hv HN2 Hp Hw.
  pose proof (valid_writable b Hv) as Hwr.
  pose proof (header_fits b (proj1 Hwr)) as Hhdr.
  rewrite write_message_cases in Hw by assumption.
  (* the memory [b1] from which the message is committed *)
  assert (exists b1,
             same_outside [IDX_TAIL; IDX_DROP_COUNT] b b1
             /\ Py.len p < 2 ^ 32 /\ b' = commit b1 p) as (b1 & Hf & Hp32 & ->).
  { destruct overwrite.
    - destruct (Z.ltb_spec (Py.len p) (2 ^ 32)); [|discriminate].
      injection Hw as <-. exists b. split; [apply same_outside_refl|auto].
    - destruct (wait_for_slot _ _ _ _ _ _ _) as [[[|]|e|] b1] eqn:Hwait;
        try discriminate.
      destruct (Z.ltb_spec (Py.len p) (2 ^ 32)); [|discriminate].
      injection Hw as <-. exists b1. split; [|auto].
      eapply wait_frame; eassumption. }
  assert (HH : HEAD b1 = HEAD b)
    by (apply (same_outside_cell _ _ _ _ Hf); cbv; intuition discriminate).
  assert (HN : NUM_SLOTS b1 = NUM_SLOTS b)
    by (apply (same_outside_cell _ _ _ _ Hf); cbv; intuition discriminate).
  assert (HS : SLOT_SIZE b1 = SLOT_SIZE b)
    by (apply (same_outside_cell _ _ _ _ Hf); cbv; intuition discriminate).
  assert (Hwr1 : writable b1)
    by (eapply same_outside_writable; [exact Hf| | | |exact Hwr];
        cbv; intuition discriminate).
  destruct (commit_spec b1 p Hwr1) as (L & C & H' & _ & Hholds & _);
    [rewrite HS; exact Hp|exact Hp32|].
  assert (HN' : NUM_SLOTS (commit b1 p) = NUM_SLOTS b).
  { unfold NUM_SLOTS at 1. rewrite C; [exact HN| | |]; cbv; intuition (try discriminate; lia). }
  assert (HS' : SLOT_SIZE (commit b1 p) = SLOT_SIZE b).
  { unfold SLOT_SIZE at 1. rewrite C; [exact HS| | |]; cbv; intuition (try discriminate; lia). }
  rewrite <- HN'. apply read_spsc_holds.
  - rewrite L, (same_outside_len _ _ _ Hf). exact Hhdr.
  - rewrite H', HH, HN. destruct Hwr as [_ Hh].
    destruct (Z.eq_dec (HEAD b + 1) (NUM_SLOTS b)) as [E|E].
    + rewrite E, Z.mod_same by lia. lia.
    + rewrite Z.mod_small by lia. lia.
  - rewrite HN'. lia.
  - rewrite HS', <- HS, <- HH. exact Hholds.
Qed.

(** The amended C1 at a concrete input: a ring of 4 slots of 8 bytes and
    a three-byte payload, written without overwriting. *)
Lemma C1_raw_bytes_round_trip_witness :
  let b := fresh_ring 4 8 in
  let p := [Byte.x61; Byte.x62; Byte.x63] in
  let b' := snd (write_message 1 quiet p false None false b) in
  valid_segment b = true /\ 2 <= NUM_SLOTS b /\ Py.len p <= SLOT_SIZE b - 4
  /\ write_message 1 quiet p false None false b = (Ret true, b')
  /\ read_message_spsc (HEAD b) b'
     = (Ret (Some (p, (HEAD b + 1) mod NUM_SLOTS b)), b').
Proof.
  intros b p b'.
  assert (Hv : valid_segment b = true) by (vm_compute; reflexivity).
  assert (HN : 2 <= NUM_SLOTS b) by (vm_compute; congruence).
  assert (Hp : Py.len p <= SLOT_SIZE b - 4) by (vm_compute; congruence).
  assert (Hw : write_message 1 quiet p false None false b = (Ret true, b'))
    by (vm_compute; reflexivity).
  refine (conj Hv (conj HN (conj Hp (conj Hw _)))).
  exact (C1_raw_bytes_round_trip 1 quiet b p false None false b' Hv HN Hp Hw).
Defined.

(** ** C2: sentinel capacity *)

Section Capacity.

Implicit Types (b p : bytes).

Lemma store_hdr_len b (i : nat) v :
  (i <= 15)%nat -> HEADER_SIZE <= Py.len b ->
  HEADER_SIZE <= Py.len (Py.store b i v).
Proof. unfold HEADER_SIZE. intros. rewrite len_store; lia. Qed.

Lemma len_store_hdr b (i : nat) v :
  (i <= 15)%nat -> HEADER_SIZE <= Py.len b ->
  Py.len (Py.store b i v) = Py.len b.
Proof. unfold HEADER_SIZE. intros. rewrite len_store; lia. Qed.

Lemma cell_store_hdr_same b (i : nat) v :
  (i <= 15)%nat -> HEADER_SIZE <= Py.len b -> Py.in_int64 v = true ->
  Py.cell (Py.store b i v) i = v.
Proof.
  unfold HEADER_SIZE. intros. rewrite cell_store_same by lia.
  now apply int64_wrap.
Qed.

Lemma cell_store_hdr_other b (i j : nat) v :
  i <> j -> (j <= 15)%nat -> HEADER_SIZE <= Py.len b ->
  Py.cell (Py.store b j v) i = Py.cell b i.
Proof. unfold HEADER_SIZE. intros. apply cell_store_other; [assumption|lia]. Qed.

(** What [_init_header] leaves in the header when it returns. *)
Lemma init_header_spec N S buf b0 :
  _init_header N S buf = (Ret tt, b0) ->
  HEADER_SIZE <= Py.len buf /\ Py.len b0 = Py.len buf
  /\ Py.cell b0 _IDX_MAGIC = MAGIC /\ Py.cell b0 _IDX_VERSION = VERSION
  /\ HEAD b0 = 0 /\ TAIL b0 = 0 /\ MSG_COUNT b0 = 0 /\ DROP_COUNT b0 = 0
  /\ NUM_SLOTS b0 = N /\ SLOT_SIZE b0 = S.
Proof.
  unfold _init_header, bind, _make_header_array, Py.setitem.
  destruct (Z.ltb_spec (Py.len buf) HEADER_SIZE) as [|Hlen]; [discriminate|].
  change (Py.in_int64 MAGIC) with true. change (Py.in_int64 VERSION) with true.
  change (Py.in_int64 0) with true. cbv iota.
  destruct (Py.in_int64 N) eqn:HN; [|discriminate].
  destruct (Py.in_int64 S) eqn:HS; [|discriminate].
  intros [= <-]. split; [exact Hlen|].
  unfold HEAD, TAIL, MSG_COUNT, DROP_COUNT, NUM_SLOTS, SLOT_SIZE.
  split.
  { repeat (rewrite len_store_hdr;
              [|cbv; lia|repeat (apply store_hdr_len; [cbv; lia|]); exact Hlen]).
    reflexivity. }
  repeat split;
    repeat first
      [ rewrite cell_store_hdr_same;
          [reflexivity|cbv; lia|repeat (apply store_hdr_len; [cbv; lia|]); exact Hlen|assumption || reflexivity]
      | rewrite cell_store_hdr_other;
          [|discriminate|cbv; lia|repeat (apply store_hdr_len; [cbv; lia|]); exact Hlen] ].
Qed.

Lemma init_header_valid N S buf b0 :
  _init_header N S buf = (Ret tt, b0) ->
  segment_size N S <= Py.len buf -> 0 < N -> 0 <= S ->
  valid_segment b0 = true.
Proof.
  intros Hinit Hsz HN HS.
  apply init_header_spec in Hinit
    as (_ & L & Hm & Hv & Hh & Ht & _ & _ & HN' & HS').
  apply valid_segment_spec. unfold sound_geometry.
  rewrite Hm, Hv, Hh, Ht, HN', HS', L.
  repeat split; lia.
Qed.

Lemma commit_writable b p :
  writable b -> Py.len p <= SLOT_SIZE b - 4 -> Py.len p < 2 ^ 32 ->
  writable (commit b p)
  /\ NUM_SLOTS (commit b p) = NUM_SLOTS b
  /\ SLOT_SIZE (commit b p) = SLOT_SIZE b
  /\ TAIL (commit b p) = TAIL b
  /\ DROP_COUNT (commit b p) = DROP_COUNT b.
Proof.
  intros Hw Hp Hp32.
  destruct (commit_spec b p Hw Hp Hp32) as (L & C & H' & _).
  assert (HN : NUM_SLOTS (commit b p) = NUM_SLOTS b)
    by (apply C; cbv; intuition (try discriminate; lia)).
  assert (HS : SLOT_SIZE (commit b p) = SLOT_SIZE b)
    by (apply C; cbv; intuition (try discriminate; lia)).
  repeat split; try assumption;
    try (apply C; cbv; intuition (try discriminate; lia)).
  - destruct Hw as [Hg _]. unfold sound_geometry in *. now rewrite HN, HS, L.
  - rewrite H'. apply Z.mod_pos_bound. destruct Hw; lia.
  - rewrite H', HN. apply Z.mod_pos_bound. destruct Hw; lia.
Qed.

(** Writes succeed as long as the slot after HEAD is not TAIL = 0. *)
Lemma write_all_fill fuel env block timeout : forall msgs b,
  (1 <= fuel)%nat -> writable b -> TAIL b = 0 ->
  HEAD b + Z.of_nat (length msgs) < NUM_SLOTS b ->
  Forall (fun m => Py.len m <= SLOT_SIZE b - 4 /\ Py.len m < 2 ^ 32) msgs ->
  exists b1,
    write_all fuel env msgs block timeout false b
      = (Ret (repeat true (length msgs)), b1)
    /\ writable b1 /\ HEAD b1 = HEAD b + Z.of_nat (length msgs)
    /\ TAIL b1 = 0 /\ DROP_COUNT b1 = DROP_COUNT b
    /\ NUM_SLOTS b1 = NUM_SLOTS b /\ SLOT_SIZE b1 = SLOT_SIZE b.
Proof.
  induction msgs as [|p msgs IH]; intros b Hfuel Hw Ht Hroom Hlegal.
  - exists b. cbn. rewrite Z.add_0_r. auto 10.
  - apply Forall_cons in Hlegal as [[Hp Hp32] Hlegal].
    cbn [length] in Hroom. destruct fuel as [|fuel]; [lia|].
    pose proof Hw as [Hg Hh].
    assert (Hfree : ring_full b = false).
    { unfold ring_full. rewrite Ht, Z.mod_small by lia. apply Z.eqb_neq. lia. }
    assert (Hwm : write_message (S fuel) env p block timeout false b
                  = (Ret true, commit b p)).
    { rewrite write_message_cases by assumption.
      rewrite wait_free by (assumption || lia).
      destruct (Z.ltb_spec (Py.len p) (2 ^ 32)); [reflexivity|lia]. }
    destruct (commit_spec b p Hw Hp Hp32) as (_ & _ & H' & _).
    destruct (commit_writable b p Hw Hp Hp32) as (Hw' & HN & HS & Ht' & Hd).
    rewrite Z.mod_small in H' by lia.
    destruct (IH (commit b p)) as (b1 & Hall & Hw1 & Hh1 & Ht1 & Hd1 & HN1 & HS1).
    + lia.
    + exact Hw'.
    + now rewrite Ht'.
    + rewrite H', HN. lia.
    + now rewrite HS.
    + exists b1. cbn [write_all length repeat].
      unfold bind at 1. rewrite Hwm. unfold bind at 1. rewrite Hall.
      unfold ret. split; [reflexivity|]. split; [exact Hw1|].
      split; [rewrite Hh1, H'; lia|]. split; [exact Ht1|].
      split; [congruence|]. split; congruence.
Qed.

End Capacity.

(** C2: starting from a freshly initialised ring of [N] slots, the first
    [N - 1] non-overwriting writes (of payloads that fit a slot) all
    return [True]; the [N]-th, with [block = False], returns [False],
    increments DROP_COUNT by exactly 1 and leaves HEAD unchanged. *)
Theorem C2_sentinel_capacity :
  forall fuel env N S buf b0 msgs block timeout p timeout',
    (1 <= fuel)%nat ->
    _init_header N S buf = (Ret tt, b0) ->
    segment_size N S <= Py.len buf ->
    1 <= N ->
    Z.of_nat (length msgs) = N - 1 ->
    Forall (fun m => Py.len m <= S - 4 /\ Py.len m < 2 ^ 32) msgs ->
    Py.len p <= S - 4 ->
    exists b1 b2,
      write_all fuel env msgs block timeout false b0
        = (Ret (repeat true (length msgs)), b1)
      /\ write_message fuel env p false timeout' false b1 = (Ret false, b2)
      /\ DROP_COUNT b2 = DROP_COUNT b1 + 1
      /\ HEAD b2 = HEAD b1.
Proof.
  intros fuel env N S buf b0 msgs block timeout p timeout'
    Hfuel Hinit Hsz HN Hlen Hlegal Hp.
  pose proof (len_nonneg p) as Hp0.
  pose proof (init_header_valid _ _ _ _ Hinit Hsz ltac:(lia) ltac:(lia)) as Hv.
  apply init_header_spec in Hinit
    as (_ & _ & _ & _ & Hh & Ht & _ & Hd & HN' & HS').
  destruct (write_all_fill fuel env block timeout msgs b0)
    as (b1 & Hall & Hw1 & Hh1 & Ht1 & Hd1 & HN1 & HS1).
  - exact Hfuel.
  - now apply valid_writable.
  - exact Ht.
  - rewrite Hh, HN'. lia.
  - now rewrite HS'.
  - exists b1.
    exists (Py.store b1 IDX_DROP_COUNT (Py.int64 ((DROP_COUNT b1 + 1) mod 2 ^ 64))).
    pose proof (header_fits b1 (proj1 Hw1)) as Hhdr.
    assert (Hfull : ring_full b1 = true).
    { unfold ring_full. rewrite Hh1, Ht1, HN1, Hh, HN'.
      replace (0 + Z.of_nat (length msgs) + 1) with N by lia.
      rewrite Z.mod_same by lia. reflexivity. }
    split; [exact Hall|]. split; [|split].
    + rewrite write_message_cases; [|exact Hw1|rewrite HS1, HS'; exact Hp].
      destruct fuel as [|fuel]; [lia|].
      rewrite wait_drop; [reflexivity|rewrite HN1, HN'; lia|exact Hfull].
    + unfold DROP_COUNT at 1.
      rewrite cell_store_hdr_same; [|cbv; lia|exact Hhdr|].
      * rewrite Hd1, Hd. reflexivity.
      * rewrite Hd1, Hd. reflexivity.
    + unfold HEAD at 1. apply cell_store_hdr_other; [discriminate|cbv; lia|exact Hhdr].
Qed.

(** C2 at the ring of the repository's own test: 8 slots of 128 bytes,
    seven one-byte writes, then an eighth with [block = False]. *)
Lemma C2_sentinel_capacity_witness :
  let buf := zeros (segment_size 8 128) in
  let b0 := fresh_ring 8 128 in
  let msgs := repeat [Byte.x66] 7 in
  (1 <= 1)%nat
  /\ _init_header 8 128 buf = (Ret tt, b0)
  /\ segment_size 8 128 <= Py.len buf
  /\ 1 <= 8
  /\ Z.of_nat (length msgs) = 8 - 1
  /\ Forall (fun m => Py.len m <= 128 - 4 /\ Py.len m < 2 ^ 32) msgs
  /\ Py.len [Byte.x6f] <= 128 - 4
  /\ exists b1 b2,
      write_all 1 quiet msgs false None false b0
        = (Ret (repeat true (length msgs)), b1)
      /\ write_message 1 quiet [Byte.x6f] false None false b1 = (Ret false, b2)
      /\ DROP_COUNT b2 = DROP_COUNT b1 + 1
      /\ HEAD b2 = HEAD b1.
Proof.
  intros buf b0 msgs.
  assert (H1 : (1 <= 1)%nat) by lia.
  assert (H2 : _init_header 8 128 buf = (Ret tt, b0)) by (vm_compute; reflexivity).
  assert (H3 : segment_size 8 128 <= Py.len buf) by (vm_compute; congruence).
  assert (H4 : 1 <= 8) by lia.
  assert (H5 : Z.of_nat (length msgs) = 8 - 1) by reflexivity.
  assert (H6 : Forall (fun m => Py.len m <= 128 - 4 /\ Py.len m < 2 ^ 32) msgs)
    by (repeat constructor; vm_compute; congruence).
  assert (H7 : Py.len [Byte.x6f] <= 128 - 4) by (vm_compute; congruence).
  refine (conj H1 (conj H2 (conj H3 (conj H4 (conj H5 (conj H6 (conj H7 _))))))).
  exact (C2_sentinel_capacity 1 quiet 8 128 buf b0 msgs false None [Byte.x6f] None
           H1 H2 H3 H4 H5 H6 H7).
Defined.

(** ** C3: an overwriting burst *)

Section Burst.

Implicit Types (b p q : bytes).

Lemma write_all_app fuel env block timeout overwrite : forall l1 l2 b r1 b1 r2 b2,
  write_all fuel env l1 block timeout overwrite b = (Ret r1, b1) ->
  write_all fuel env l2 block timeout overwrite b1 = (Ret r2, b2) ->
  write_all fuel env (l1 ++ l2) block timeout overwrite b = (Ret (r1 ++ r2), b2).
Proof.
  induction l1 as [|p l1 IH]; intros l2 b r1 b1 r2 b2 H1 H2.
  - cbn in H1. injection H1 as <- <-. exact H2.
  - cbn [write_all app] in *. unfold bind at 1 in H1. unfold bind at 1.
    destruct (write_message fuel env p block timeout overwrite b)
      as [[ok|e|] b'] eqn:Hw; try discriminate.
    unfold bind at 1 in H1. unfold bind at 1.
    destruct (write_all fuel env l1 block timeout overwrite b')
      as [[oks|e|] b''] eqn:Hall; try discriminate.
    unfold ret in H1. injection H1 as <- <-.
    rewrite (IH l2 b' oks b'' r2 b2 Hall H2). reflexivity.
Qed.

Lemma mod_shift_neq a d N :
  0 < d < N -> (a + d) mod N <> a mod N.
Proof.
  intros Hd E.
  assert (H0 : d mod N = 0).
  { replace d with ((a + d) - a) by lia.
    rewrite Zminus_mod, E, Z.sub_diag. apply Z.mod_0_l. lia. }
  rewrite Z.mod_small in H0 by lia. lia.
Qed.

(** After an overwriting burst from HEAD = [h], HEAD has advanced by the
    number of messages (mod N) and each of the last [N] messages sits in
    the slot it was written to. *)
Lemma write_all_overwrite fuel env block timeout : forall msgs b,
  writable b ->
  Forall (fun m => Py.len m <= SLOT_SIZE b - 4 /\ Py.len m < 2 ^ 32) msgs ->
  exists b1,
    write_all fuel env msgs block timeout true b
      = (Ret (repeat true (length msgs)), b1)
    /\ writable b1
    /\ NUM_SLOTS b1 = NUM_SLOTS b /\ SLOT_SIZE b1 = SLOT_SIZE b
    /\ HEAD b1 = (HEAD b + Z.of_nat (length msgs)) mod NUM_SLOTS b
    /\ (forall (i : nat) q,
          msgs !! i = Some q ->
          Z.of_nat (length msgs) - Z.of_nat i <= NUM_SLOTS b ->
          holds b1 (SLOT_SIZE b) ((HEAD b + Z.of_nat i) mod NUM_SLOTS b) q).
Proof.
  induction msgs as [|p msgs IH] using rev_ind; intros b Hw Hlegal.
  - exists b. cbn [write_all length repeat].
    rewrite Z.add_0_r, Z.mod_small by (destruct Hw; lia).
    split; [reflexivity|]. split; [exact Hw|]. do 3 (split; [reflexivity|]).
    intros i q Hi. discriminate.
  - apply Forall_app in Hlegal as [Hlegal Hp].
    apply Forall_cons in Hp as [[Hp Hp32] _].
    destruct (IH b Hw Hlegal) as (b1 & Hall & Hw1 & HN1 & HS1 & Hh1 & Hslots).
    assert (HN : 0 < NUM_SLOTS b) by (destruct Hw as [Hg _];
      apply sound_geometry_spec in Hg; lia).
    rewrite <- HS1 in Hp.
    destruct (commit_spec b1 p Hw1 Hp Hp32) as (_ & _ & H' & _ & Hnew & Hold).
    destruct (commit_writable b1 p Hw1 Hp Hp32) as (Hw2 & HN2 & HS2 & _ & _).
    exists (commit b1 p). rewrite length_app. cbn [length].
    split; [|split; [exact Hw2|split; [congruence|split; [congruence|split]]]].
    + replace (length msgs + 1)%nat with (length msgs + 1)%nat by reflexivity.
      rewrite repeat_app. cbn [repeat].
      eapply write_all_app; [exact Hall|].
      cbn [write_all]. unfold bind at 1.
      rewrite write_message_cases by assumption. cbn iota.
      destruct (Z.ltb_spec (Py.len p) (2 ^ 32)); [|lia].
      reflexivity.
    + rewrite H', Hh1, HN1, Z.add_mod_idemp_l by lia. f_equal. lia.
    + intros i q Hi Hlast. rewrite <- HS1.
      destruct (Nat.lt_ge_cases i (length msgs)) as [Hlt|Hge].
      * rewrite lookup_app_l in Hi by assumption.
        apply Hold.
        -- rewrite Hh1.
           replace (HEAD b + Z.of_nat (length msgs))
             with ((HEAD b + Z.of_nat i) + (Z.of_nat (length msgs) - Z.of_nat i)) by lia.
           intros E. symmetry in E. revert E. apply mod_shift_neq. lia.
        -- rewrite HS1. rewrite Forall_forall in Hlegal.
           apply (Hlegal q). eapply list_elem_of_lookup_2. exact Hi.
        -- rewrite HS1. apply Hslots; [exact Hi|lia].
      * rewrite lookup_app_r in Hi by assumption.
        destruct (i - length msgs)%nat as [|k] eqn:Hk; [|destruct k; discriminate].
        cbn in Hi. injection Hi as <-.
        replace i with (length msgs) by lia. rewrite <- Hh1. exact Hnew.
Qed.

(** A private cursor [c] behind HEAD reads the messages of the slots
    [c .. HEAD - 1] in order, then finds the ring empty. *)
Lemma read_all_holds : forall (qs : list bytes) n c b,
  HEADER_SIZE <= Py.len b -> 0 <= c ->
  c + Z.of_nat (length qs) = HEAD b -> HEAD b < NUM_SLOTS b ->
  (forall (i : nat) q, qs !! i = Some q ->
     holds b (SLOT_SIZE b) (c + Z.of_nat i) q) ->
  (length qs <= n)%nat ->
  read_all n c b = qs.
Proof.
  induction qs as [|q qs IH]; intros n c b Hlen Hc Hhead HN Hslots Hn.
  - cbn in Hhead. rewrite Z.add_0_r in Hhead. subst c.
    destruct n; [reflexivity|]. cbn [read_all].
    now rewrite read_spsc_empty.
  - cbn [length] in *. destruct n as [|n]; [lia|]. cbn [read_all].
    rewrite (read_spsc_holds b c q); [|exact Hlen|lia|lia|].
    + rewrite Z.mod_small by lia. f_equal.
      apply IH; try assumption; try lia.
      intros i q' Hi. replace (c + 1 + Z.of_nat i) with (c + Z.of_nat (S i)) by lia.
      apply Hslots. exact Hi.
    + replace c with (c + Z.of_nat 0) by lia. apply Hslots. reflexivity.
Qed.

End Burst.

(** C3, as stated, fails: after exactly [2 * N] overwriting writes HEAD has
    gone around the ring twice and is 0 again, equal to the consumer's
    cursor, so [read_message_spsc] finds the ring empty and the consumer
    observes no message at all.  Here N = 4 and the messages are the
    bytes 1 to 8. *)
Lemma C3_burst_of_2N_counterexample :
  let msgs := map (fun c => [c])
                [Byte.x01; Byte.x02; Byte.x03; Byte.x04;
                 Byte.x05; Byte.x06; Byte.x07; Byte.x08] in
  let r := write_all 1 quiet msgs false None true (fresh_ring 4 8) in
  fst r = Ret (repeat true 8)
  /\ HEAD (snd r) = 0
  /\ fst (read_message_spsc 0 (snd r)) = Ret None
  /\ read_all 8 0 (snd r) = []
  /\ read_all 8 0 (snd r) <> [[Byte.x06]; [Byte.x07]; [Byte.x08]].
Proof. vm_compute. repeat split; congruence. Qed.

(** C3 (amended): on a fresh ring of [N] slots, writing [2 * N] messages
    with [overwrite = True] brings HEAD back to 0, so a consumer whose
    private cursor is 0 finds the ring empty; it is after [2 * N - 1]
    messages that such a consumer observes exactly the final [N - 1]
    messages, in order, on its subsequent [read_message_spsc] calls. *)
Theorem C3_overwrite_burst :
  forall fuel env N S buf b0 msgs block timeout,
    _init_header N S buf = (Ret tt, b0) ->
    segment_size N S <= Py.len buf ->
    1 <= N ->
    Forall (fun m => Py.len m <= S - 4 /\ Py.len m < 2 ^ 32) msgs ->
    (Z.of_nat (length msgs) = 2 * N ->
       exists b1,
         write_all fuel env msgs block timeout true b0
           = (Ret (repeat true (length msgs)), b1)
         /\ read_message_spsc 0 b1 = (Ret None, b1)
         /\ forall n, read_all n 0 b1 = [])
    /\ (Z.of_nat (length msgs) = 2 * N - 1 ->
       exists b1,
         write_all fuel env msgs block timeout true b0
           = (Ret (repeat true (length msgs)), b1)
         /\ forall n, (Z.to_nat (N - 1) <= n)%nat ->
              read_all n 0 b1 = drop (Z.to_nat N) msgs).
Proof.
  intros fuel env N S buf b0 msgs block timeout Hinit Hsz HN Hlegal.
  assert (Hcommon : msgs <> [] ->
    exists b1,
      write_all fuel env msgs block timeout true b0
        = (Ret (repeat true (length msgs)), b1)
      /\ HEADER_SIZE <= Py.len b1 /\ NUM_SLOTS b1 = N /\ SLOT_SIZE b1 = S
      /\ HEAD b1 = Z.of_nat (length msgs) mod N
      /\ (forall (i : nat) q,
            msgs !! i = Some q -> Z.of_nat (length msgs) - Z.of_nat i <= N ->
            holds b1 S (Z.of_nat i mod N) q)).
  { intros Hne.
    assert (HS : 0 <= S).
    { destruct msgs as [|m ?]; [congruence|].
      apply Forall_cons in Hlegal as [[Hm _] _]. pose proof (len_nonneg m). lia. }
    pose proof (init_header_valid _ _ _ _ Hinit Hsz ltac:(lia) HS) as Hv.
    apply init_header_spec in Hinit
      as (_ & _ & _ & _ & Hh & _ & _ & _ & HN' & HS').
    destruct (write_all_overwrite fuel env block timeout msgs b0)
      as (b1 & Hall & Hw1 & HN1 & HS1 & Hh1 & Hslots).
    - now apply valid_writable.
    - now rewrite HS'.
    - exists b1. rewrite Hh, HN', HS' in *. cbn [Z.add] in *.
      split; [exact Hall|]. split; [apply header_fits, Hw1|].
      split; [exact HN1|]. split; [exact HS1|]. split; [exact Hh1|].
      exact Hslots. }
  split; intros Hlen.
  - destruct Hcommon as (b1 & Hall & Hhdr & HN1 & HS1 & Hh1 & _).
    { destruct msgs; [cbn in Hlen; lia|congruence]. }
    exists b1. split; [exact Hall|].
    assert (Hh0 : HEAD b1 = 0).
    { rewrite Hh1, Hlen, Z.mod_mul by lia. reflexivity. }
    rewrite <- Hh0. split; [now apply read_spsc_empty|].
    intros [|n]; [reflexivity|]. cbn [read_all].
    now rewrite read_spsc_empty.
  - destruct Hcommon as (b1 & Hall & Hhdr & HN1 & HS1 & Hh1 & Hslots).
    { destruct msgs; [cbn in Hlen; lia|congruence]. }
    exists b1. split; [exact Hall|]. intros n Hn.
    assert (Hh0 : HEAD b1 = N - 1).
    { rewrite Hh1, Hlen. replace (2 * N - 1) with (N - 1 + 1 * N) by lia.
      rewrite Z.mod_add, Z.mod_small by lia. reflexivity. }
    apply read_all_holds.
    + exact Hhdr.
    + lia.
    + rewrite length_drop, Hh0. lia.
    + rewrite Hh0, HN1. lia.
    + intros i q Hi. rewrite lookup_drop in Hi. rewrite HS1.
      assert (Hi' : (Z.to_nat N + i < length msgs)%nat)
        by (apply lookup_lt_is_Some; eauto).
      replace (0 + Z.of_nat i) with (Z.of_nat (Z.to_nat N + i) mod N).
      * apply Hslots; [exact Hi|lia].
      * replace (Z.of_nat (Z.to_nat N + i)) with (Z.of_nat i + 1 * N) by lia.
        rewrite Z.mod_add, Z.mod_small by lia. lia.
    + rewrite length_drop. lia.
Qed.

(** The amended C3 on a ring of 4 slots: after 7 messages the consumer
    reads the last 3, after 8 it reads nothing. *)
Lemma C3_overwrite_burst_witness :
  let buf := zeros (segment_size 4 8) in
  let b0 := fresh_ring 4 8 in
  let msgs := map (fun c => [c])
                [Byte.x01; Byte.x02; Byte.x03; Byte.x04;
                 Byte.x05; Byte.x06; Byte.x07] in
  _init_header 4 8 buf = (Ret tt, b0)
  /\ segment_size 4 8 <= Py.len buf
  /\ 1 <= 4
  /\ Forall (fun m => Py.len m <= 8 - 4 /\ Py.len m < 2 ^ 32) msgs
  /\ Z.of_nat (length msgs) = 2 * 4 - 1
  /\ exists b1,
       write_all 1 quiet msgs false None true b0
         = (Ret (repeat true (length msgs)), b1)
       /\ forall n, (Z.to_nat (4 - 1) <= n)%nat ->
            read_all n 0 b1 = [[Byte.x05]; [Byte.x06]; [Byte.x07]].
Proof.
  intros buf b0 msgs.
  assert (H1 : _init_header 4 8 buf = (Ret tt, b0)) by (vm_compute; reflexivity).
  assert (H2 : segment_size 4 8 <= Py.len buf) by (vm_compute; congruence).
  assert (H3 : 1 <= 4) by lia.
  assert (H4 : Forall (fun m => Py.len m <= 8 - 4 /\ Py.len m < 2 ^ 32) msgs)
    by (repeat constructor; vm_compute; congruence).
  assert (H5 : Z.of_nat (length msgs) = 2 * 4 - 1) by reflexivity.
  refine (conj H1 (conj H2 (conj H3 (conj H4 (conj H5 _))))).
  exact (proj2 (C3_overwrite_burst 1 quiet 4 8 buf b0 msgs false None
                  H1 H2 H3 H4) H5).
Defined.

(** ** C4: where a private cursor starts *)

(** The sibling path: a Subscriber that attaches initialises its private
    cursor to the HEAD of the segment it attached to, so that messages
    written before are skipped. *)
Lemma subscriber_cursor_at_head :
  forall fuel env channel timeout_connect serialization sub tr,
    Subscriber.init fuel env channel timeout_connect serialization = (Ret sub, tr) ->
    exists shm,
      Subscriber._shm sub = Some shm
      /\ name shm = pub_segment_name channel
      /\ Subscriber._tail sub = HEAD (buf shm)
      /\ fst (read_message_spsc (Subscriber._tail sub) (buf shm)) = Ret None.
Proof.
  intros fuel env nm tc ser sub tr. unfold Subscriber.init.
    destruct (attach_segment fuel env (pub_segment_name nm) (Some tc) None)
      as [[shm|e|] tr'] eqn:Hatt; try discriminate.
    unfold bind, get_header, _make_header_array, Py.getitem.
    destruct (Z.ltb_spec (Py.len (buf shm)) HEADER_SIZE) as [|Hlen]; [discriminate|].
    intros [= <- <-]. exists shm. cbn.
    split; [reflexivity|]. split.
    + (* the handle carries the name it was opened with *)
      revert Hatt. unfold attach_segment.
      generalize (monotonic env 0 + from_option id attach_segment_timeout (Some tc)).
      generalize (from_option id attach_segment_poll_interval None).
      generalize 0%nat. revert tr'.
      induction fuel as [|fuel IH]; intros tr' k poll d; cbn [attach_poll];
        [discriminate|].
      destruct (monotonic env (S k) <? d); [|discriminate].
      destruct (attach_poll fuel env (S k) (pub_segment_name nm) d poll)
        as [r t] eqn:Hrec.
      assert (Hretry : (if poll <? 0
                        then (Raise (Exn ValueError "sleep length must be non-negative"),
                              [EvOpen (pub_segment_name nm)])
                        else (r, EvOpen (pub_segment_name nm) :: EvSleep poll :: t))
                         = (Ret shm, tr') -> name shm = pub_segment_name nm).
      { destruct (poll <? 0); [discriminate|].
        intros [= -> <-]. eapply IH. exact Hrec. }
      unfold try_attach.
      destruct (shm_open env k (pub_segment_name nm)) as [i b| |e].
      * destruct (fst (_validate_header b)) as [[]|e|].
        -- intros [= <- _]. reflexivity.
        -- destruct (isinstance e FileNotFoundError); [exact Hretry|].
           destruct (isinstance e SHMConnectionError); [discriminate|exact Hretry].
        -- discriminate.
      * exact Hretry.
      * destruct (isinstance e FileNotFoundError); [exact Hretry|].
        destruct (isinstance e SHMConnectionError); [discriminate|exact Hretry].
    + split; [reflexivity|].
      fold (HEAD (buf shm)). now rewrite read_spsc_empty.
Qed.

(** C4: the code breaks the claim for the Requester.
    [Requester.__init__] sets the reply-channel cursor to the literal 0
    instead of reading HEAD as [Subscriber.__init__] does.  A Requester
    that attaches to the running service ["svc"], whose reply segment
    already holds three replies (HEAD = 3), starts at 0, so that its
    first read returns the oldest reply in the segment, the reply to an
    earlier request, instead of skipping it; a Subscriber attached to
    the same memory starts at 3 and finds nothing to read. *)
Theorem C4_requester_cursor_ignores_head :
  (exists req rep_shm,
     fst (Requester.init 1 service service "svc" 1000 "pickle") = Ret req
     /\ Requester._rep_shm req = Some rep_shm
     /\ buf rep_shm = backlog
     /\ HEAD (buf rep_shm) = 3
     /\ Requester._rep_tail req = 0
     /\ Requester._rep_tail req <> HEAD (buf rep_shm)
     /\ fst (read_message_spsc (Requester._rep_tail req) (buf rep_shm))
        = Ret (Some ([Byte.x01], 1)))
  /\ (exists sub shm,
     fst (Subscriber.init 1 service "svc" 1000 "pickle") = Ret sub
     /\ Subscriber._shm sub = Some shm
     /\ buf shm = backlog
     /\ Subscriber._tail sub = 3
     /\ fst (read_message_spsc (Subscriber._tail sub) (buf shm)) = Ret None).
Proof.
  split.
  - destruct (Requester.init 1 service service "svc" 1000 "pickle")
      as [r tr] eqn:Hinit.
    vm_compute in Hinit. injection Hinit as <- _.
    eexists. eexists. split; [reflexivity|]. split; [reflexivity|].
    split; [vm_compute; reflexivity|].
    vm_compute. repeat split; congruence.
  - destruct (Subscriber.init 1 service "svc" 1000 "pickle") as [r tr] eqn:Hinit.
    vm_compute in Hinit. injection Hinit as <- _.
    eexists. eexists. split; [reflexivity|]. split; [reflexivity|].
    split; [vm_compute; reflexivity|].
    vm_compute. repeat split; congruence.
Qed.

(** ** C5: argument errors *)


(** C5, as stated, fails: the write of a payload longer than
    [SLOT_SIZE - 4] raises the built-in [ValueError], which is outside the
    [SHMError] hierarchy (the package defines no argument-error class),
    and an unrecognised serialization method raises nothing at all when
    the input is bytes. *)
Lemma C5_argument_error_counterexample :
  let b := fresh_ring 4 8 in
  let p := [Byte.x01; Byte.x02; Byte.x03; Byte.x04; Byte.x05] in
  SLOT_SIZE b - 4 < Py.len p
  /\ (exists e,
        write_message 1 quiet p false None false b = (Raise e, b)
        /\ exn_class e = ValueError
        /\ isinstance e SHMError = false)
  /\ Serialize.serialize toy_codec (Serialize.PyBytes p) "yaml" = Ret p.
Proof.
  split; [vm_compute; reflexivity|]. split; [|reflexivity].
  eexists. split; [vm_compute; reflexivity|]. split; reflexivity.
Qed.

(** C5 (amended): a write whose payload length exceeds [SLOT_SIZE - 4]
    raises [ValueError], which is not an [SHMError], and leaves the
    segment as it was; serializing an object that is not bytes-like with
    a method other than ["pickle"] and ["msgpack"] raises
    [SHMSerializationError], which is an [SHMError], and a [send] that
    fails so leaves the segment as it was. *)
Theorem C5_argument_errors :
  (forall fuel env b p block timeout overwrite,
     HEADER_SIZE <= Py.len b ->
     SLOT_SIZE b - 4 < Py.len p ->
     exists e,
       write_message fuel env p block timeout overwrite b = (Raise e, b)
       /\ exn_class e = ValueError
       /\ isinstance e SHMError = false)
  /\ (forall Obj (codec : Serialize.Codec Obj) (o : Obj) method,
     method <> "pickle"%string -> method <> "msgpack"%string ->
     exists e,
       Serialize.serialize codec (Serialize.PyObject o) method = Raise e
       /\ exn_class e = SHMSerializationError
       /\ isinstance e SHMError = true
       /\ forall fuel env self block timeout b,
            Publisher._serialization self = method ->
            Publisher.send codec fuel env self (Serialize.PyObject o) block timeout b
            = (Raise e, b)).
Proof.
  split.
  - intros fuel env b p block timeout overwrite Hlen Hbig.
    eexists. unfold write_message.
    unfold bind at 1. unfold get_header, _make_header_array.
    destruct (Z.ltb_spec (Py.len b) HEADER_SIZE); [lia|].
    unfold bind at 1. unfold Py.getitem at 1.
    unfold bind at 1. unfold Py.getitem at 1.
    fold (SLOT_SIZE b). unfold SLOT_PREFIX_SIZE.
    destruct (Z.ltb_spec (SLOT_SIZE b - 4) (Py.len p)); [|lia].
    split; [reflexivity|]. split; reflexivity.
  - intros Obj codec o method Hp Hm.
    apply String.eqb_neq in Hp. apply String.eqb_neq in Hm.
    eexists. split; [|split; [|split]].
    + cbn [Serialize.serialize]. rewrite Hp, Hm. reflexivity.
    + reflexivity.
    + reflexivity.
    + intros fuel env self block timeout b Hser.
      unfold Publisher.send, bind, lift. rewrite Hser.
      cbn [Serialize.serialize]. rewrite Hp, Hm. reflexivity.
Qed.

(** The amended C5 on a ring with slots of 8 bytes and a payload of 5,
    and for the method ["yaml"]. *)
Lemma C5_argument_errors_witness :
  (exists e,
     write_message 1 quiet
       [Byte.x01; Byte.x02; Byte.x03; Byte.x04; Byte.x05] false None false
       (fresh_ring 4 8)
     = (Raise e, fresh_ring 4 8)
     /\ exn_class e = ValueError /\ isinstance e SHMError = false)
  /\ (exists e,
     Serialize.serialize toy_codec (Serialize.PyObject 7%nat) "yaml" = Raise e
     /\ exn_class e = SHMSerializationError /\ isinstance e SHMError = true).
Proof.
  split.
  - apply (proj1 C5_argument_errors 1%nat quiet (fresh_ring 4 8)
             [Byte.x01; Byte.x02; Byte.x03; Byte.x04; Byte.x05] false None false).
    + vm_compute. congruence.
    + vm_compute. reflexivity.
  - destruct (proj2 C5_argument_errors nat toy_codec 7%nat "yaml"%string)
      as (e & He & Hc & Hi & _).
    + discriminate.
    + discriminate.
    + exists e. auto.
Defined.

(** ** C6: the blocking write on a full ring *)

Section Blocking.

Implicit Types (b p : bytes).

Lemma observed_frame env k b :
  HEADER_SIZE <= Py.len b ->
  same_outside [IDX_TAIL; IDX_DROP_COUNT] b (observed env k b).
Proof.
  intros Hlen. induction k as [|k IH]; cbn [observed].
  - apply same_outside_refl.
  - eapply same_outside_trans; [exact IH|].
    apply sleep_frame. now rewrite (same_outside_len _ _ _ IH).
Qed.

Lemma observed_num_slots env k b :
  HEADER_SIZE <= Py.len b -> NUM_SLOTS (observed env k b) = NUM_SLOTS b.
Proof.
  intros Hlen.
  apply (same_outside_cell _ _ _ _ (observed_frame env k b Hlen)).
  cbv; intuition discriminate.
Qed.

(** As long as the producer finds the ring full and the deadline ahead,
    it sleeps and looks again. *)
Lemma wait_blocked env deadline b : forall n k fuel,
  HEADER_SIZE <= Py.len b -> NUM_SLOTS b <> 0 ->
  (forall j, (j < n)%nat -> ring_full (observed env (k + j) b) = true) ->
  (forall j, (j < n)%nat ->
     match deadline with
     | Some d => monotonic env (S (k + j)) < d
     | None => True
     end) ->
  wait_for_slot (n + fuel) env k deadline true (NUM_SLOTS b) (observed env k b)
  = wait_for_slot fuel env (k + n) deadline true (NUM_SLOTS b)
      (observed env (k + n) b).
Proof.
  induction n as [|n IH]; intros k fuel Hlen HN Hfull Hdl.
  - now rewrite !Nat.add_0_r.
  - cbn [Nat.add].
    rewrite <- (observed_num_slots env k b Hlen) at 1.
    rewrite wait_sleep.
    + rewrite (observed_num_slots env k b Hlen).
      change (snd (sleep env k (observed env k b))) with (observed env (S k) b).
      rewrite IH; try assumption.
      * now replace (S k + n)%nat with (k + S n)%nat by lia.
      * intros j Hj. replace (S k + j)%nat with (k + S j)%nat by lia.
        apply Hfull. lia.
      * intros j Hj. replace (S k + j)%nat with (k + S j)%nat by lia.
        apply Hdl. lia.
    + now rewrite observed_num_slots.
    + rewrite <- (Nat.add_0_r k). apply Hfull. lia.
    + specialize (Hdl 0%nat ltac:(lia)). now rewrite Nat.add_0_r in Hdl.
Qed.

End Blocking.

(** C6: a write with [overwrite = False] and [block = True] that finds
    the ring full at every look fails with [SHMBufferFullError] (which is
    not an [SHMTimeoutError]) at the first look at which the deadline
    [now + timeout] has passed; and it returns [True], having committed
    the message, at the first look at which a slot is free, provided the
    deadline had not passed at an earlier look. *)
Theorem C6_blocking_write_on_full_ring :
  forall fuel env b p (k : nat),
    valid_segment b = true ->
    Py.len p <= SLOT_SIZE b - 4 ->
    (k < fuel)%nat ->
    (forall timeout,
       (forall j, (j <= k)%nat -> ring_full (observed env j b) = true) ->
       (forall j, (j < k)%nat ->
          monotonic env (S j) < monotonic env 0 + timeout) ->
       monotonic env 0 + timeout <= monotonic env (S k) ->
       exists e,
         write_message fuel env p true (Some timeout) false b
           = (Raise e, observed env k b)
         /\ exn_class e = SHMBufferFullError
         /\ isinstance e SHMTimeoutError = false)
    /\ (forall timeout,
       (forall j, (j < k)%nat -> ring_full (observed env j b) = true) ->
       ring_full (observed env k b) = false ->
       (forall j, (j < k)%nat ->
          match timeout with
          | Some t => monotonic env (S j) < monotonic env 0 + t
          | None => True
          end) ->
       Py.len p < 2 ^ 32 ->
       write_message fuel env p true timeout false b
         = (Ret true, commit (observed env k b) p)).
Proof.
  intros fuel env b p k Hv Hp Hk.
  pose proof (valid_writable b Hv) as Hw.
  pose proof (header_fits b (proj1 Hw)) as Hhdr.
  assert (HN : NUM_SLOTS b <> 0)
    by (destruct Hw as [Hg _]; apply sound_geometry_spec in Hg; lia).
  destruct fuel as [|fuel]; [lia|].
  replace (S fuel) with (k + S (fuel - k))%nat by lia.
  split.
  - intros timeout Hfull Hdl Hpast.
    eexists. rewrite write_message_cases by assumption. cbn [option_map].
    change b with (observed env 0 b) at 2.
    rewrite wait_blocked; [|exact Hhdr|exact HN| |].
    + cbn [Nat.add].
      rewrite <- (observed_num_slots env k b Hhdr).
      rewrite wait_deadline.
      * split; [reflexivity|]. split; reflexivity.
      * now rewrite observed_num_slots.
      * apply Hfull. lia.
      * exact Hpast.
    + intros j Hj. apply Hfull. cbn. lia.
    + intros j Hj. cbn [Nat.add]. apply Hdl. exact Hj.
  - intros timeout Hfull Hfree Hdl Hp32.
    rewrite write_message_cases by assumption.
    change b with (observed env 0 b) at 2.
    rewrite wait_blocked; [|exact Hhdr|exact HN| |].
    + cbn [Nat.add].
      rewrite <- (observed_num_slots env k b Hhdr).
      rewrite wait_free.
      * destruct (Z.ltb_spec (Py.len p) (2 ^ 32)); [reflexivity|lia].
      * now rewrite observed_num_slots.
      * exact Hfree.
    + intros j Hj. apply Hfull. exact Hj.
    + intros j Hj. cbn [Nat.add]. specialize (Hdl j Hj).
      destruct timeout; exact Hdl.
Qed.

(** C6 on a full ring of two slots, with a clock that advances 50
    microseconds per reading and a timeout of 100: without a consumer the
    second look raises; with a consumer that frees a slot during the
    first sleep the second look succeeds. *)
Lemma C6_blocking_write_on_full_ring_witness :
  valid_segment full_ring = true
  /\ Py.len [Byte.x62] <= SLOT_SIZE full_ring - 4
  /\ (exists e,
        write_message 2 ticking [Byte.x62] true (Some 100) false full_ring
          = (Raise e, observed ticking 1 full_ring)
        /\ exn_class e = SHMBufferFullError
        /\ isinstance e SHMTimeoutError = false)
  /\ write_message 2 draining [Byte.x62] true (Some 100) false full_ring
     = (Ret true, commit (observed draining 1 full_ring) [Byte.x62]).
Proof.
  assert (Hv : valid_segment full_ring = true) by (vm_compute; reflexivity).
  assert (Hp : Py.len [Byte.x62] <= SLOT_SIZE full_ring - 4)
    by (vm_compute; congruence).
  assert (Hk : (1 < 2)%nat) by lia.
  refine (conj Hv (conj Hp (conj _ _))).
  - apply (proj1 (C6_blocking_write_on_full_ring 2 ticking full_ring
                    [Byte.x62] 1 Hv Hp Hk) 100).
    + intros [|[|j]] Hj; [vm_compute; reflexivity|vm_compute; reflexivity|lia].
    + intros [|j] Hj; [vm_compute; reflexivity|lia].
    + vm_compute. congruence.
  - apply (proj2 (C6_blocking_write_on_full_ring 2 draining full_ring
                    [Byte.x62] 1 Hv Hp Hk) (Some 100)).
    + intros [|j] Hj; [vm_compute; reflexivity|lia].
    + vm_compute. reflexivity.
    + intros [|j] Hj; [vm_compute; reflexivity|lia].
    + vm_compute. reflexivity.
Defined.

(** ** C7: attaching *)

Section Attach.

Lemma validate_header_ok (b : bytes) :
  HEADER_SIZE <= Py.len b ->
  Py.cell b _IDX_MAGIC = MAGIC -> Py.cell b _IDX_VERSION = VERSION ->
  _validate_header b = (Ret tt, b).
Proof.
  intros Hlen Hm Hv. unfold _validate_header, bind, _make_header_array, Py.getitem.
  destruct (Z.ltb_spec (Py.len b) HEADER_SIZE); [lia|].
  rewrite Hm, Z.eqb_refl. cbn [negb]. rewrite Hv, Z.eqb_refl. reflexivity.
Qed.

Lemma validate_header_mismatch (b : bytes) :
  HEADER_SIZE <= Py.len b ->
  Py.cell b _IDX_MAGIC <> MAGIC \/ Py.cell b _IDX_VERSION <> VERSION ->
  exists msg, _validate_header b = (Raise (Exn SHMConnectionError msg), b).
Proof.
  intros Hlen Hbad. unfold _validate_header, bind, _make_header_array, Py.getitem.
  destruct (Z.ltb_spec (Py.len b) HEADER_SIZE); [lia|].
  destruct (Z.eqb_spec (Py.cell b _IDX_MAGIC) MAGIC); cbn [negb].
  - destruct (Z.eqb_spec (Py.cell b _IDX_VERSION) VERSION); cbn [negb].
    + tauto.
    + eexists. reflexivity.
  - eexists. reflexivity.
Qed.

(** While the name is absent and the deadline ahead, the loop opens,
    sleeps and tries again. *)
Lemma attach_poll_absent env name deadline poll : forall n k fuel,
  0 <= poll ->
  (forall j, (j < n)%nat -> shm_open env (k + j) name = NotFound) ->
  (forall j, (j < n)%nat -> monotonic env (S (k + j)) < deadline) ->
  attach_poll (n + fuel) env k name deadline poll
  = (fst (attach_poll fuel env (k + n) name deadline poll),
     retries name poll n ++ snd (attach_poll fuel env (k + n) name deadline poll)).
Proof.
  induction n as [|n IH]; intros k fuel Hpoll Habs Hdl.
  - rewrite Nat.add_0_r. cbn. now destruct (attach_poll fuel env k name deadline poll).
  - cbn [Nat.add attach_poll].
    pose proof (Hdl 0%nat ltac:(lia)) as H0. rewrite Nat.add_0_r in H0.
    apply Z.ltb_lt in H0. rewrite H0.
    unfold try_attach. pose proof (Habs 0%nat ltac:(lia)) as A0.
    rewrite Nat.add_0_r in A0. rewrite A0.
    change (isinstance (Exn FileNotFoundError "No such file or directory")
              FileNotFoundError) with true. cbv iota.
    destruct (Z.ltb_spec poll 0); [lia|].
    rewrite IH.
    + replace (S k + n)%nat with (k + S n)%nat by lia. reflexivity.
    + exact Hpoll.
    + intros j Hj. replace (S k + j)%nat with (k + S j)%nat by lia. apply Habs. lia.
    + intros j Hj. replace (S k + j)%nat with (k + S j)%nat by lia. apply Hdl. lia.
Qed.

End Attach.

(** C7: [attach_segment] polls until the name exists and its header
    validates.  While the name is absent it opens and sleeps
    [poll_interval] (a length that [time.sleep] accepts, so not negative),
    again and again; when the name is still absent at
    the first loop test at or after [now + timeout] it fails with an
    [SHMConnectionError].  When the name exists but MAGIC or VERSION is
    wrong it fails with an [SHMConnectionError] at once: nothing follows
    that attempt, neither a sleep nor another attempt.  A caller that
    leaves the arguments out gets [timeout] = 5 s and [poll_interval] =
    5 ms. *)
Theorem C7_attach_semantics :
  forall fuel env name timeout poll (k : nat),
    (k < fuel)%nat ->
    0 <= poll ->
    (forall j, (j < k)%nat -> shm_open env j name = NotFound) ->
    (forall j, (j < k)%nat -> monotonic env (S j) < monotonic env 0 + timeout) ->
    (forall id b,
       monotonic env (S k) < monotonic env 0 + timeout ->
       shm_open env k name = Opened id b ->
       HEADER_SIZE <= Py.len b ->
       Py.cell b _IDX_MAGIC = MAGIC -> Py.cell b _IDX_VERSION = VERSION ->
       attach_segment fuel env name (Some timeout) (Some poll)
       = (Ret {| shm_id := id; name := name; buf := b |},
          retries name poll k ++ [EvOpen name]))
    /\ (monotonic env 0 + timeout <= monotonic env (S k) ->
        exists e,
          attach_segment fuel env name (Some timeout) (Some poll)
          = (Raise e, retries name poll k)
          /\ exn_class e = SHMConnectionError)
    /\ (forall id b,
       monotonic env (S k) < monotonic env 0 + timeout ->
       shm_open env k name = Opened id b ->
       HEADER_SIZE <= Py.len b ->
       Py.cell b _IDX_MAGIC <> MAGIC \/ Py.cell b _IDX_VERSION <> VERSION ->
       exists e,
         attach_segment fuel env name (Some timeout) (Some poll)
         = (Raise e, retries name poll k ++ [EvOpen name])
         /\ exn_class e = SHMConnectionError)
    /\ attach_segment fuel env name None None
       = attach_segment fuel env name (Some 5000000) (Some 5000).
Proof.
  intros fuel env name timeout poll k Hk Hpoll Habs Hdl.
  assert (Hloop : attach_segment fuel env name (Some timeout) (Some poll)
    = (fst (attach_poll (S (fuel - S k)) env k name (monotonic env 0 + timeout) poll),
       retries name poll k
       ++ snd (attach_poll (S (fuel - S k)) env k name (monotonic env 0 + timeout) poll))).
  { unfold attach_segment. cbn [from_option id].
    replace fuel with (k + S (fuel - S k))%nat at 1 by lia.
    rewrite attach_poll_absent; [reflexivity|exact Hpoll| |].
    - intros j Hj. now apply Habs.
    - intros j Hj. now apply Hdl. }
  split; [|split; [|split]].
  - intros id b Hnow Hopen Hlen Hm Hv. rewrite Hloop. cbn [attach_poll].
    apply Z.ltb_lt in Hnow. rewrite Hnow. unfold try_attach. rewrite Hopen.
    rewrite validate_header_ok by assumption. reflexivity.
  - intros Hpast. rewrite Hloop. cbn [attach_poll].
    apply Z.ltb_ge in Hpast. rewrite Hpast. cbn [fst snd].
    rewrite app_nil_r. eexists. split; reflexivity.
  - intros id b Hnow Hopen Hlen Hbad. rewrite Hloop. cbn [attach_poll].
    apply Z.ltb_lt in Hnow. rewrite Hnow. unfold try_attach. rewrite Hopen.
    destruct (validate_header_mismatch b Hlen Hbad) as [msg ->]. cbn [fst].
    change (isinstance (Exn SHMConnectionError msg) FileNotFoundError) with false.
    change (isinstance (Exn SHMConnectionError msg) SHMConnectionError) with true.
    cbv iota. cbn [fst snd]. eexists. split; reflexivity.
  - reflexivity.
Qed.

(** C7 at three environments whose clock advances 50 microseconds per
    reading: the name appears at the third attempt; the name never
    appears and the timeout is 100; the name is there at once but the
    memory does not start with MAGIC. *)
Lemma C7_attach_semantics_witness :
  attach_segment 3 appearing "shmcomm_pub_c1" (Some 1000) (Some 5)
    = (Ret {| shm_id := 7; name := "shmcomm_pub_c1"; buf := fresh_ring 4 8 |},
       retries "shmcomm_pub_c1" 5 2 ++ [EvOpen "shmcomm_pub_c1"])
  /\ (exists e,
        attach_segment 2 ticking "shmcomm_pub_c1" (Some 100) (Some 5)
          = (Raise e, retries "shmcomm_pub_c1" 5 1)
        /\ exn_class e = SHMConnectionError)
  /\ (exists e,
        attach_segment 1 foreign "shmcomm_pub_c1" (Some 100) (Some 5)
          = (Raise e, retries "shmcomm_pub_c1" 5 0 ++ [EvOpen "shmcomm_pub_c1"])
        /\ exn_class e = SHMConnectionError).
Proof.
  split; [|split].
  - refine (proj1 (C7_attach_semantics 3 appearing "shmcomm_pub_c1" 1000 5 2
                     _ _ _ _) 7%nat (fresh_ring 4 8) _ _ _ _ _).
    + lia.
    + lia.
    + intros [|[|j]] Hj; [reflexivity|reflexivity|lia].
    + intros [|[|j]] Hj; [vm_compute; reflexivity|vm_compute; reflexivity|lia].
    + vm_compute. reflexivity.
    + reflexivity.
    + vm_compute. congruence.
    + vm_compute. reflexivity.
    + vm_compute. reflexivity.
  - refine (proj1 (proj2 (C7_attach_semantics 2 ticking "shmcomm_pub_c1" 100 5 1
                            _ _ _ _)) _).
    + lia.
    + lia.
    + intros [|j] Hj; [reflexivity|lia].
    + intros [|j] Hj; [vm_compute; reflexivity|lia].
    + vm_compute. congruence.
  - refine (proj1 (proj2 (proj2 (C7_attach_semantics 1 foreign "shmcomm_pub_c1" 100 5 0
                                   _ _ _ _))) 7%nat (zeros 136) _ _ _ _).
    + lia.
    + lia.
    + intros j Hj. lia.
    + intros j Hj. lia.
    + vm_compute. reflexivity.
    + reflexivity.
    + vm_compute. congruence.
    + left. vm_compute. congruence.
Defined.

(** ** C8: closing twice *)

Section Close.

Lemma close_segment_spec shm destroy s :
  close_segment shm destroy s
  = (Ret tt,
     {| linked := if destroy then linked s ∖ {[name shm]} else linked s;
        mapped := mapped s ∖ {[shm_id shm]} |}).
Proof.
  unfold close_segment, try_except, bind, SharedMemory_close, SharedMemory_unlink, ret.
  destruct destroy; [|reflexivity]. cbn [linked mapped].
  destruct (decide (name shm ∈ linked s)) as [Hin|Hout]; [reflexivity|].
  do 2 f_equal. set_solver.
Qed.

Lemma close_segment_twice shm destroy s :
  close_segment shm destroy (snd (close_segment shm destroy s))
  = close_segment shm destroy s.
Proof.
  rewrite !close_segment_spec. cbn [snd linked mapped].
  f_equal. destruct destroy; f_equal; set_solver.
Qed.

End Close.

(** C8: for each of the six endpoints, [close] returns without raising,
    after it the endpoint holds no segment, the mappings of the segments
    it held are released and, if the endpoint is the owner, their names
    are unlinked; a second [close] returns without raising and changes
    neither the endpoint nor the state of the process.  The same holds
    for [close_segment] called twice on one handle. *)
Theorem C8_close_idempotent :
  (forall ep s,
     exists ep' s',
       close ep s = (Ret ep', s')
       /\ close ep' s' = (Ret ep', s')
       /\ segments ep' = []
       /\ forall shm, In shm (segments ep) ->
            (shm_id shm ∉ mapped s')
            /\ (is_owner ep = true -> name shm ∉ linked s'))
  /\ (forall shm destroy s,
     exists s',
       close_segment shm destroy s = (Ret tt, s')
       /\ close_segment shm destroy s' = (Ret tt, s')).
Proof.
  split.
  - intros ep s.
    destruct ep as [[n z sn [shm|]]|[n z sn [shm|] t]|[n z sn [shm|]]
                   |[n z sn [shm|]]|[n z [shm1|] [shm2|] t]|[n z [shm1|] [shm2|] t]];
      unfold close, Publisher.close, Subscriber.close, Pusher.close,
        Puller.close, Replier.close, Requester.close;
      cbn [Publisher._shm Subscriber._shm Pusher._shm Puller._shm
           Replier._req_shm Replier._rep_shm
           Requester._req_shm Requester._rep_shm];
      unfold bind, ret;
      repeat (first [rewrite close_segment_spec | progress cbv beta iota]);
      cbn [linked mapped];
      eexists; eexists;
      (split; [reflexivity|]); (split; [reflexivity|]); (split; [reflexivity|]);
      cbn [segments option_list app is_owner
           Publisher._shm Subscriber._shm Pusher._shm Puller._shm
           Replier._req_shm Replier._rep_shm
           Requester._req_shm Requester._rep_shm];
      intros shm' Hin; cbn [In] in Hin; cbn [linked mapped];
      intuition (try discriminate; subst; set_solver).
  - intros shm destroy s. eexists. split.
    + apply close_segment_spec.
    + rewrite close_segment_spec. cbn [linked mapped].
      f_equal. destruct destroy; f_equal; set_solver.
Qed.

(** C8 for a Publisher that owns the segment ["shmcomm_pub_c1"]: after
    [close] the mapping is released and the name unlinked, and closing
    again changes nothing. *)
Lemma C8_close_idempotent_witness :
  exists ep' s',
    close (APublisher publisher_c1) running = (Ret ep', s')
    /\ close ep' s' = (Ret ep', s')
    /\ segments ep' = []
    /\ (3%nat ∉ mapped s')
    /\ ("shmcomm_pub_c1"%string ∉ linked s').
Proof.
  destruct (proj1 C8_close_idempotent (APublisher publisher_c1) running)
    as (ep' & s' & H1 & H2 & H3 & H4).
  exists ep', s'. split; [exact H1|]. split; [exact H2|]. split; [exact H3|].
  destruct (H4 {| shm_id := 3; name := "shmcomm_pub_c1"; buf := fresh_ring 4 8 |})
    as [Hm Hl].
  - left. reflexivity.
  - split; [exact Hm|]. apply Hl. reflexivity.
Defined.

(** ** C9: frame of a rejected write *)

Section RejectedWrite.

Implicit Types (b p : bytes).

(** The committing part of [write_message] returns [True] or raises. *)
Lemma commit_steps_not_false N S p b r b' :
  (head <- Py.getitem IDX_HEAD ;;
   next_head <- Py.mod_ (head + 1) N ;;
   _write_slot head S p ;;;
   Py.setitem IDX_HEAD next_head ;;;
   Py.iadd1 IDX_MSG_COUNT ;;;
   ret true) b = (r, b') ->
  r <> Ret false.
Proof.
  unfold bind, Py.getitem, Py.mod_, ret, raise, _write_slot, bind,
    Py.pack_into, Py.slice_assign, Py.setitem, Py.iadd1.
  intros H.
  repeat match type of H with
         | context [if ?c then _ else _] => destruct c
         | context [match ?c with Some _ => _ | None => _ end] => destruct c
         end; inversion H; discriminate.
Qed.

(** A non-blocking, non-overwriting write that returns [False] found the
    ring full and did nothing but one store to DROP_COUNT. *)
Lemma rejected_write_is_one_store fuel env b p timeout b' :
  write_message fuel env p false timeout false b = (Ret false, b') ->
  HEADER_SIZE <= Py.len b /\ ring_full b = true
  /\ b' = Py.store b IDX_DROP_COUNT (Py.int64 ((DROP_COUNT b + 1) mod 2 ^ 64)).
Proof.
  unfold write_message. intros Hw.
  unfold bind at 1 in Hw. unfold get_header, _make_header_array in Hw.
  destruct (Z.ltb_spec (Py.len b) HEADER_SIZE); [discriminate|].
  split; [assumption|].
  unfold bind at 1 in Hw. unfold Py.getitem at 1 in Hw.
  unfold bind at 1 in Hw. unfold Py.getitem at 1 in Hw.
  destruct (_ <? Py.len p); [discriminate|].
  unfold bind at 1 in Hw. cbn [negb] in Hw.
  destruct fuel as [|fuel]; [discriminate|].
  cbn [wait_for_slot] in Hw.
  unfold bind at 1 in Hw. unfold Py.getitem at 1 in Hw.
  unfold bind at 1 in Hw. unfold Py.getitem at 1 in Hw.
  unfold bind at 1 in Hw. unfold Py.mod_ at 1 in Hw.
  fold (HEAD b) (TAIL b) (NUM_SLOTS b) in Hw.
  destruct (NUM_SLOTS b =? 0); [discriminate|].
  unfold ret at 1 in Hw. unfold ring_full.
  destruct ((HEAD b + 1) mod NUM_SLOTS b =? TAIL b); cbn [negb] in Hw.
  - unfold bind, Py.iadd1, ret in Hw. split; [reflexivity|].
    injection Hw as <-. reflexivity.
  - unfold ret at 1 in Hw. exfalso.
    eapply commit_steps_not_false; [exact Hw|reflexivity].
Qed.

End RejectedWrite.

(** C9, as stated, fails when DROP_COUNT holds the largest int64: the
    cell is a numpy int64, [+= 1] wraps around, and the counter goes from
    [2^63 - 1] to [-2^63] instead of growing by 1.  The ring here has two
    slots, one of them written. *)
Lemma C9_drop_count_wraps_counterexample :
  let b := Py.store (snd (write_message 1 quiet [Byte.x61] false None false
                            (fresh_ring 2 8)))
             IDX_DROP_COUNT (2 ^ 63 - 1) in
  let r := write_message 1 quiet [Byte.x62] false None false b in
  valid_segment b = true /\ ring_full b = true
  /\ fst r = Ret false
  /\ DROP_COUNT b = 2 ^ 63 - 1
  /\ DROP_COUNT (snd r) = - 2 ^ 63
  /\ DROP_COUNT (snd r) <> DROP_COUNT b + 1.
Proof. vm_compute. repeat split; congruence. Qed.

(** C9 (amended): whenever a non-overwrite, non-blocking [write_message]
    returns [False], the ring was full and the only header cell that
    changes is DROP_COUNT, which grows by exactly 1 provided it is below
    the largest int64; HEAD, TAIL, MSG_COUNT, NUM_SLOTS and SLOT_SIZE keep
    their values, and no byte outside the DROP_COUNT cell (so no byte of
    any slot) changes. *)
Theorem C9_rejected_write_frame :
  forall fuel env b p timeout b',
    write_message fuel env p false timeout false b = (Ret false, b') ->
    DROP_COUNT b < 2 ^ 63 - 1 ->
    ring_full b = true
    /\ DROP_COUNT b' = DROP_COUNT b + 1
    /\ HEAD b' = HEAD b /\ TAIL b' = TAIL b /\ MSG_COUNT b' = MSG_COUNT b
    /\ NUM_SLOTS b' = NUM_SLOTS b /\ SLOT_SIZE b' = SLOT_SIZE b
    /\ length b' = length b
    /\ (forall k : nat, ~ (40 <= k < 48)%nat -> b' !! k = b !! k)
    /\ (forall slot_size i q, holds b slot_size i q -> holds b' slot_size i q).
Proof.
  intros fuel env b p timeout b' Hw Hmax.
  apply rejected_write_is_one_store in Hw as (Hlen & Hfull & ->).
  unfold HEADER_SIZE in Hlen.
  assert (Hf : same_outside [IDX_DROP_COUNT] b
                 (Py.store b IDX_DROP_COUNT
                    (Py.int64 ((DROP_COUNT b + 1) mod 2 ^ 64))))
    by (apply same_outside_store; [now left|unfold IDX_DROP_COUNT, _IDX_DROP_COUNT; lia]).
  pose proof (cell_in_int64 b IDX_DROP_COUNT) as Hr. fold (DROP_COUNT b) in Hr.
  assert (Hin : Py.in_int64 (DROP_COUNT b + 1) = true).
  { unfold Py.in_int64 in *. apply andb_true_iff in Hr as [Hlo _].
    apply Z.leb_le in Hlo. apply andb_true_iff. split;
      [apply Z.leb_le|apply Z.ltb_lt]; lia. }
  split; [exact Hfull|]. split.
  { unfold DROP_COUNT at 1.
    rewrite cell_store_same by (unfold IDX_DROP_COUNT, _IDX_DROP_COUNT; lia).
    rewrite !(int64_wrap _ Hin). reflexivity. }
  do 5 (split; [apply (same_outside_cell _ _ _ _ Hf); cbv; intuition discriminate|]).
  split; [apply Hf|]. split.
  - intros k Hk. apply Hf. intros i [<-|[]]. cbv. lia.
  - intros sz i q. apply (same_outside_holds _ _ _ _ _ _ Hf).
    intros c [<-|[]]. cbv. lia.
Qed.

(** The amended C9 on a full ring of two slots whose DROP_COUNT is 0. *)
Lemma C9_rejected_write_frame_witness :
  let b := full_ring in
  let b' := snd (write_message 1 quiet [Byte.x62] false None false b) in
  write_message 1 quiet [Byte.x62] false None false b = (Ret false, b')
  /\ DROP_COUNT b < 2 ^ 63 - 1
  /\ ring_full b = true
  /\ DROP_COUNT b' = DROP_COUNT b + 1
  /\ HEAD b' = HEAD b /\ TAIL b' = TAIL b /\ MSG_COUNT b' = MSG_COUNT b
  /\ NUM_SLOTS b' = NUM_SLOTS b /\ SLOT_SIZE b' = SLOT_SIZE b
  /\ length b' = length b
  /\ (forall k : nat, ~ (40 <= k < 48)%nat -> b' !! k = b !! k)
  /\ (forall slot_size i q, holds b slot_size i q -> holds b' slot_size i q).
Proof.
  intros b b'.
  assert (Hw : write_message 1 quiet [Byte.x62] false None false b = (Ret false, b'))
    by (vm_compute; reflexivity).
  assert (Hd : DROP_COUNT b < 2 ^ 63 - 1) by (vm_compute; reflexivity).
  refine (conj Hw (conj Hd _)).
  exact (C9_rejected_write_frame 1 quiet b [Byte.x62] None b' Hw Hd).
Defined.

(** ** C10: bytes pass through [serialize] *)

(** C10: for an input that is bytes, bytearray or memoryview, [serialize]
    returns the byte content unchanged for every method string, recognised
    or not; so when [serialize] raises (in particular for an unknown
    method) the input was not bytes-like. *)
Theorem C10_raw_bytes_pass_through :
  forall Obj (codec : Serialize.Codec Obj),
    (forall b method,
       Serialize.serialize codec (Serialize.PyBytes b) method = Ret b
       /\ Serialize.serialize codec (Serialize.PyByteArray b) method = Ret b
       /\ Serialize.serialize codec (Serialize.PyMemoryView b) method = Ret b)
    /\ (forall obj method e,
       Serialize.serialize codec obj method = Raise e ->
       Serialize.is_bytes_like obj = false).
Proof.
  intros Obj codec. split.
  - intros b method. repeat split.
  - intros [b|b|b|o] method e H; try discriminate. reflexivity.
Qed.

(** C10 for an unknown method: the bytes come back, the object is
    refused. *)
Lemma C10_raw_bytes_pass_through_witness :
  Serialize.serialize toy_codec (Serialize.PyBytes [Byte.x2a]) "yaml" = Ret [Byte.x2a]
  /\ Serialize.serialize toy_codec (Serialize.PyObject 42%nat) "yaml"
     = Raise (Exn SHMSerializationError "Unknown serialization method")
  /\ Serialize.is_bytes_like (Serialize.PyObject (Obj := nat) 42%nat) = false.
Proof.
  split; [apply (proj1 (C10_raw_bytes_pass_through nat toy_codec))|].
  assert (H : Serialize.serialize toy_codec (Serialize.PyObject 42%nat) "yaml"
              = Raise (Exn SHMSerializationError "Unknown serialization method"))
    by reflexivity.
  split; [exact H|].
  exact (proj2 (C10_raw_bytes_pass_through nat toy_codec) _ _ _ H).
Defined.

(* ================================================================== *)
(** * Further properties of the code *)

(** ** The shared-tail consumer *)

Section SharedTail.

Implicit Types (b p q : bytes).

Lemma shared_tail_empty b :
  HEADER_SIZE <= Py.len b -> TAIL b = HEAD b ->
  read_message_shared_tail b = (Ret None, b).
Proof.
  intros Hlen E. unfold read_message_shared_tail.
  unfold bind at 1. unfold get_header, _make_header_array.
  destruct (Z.ltb_spec (Py.len b) HEADER_SIZE); [lia|].
  unfold bind, Py.getitem. fold (HEAD b) (TAIL b). rewrite E, Z.eqb_refl.
  reflexivity.
Qed.

Lemma shared_tail_claim b p :
  HEADER_SIZE <= Py.len b -> TAIL b <> HEAD b -> 0 < NUM_SLOTS b ->
  holds b (SLOT_SIZE b) (TAIL b) p ->
  read_message_shared_tail b
  = (Ret (Some p), Py.store b IDX_TAIL ((TAIL b + 1) mod NUM_SLOTS b)).
Proof.
  intros Hlen Ht HN Hholds. unfold read_message_shared_tail.
  unfold bind at 1. unfold get_header, _make_header_array.
  destruct (Z.ltb_spec (Py.len b) HEADER_SIZE); [lia|].
  unfold bind at 1. unfold Py.getitem at 1. fold (HEAD b).
  unfold bind at 1. unfold Py.getitem at 1. fold (TAIL b).
  unfold bind at 1. unfold Py.getitem at 1. fold (NUM_SLOTS b).
  unfold bind at 1. unfold Py.getitem at 1. fold (SLOT_SIZE b).
  destruct (Z.eqb_spec (TAIL b) (HEAD b)); [contradiction|].
  unfold bind at 1. rewrite (read_slot_holds _ _ _ _ Hholds).
  unfold bind at 1. unfold Py.mod_.
  destruct (Z.eqb_spec (NUM_SLOTS b) 0); [lia|]. unfold ret at 1.
  unfold bind, Py.setitem, ret.
  assert (Hin : Py.in_int64 ((TAIL b + 1) mod NUM_SLOTS b) = true).
  { pose proof (Z.mod_pos_bound (TAIL b + 1) (NUM_SLOTS b) HN).
    pose proof (cell_in_int64 b IDX_NUM_SLOTS) as Hc. fold (NUM_SLOTS b) in Hc.
    unfold Py.in_int64 in *. lia. }
  now rewrite Hin.
Qed.

(** What the store to TAIL leaves alone. *)
Lemma tail_store_frame b v :
  HEADER_SIZE <= Py.len b ->
  same_outside [IDX_TAIL] b (Py.store b IDX_TAIL v).
Proof.
  unfold HEADER_SIZE. intros.
  apply same_outside_store; [now left|unfold IDX_TAIL, _IDX_TAIL; lia].
Qed.

Lemma tail_store_valid b v :
  valid_segment b = true -> 0 <= v < NUM_SLOTS b ->
  valid_segment (Py.store b IDX_TAIL v) = true
  /\ TAIL (Py.store b IDX_TAIL v) = v
  /\ HEAD (Py.store b IDX_TAIL v) = HEAD b
  /\ NUM_SLOTS (Py.store b IDX_TAIL v) = NUM_SLOTS b
  /\ SLOT_SIZE (Py.store b IDX_TAIL v) = SLOT_SIZE b.
Proof.
  intros Hv Hr. pose proof Hv as Hv'.
  apply valid_segment_spec in Hv' as (Hm & Hve & Hg & Hh & Ht).
  pose proof (header_fits b Hg) as Hlen.
  pose proof (tail_store_frame b v Hlen) as Hf.
  assert (HT : TAIL (Py.store b IDX_TAIL v) = v).
  { unfold TAIL. apply cell_store_hdr_same; [cbv; lia|exact Hlen|].
    pose proof (cell_in_int64 b IDX_NUM_SLOTS) as Hc. fold (NUM_SLOTS b) in Hc.
    unfold Py.in_int64 in *. lia. }
  assert (HH : HEAD (Py.store b IDX_TAIL v) = HEAD b)
    by (apply (same_outside_cell _ _ _ _ Hf); cbv; intuition discriminate).
  assert (HN : NUM_SLOTS (Py.store b IDX_TAIL v) = NUM_SLOTS b)
    by (apply (same_outside_cell _ _ _ _ Hf); cbv; intuition discriminate).
  assert (HS : SLOT_SIZE (Py.store b IDX_TAIL v) = SLOT_SIZE b)
    by (apply (same_outside_cell _ _ _ _ Hf); cbv; intuition discriminate).
  repeat split; try assumption.
  apply valid_segment_spec. unfold sound_geometry in *.
  rewrite HT, HH, HN, HS, (same_outside_len _ _ _ Hf).
  rewrite !(same_outside_cell _ _ _ _ Hf) by (cbv; intuition discriminate).
  auto.
Qed.

End SharedTail.

(** ** Occupancy *)

Section Occupancy.

Implicit Types (b p q : bytes).

Lemma mod_cases a N :
  0 < N -> - N <= a < 2 * N ->
  a mod N = if a <? 0 then a + N else if a <? N then a else a - N.
Proof.
  intros HN Ha.
  destruct (Z.ltb_spec a 0).
  - rewrite <- (Z.mod_add a 1 N) by lia.
    rewrite Z.mod_small by lia. lia.
  - destruct (Z.ltb_spec a N).
    + apply Z.mod_small. lia.
    + rewrite <- (Z.mod_add a (-1) N) by lia.
      rewrite Z.mod_small by lia. lia.
Qed.

Lemma valid_ranges b :
  valid_segment b = true ->
  0 < NUM_SLOTS b /\ 0 <= HEAD b < NUM_SLOTS b /\ 0 <= TAIL b < NUM_SLOTS b
  /\ HEADER_SIZE <= Py.len b.
Proof.
  intros Hv. apply valid_segment_spec in Hv as (_ & _ & Hg & Hh & Ht).
  pose proof (header_fits b Hg). repeat split; lia.
Qed.

Lemma used_range b :
  valid_segment b = true -> 0 <= used b <= NUM_SLOTS b - 1.
Proof.
  intros Hv. destruct (valid_ranges b Hv) as (HN & _).
  unfold used. pose proof (Z.mod_pos_bound (HEAD b - TAIL b) (NUM_SLOTS b) HN). lia.
Qed.

Lemma used_zero b :
  valid_segment b = true -> (used b = 0 <-> HEAD b = TAIL b).
Proof.
  intros Hv. destruct (valid_ranges b Hv) as (HN & Hh & Ht & _).
  unfold used. rewrite mod_cases by lia.
  destruct (Z.ltb_spec (HEAD b - TAIL b) 0); [lia|].
  destruct (Z.ltb_spec (HEAD b - TAIL b) (NUM_SLOTS b)); lia.
Qed.

Lemma ring_full_used b :
  valid_segment b = true ->
  (ring_full b = true <-> used b = NUM_SLOTS b - 1).
Proof.
  intros Hv. destruct (valid_ranges b Hv) as (HN & Hh & Ht & _).
  unfold ring_full, used. rewrite Z.eqb_eq.
  rewrite (mod_cases (HEAD b + 1)), (mod_cases (HEAD b - TAIL b)) by lia.
  destruct (Z.ltb_spec (HEAD b + 1) 0); [lia|].
  destruct (Z.ltb_spec (HEAD b + 1) (NUM_SLOTS b));
    destruct (Z.ltb_spec (HEAD b - TAIL b) 0);
    destruct (Z.ltb_spec (HEAD b - TAIL b) (NUM_SLOTS b)); lia.
Qed.

Lemma commit_valid b p :
  valid_segment b = true ->
  Py.len p <= SLOT_SIZE b - 4 -> Py.len p < 2 ^ 32 ->
  valid_segment (commit b p) = true
  /\ HEAD (commit b p) = (HEAD b + 1) mod NUM_SLOTS b
  /\ TAIL (commit b p) = TAIL b
  /\ NUM_SLOTS (commit b p) = NUM_SLOTS b
  /\ SLOT_SIZE (commit b p) = SLOT_SIZE b.
Proof.
  intros Hv Hp Hp32. pose proof (valid_writable b Hv) as Hw.
  destruct (commit_spec b p Hw Hp Hp32) as (_ & C & H' & _).
  destruct (commit_writable b p Hw Hp Hp32) as (Hw' & HN & HS & Ht & _).
  apply valid_segment_spec in Hv as (Hm & Hve & _ & _ & Htr).
  repeat split; try assumption.
  apply valid_segment_spec. rewrite Ht, HN.
  rewrite !C by (cbv; intuition (try discriminate; lia)).
  destruct Hw' as [Hg' Hh']. rewrite HN in Hh'. auto.
Qed.

Lemma used_commit b p :
  valid_segment b = true ->
  Py.len p <= SLOT_SIZE b - 4 -> Py.len p < 2 ^ 32 ->
  used (commit b p) = if used b =? NUM_SLOTS b - 1 then 0 else used b + 1.
Proof.
  intros Hv Hp Hp32.
  destruct (commit_valid b p Hv Hp Hp32) as (_ & H' & Ht & HN & _).
  destruct (valid_ranges b Hv) as (HN0 & Hh & Htr & _).
  unfold used. rewrite H', Ht, HN.
  rewrite (mod_cases (HEAD b + 1)) by lia.
  destruct (Z.ltb_spec (HEAD b + 1) 0); [lia|].
  destruct (Z.ltb_spec (HEAD b + 1) (NUM_SLOTS b)).
  - rewrite !mod_cases by lia.
    destruct (Z.ltb_spec (HEAD b + 1 - TAIL b) 0);
      destruct (Z.ltb_spec (HEAD b + 1 - TAIL b) (NUM_SLOTS b));
      destruct (Z.ltb_spec (HEAD b - TAIL b) 0);
      destruct (Z.ltb_spec (HEAD b - TAIL b) (NUM_SLOTS b));
      repeat match goal with |- context [?x =? ?y] => destruct (Z.eqb_spec x y) end;
      lia.
  - rewrite !mod_cases by lia.
    destruct (Z.ltb_spec (HEAD b + 1 - NUM_SLOTS b - TAIL b) 0);
      destruct (Z.ltb_spec (HEAD b + 1 - NUM_SLOTS b - TAIL b) (NUM_SLOTS b));
      destruct (Z.ltb_spec (HEAD b - TAIL b) 0);
      destruct (Z.ltb_spec (HEAD b - TAIL b) (NUM_SLOTS b));
      repeat match goal with |- context [?x =? ?y] => destruct (Z.eqb_spec x y) end;
      lia.
Qed.

Lemma used_pull b :
  valid_segment b = true -> TAIL b <> HEAD b ->
  used (Py.store b IDX_TAIL ((TAIL b + 1) mod NUM_SLOTS b)) = used b - 1.
Proof.
  intros Hv Hne. destruct (valid_ranges b Hv) as (HN0 & Hh & Htr & _).
  pose proof (Z.mod_pos_bound (TAIL b + 1) (NUM_SLOTS b) HN0) as Hr.
  destruct (tail_store_valid b _ Hv Hr) as (_ & HT & HH & HN & _).
  unfold used. rewrite HT, HH, HN.
  rewrite (mod_cases (TAIL b + 1)) by lia.
  destruct (Z.ltb_spec (TAIL b + 1) 0); [lia|].
  destruct (Z.ltb_spec (TAIL b + 1) (NUM_SLOTS b)); rewrite !mod_cases by lia;
    repeat match goal with |- context [?x <? ?y] => destruct (Z.ltb_spec x y) end;
    lia.
Qed.

(** A non-overwriting write that finds room commits like an overwriting
    one. *)
Lemma write_message_room fuel env b p block timeout :
  (1 <= fuel)%nat -> valid_segment b = true -> used b < NUM_SLOTS b - 1 ->
  Py.len p <= SLOT_SIZE b - 4 -> Py.len p < 2 ^ 32 ->
  write_message fuel env p block timeout false b = (Ret true, commit b p).
Proof.
  intros Hfuel Hv Hroom Hp Hp32.
  destruct (valid_ranges b Hv) as (HN & _).
  rewrite write_message_cases; [|now apply valid_writable|exact Hp].
  destruct fuel as [|fuel]; [lia|].
  rewrite wait_free; [| lia |].
  - destruct (Z.ltb_spec (Py.len p) (2 ^ 32)); [reflexivity|lia].
  - destruct (ring_full b) eqn:E; [|reflexivity].
    apply (ring_full_used b Hv) in E. lia.
Qed.

Lemma write_message_over fuel env b p block timeout :
  valid_segment b = true ->
  Py.len p <= SLOT_SIZE b - 4 -> Py.len p < 2 ^ 32 ->
  write_message fuel env p block timeout true b = (Ret true, commit b p).
Proof.
  intros Hv Hp Hp32.
  rewrite write_message_cases; [|now apply valid_writable|exact Hp].
  destruct (Z.ltb_spec (Py.len p) (2 ^ 32)); [reflexivity|lia].
Qed.

(** An overwriting burst keeps the header valid and does not touch TAIL. *)
Lemma write_all_over_valid fuel env block timeout : forall msgs b r b1,
  valid_segment b = true ->
  Forall (fun m => Py.len m <= SLOT_SIZE b - 4 /\ Py.len m < 2 ^ 32) msgs ->
  write_all fuel env msgs block timeout true b = (r, b1) ->
  valid_segment b1 = true /\ TAIL b1 = TAIL b.
Proof.
  induction msgs as [|p msgs IH]; intros b r b1 Hv Hlegal Hall.
  - cbn in Hall. injection Hall as _ <-. auto.
  - apply Forall_cons in Hlegal as [[Hp Hp32] Hlegal].
    cbn [write_all] in Hall. unfold bind at 1 in Hall.
    rewrite write_message_over in Hall by assumption.
    destruct (commit_valid b p Hv Hp Hp32) as (Hv' & _ & Ht & _ & HS).
    unfold bind at 1 in Hall.
    destruct (write_all fuel env msgs block timeout true (commit b p))
      as [[oks|e|] b''] eqn:Hrest;
      (destruct (IH _ _ _ Hv' ltac:(now rewrite HS) Hrest) as [Hv1 Ht1];
       unfold ret in Hall; injection Hall as _ <-; split; [exact Hv1|congruence]).
Qed.

(** With room for all of them, non-overwriting writes do what
    overwriting writes do. *)
Lemma write_all_room fuel env block timeout block' timeout' : forall msgs b,
  (1 <= fuel)%nat -> valid_segment b = true ->
  used b + Z.of_nat (length msgs) <= NUM_SLOTS b - 1 ->
  Forall (fun m => Py.len m <= SLOT_SIZE b - 4 /\ Py.len m < 2 ^ 32) msgs ->
  write_all fuel env msgs block timeout false b
  = write_all fuel env msgs block' timeout' true b.
Proof.
  induction msgs as [|p msgs IH]; intros b Hfuel Hv Hroom Hlegal; [reflexivity|].
  apply Forall_cons in Hlegal as [[Hp Hp32] Hlegal].
  cbn [length] in Hroom. cbn [write_all]. unfold bind at 1 3.
  rewrite write_message_room by (assumption || lia).
  rewrite write_message_over by assumption.
  destruct (commit_valid b p Hv Hp Hp32) as (Hv' & _ & _ & HN & HS).
  pose proof (used_commit b p Hv Hp Hp32) as Hu.
  destruct (Z.eqb_spec (used b) (NUM_SLOTS b - 1)); [lia|].
  unfold bind. rewrite IH; [reflexivity|exact Hfuel|exact Hv'| |].
  - rewrite Hu, HN. lia.
  - now rewrite HS.
Qed.

End Occupancy.

(** ** Delivery order *)

Section Order.

Implicit Types (b p q : bytes).

(** A private cursor [c] reads the slots from [c] up to HEAD, around the
    end of the ring if need be. *)
Lemma read_all_wrap : forall (qs : list bytes) n c b,
  HEADER_SIZE <= Py.len b -> 0 < NUM_SLOTS b -> 0 <= c < NUM_SLOTS b ->
  Z.of_nat (length qs) < NUM_SLOTS b ->
  HEAD b = (c + Z.of_nat (length qs)) mod NUM_SLOTS b ->
  (forall (j : nat) q, qs !! j = Some q ->
     holds b (SLOT_SIZE b) ((c + Z.of_nat j) mod NUM_SLOTS b) q) ->
  (length qs <= n)%nat ->
  read_all n c b = qs.
Proof.
  induction qs as [|q qs IH]; intros n c b Hlen HN Hc Hk Hhead Hslots Hn.
  - cbn in Hhead. rewrite Z.add_0_r, Z.mod_small in Hhead by lia. subst c.
    destruct n; [reflexivity|]. cbn [read_all]. now rewrite read_spsc_empty.
  - cbn [length] in *. destruct n as [|n]; [lia|]. cbn [read_all].
    rewrite (read_spsc_holds b c q); [|exact Hlen| |lia|].
    + f_equal. apply IH; try assumption; try lia.
      * apply Z.mod_pos_bound. lia.
      * rewrite Hhead, Z.add_mod_idemp_l by lia. f_equal. lia.
      * intros j q' Hj. rewrite Z.add_mod_idemp_l by lia.
        replace (c + 1 + Z.of_nat j) with (c + Z.of_nat (S j)) by lia.
        apply Hslots. exact Hj.
    + rewrite Hhead. rewrite <- (Z.mod_small c (NUM_SLOTS b)) at 1 by lia.
      intros E. symmetry in E. revert E. apply mod_shift_neq. lia.
    + rewrite <- (Z.mod_small c (NUM_SLOTS b)) by lia.
      replace c with (c + Z.of_nat 0) at 1 by lia. apply Hslots. reflexivity.
Qed.

(** The consumers sharing TAIL take the slots from TAIL up to HEAD in
    order, and leave the ring empty. *)
Lemma pull_all_wrap : forall (qs : list bytes) n b,
  valid_segment b = true ->
  Z.of_nat (length qs) < NUM_SLOTS b ->
  HEAD b = (TAIL b + Z.of_nat (length qs)) mod NUM_SLOTS b ->
  (forall (j : nat) q, qs !! j = Some q ->
     holds b (SLOT_SIZE b) ((TAIL b + Z.of_nat j) mod NUM_SLOTS b) q) ->
  (length qs <= n)%nat ->
  exists b',
    pull_all n b = (qs, b')
    /\ valid_segment b' = true /\ TAIL b' = HEAD b /\ HEAD b' = HEAD b
    /\ same_outside [IDX_TAIL] b b'.
Proof.
  induction qs as [|q qs IH]; intros n b Hv Hk Hhead Hslots Hn;
    destruct (valid_ranges b Hv) as (HN & Hh & Ht & Hlen).
  - cbn in Hhead. rewrite Z.add_0_r, Z.mod_small in Hhead by lia.
    exists b. split; [|repeat split; auto using same_outside_refl].
    destruct n; [reflexivity|]. cbn [pull_all].
    now rewrite shared_tail_empty by auto.
  - cbn [length] in *. destruct n as [|n]; [lia|]. cbn [pull_all].
    assert (Hne : TAIL b <> HEAD b).
    { rewrite Hhead. rewrite <- (Z.mod_small (TAIL b) (NUM_SLOTS b)) at 1 by lia.
      intros E. symmetry in E. revert E. apply mod_shift_neq. lia. }
    assert (Hq : holds b (SLOT_SIZE b) (TAIL b) q).
    { rewrite <- (Z.mod_small (TAIL b) (NUM_SLOTS b)) by lia.
      replace (TAIL b) with (TAIL b + Z.of_nat 0) at 1 by lia.
      apply Hslots. reflexivity. }
    rewrite (shared_tail_claim b q) by assumption.
    pose proof (Z.mod_pos_bound (TAIL b + 1) (NUM_SLOTS b) HN) as Hr.
    destruct (tail_store_valid b _ Hv Hr) as (Hv' & HT & HH & HN' & HS').
    pose proof (tail_store_frame b ((TAIL b + 1) mod NUM_SLOTS b) Hlen) as Hf.
    destruct (IH n (Py.store b IDX_TAIL ((TAIL b + 1) mod NUM_SLOTS b)))
      as (b' & Hpull & Hv1 & Ht1 & Hh1 & Hf1).
    + exact Hv'.
    + rewrite HN'. lia.
    + rewrite HH, HT, HN', Hhead, Z.add_mod_idemp_l by lia. f_equal. lia.
    + intros j q' Hj. rewrite HT, HN', HS', Z.add_mod_idemp_l by lia.
      replace (TAIL b + 1 + Z.of_nat j) with (TAIL b + Z.of_nat (S j)) by lia.
      apply (same_outside_holds _ _ _ _ _ _ Hf).
      * intros c [<-|[]]. cbv. lia.
      * apply Hslots. exact Hj.
    + lia.
    + exists b'. rewrite Hpull.
      split; [reflexivity|]. split; [exact Hv1|]. split; [congruence|].
      split; [congruence|]. eapply same_outside_trans; eassumption.
Qed.

End Order.

(** X1: the shared-tail read on a valid segment.  When TAIL equals HEAD
    it returns [None] and leaves the memory as it was; otherwise it
    returns the message of the slot at TAIL and stores
    [TAIL <- (TAIL + 1) mod NUM_SLOTS], changing no byte outside the TAIL
    cell, so HEAD, the counters, the geometry and all slots stay and the
    header stays valid. *)
Theorem X1_shared_tail_read :
  forall b,
    valid_segment b = true ->
    (TAIL b = HEAD b -> read_message_shared_tail b = (Ret None, b))
    /\ (forall p,
          TAIL b <> HEAD b -> holds b (SLOT_SIZE b) (TAIL b) p ->
          exists b',
            read_message_shared_tail b = (Ret (Some p), b')
            /\ TAIL b' = (TAIL b + 1) mod NUM_SLOTS b
            /\ HEAD b' = HEAD b
            /\ MSG_COUNT b' = MSG_COUNT b /\ DROP_COUNT b' = DROP_COUNT b
            /\ NUM_SLOTS b' = NUM_SLOTS b /\ SLOT_SIZE b' = SLOT_SIZE b
            /\ valid_segment b' = true
            /\ used b' = used b - 1
            /\ length b' = length b
            /\ (forall k : nat, ~ (24 <= k < 32)%nat -> b' !! k = b !! k)).
Proof.
  intros b Hv. destruct (valid_ranges b Hv) as (HN & Hh & Ht & Hlen). split.
  - intros E. now apply shared_tail_empty.
  - intros p Hne Hholds.
    exists (Py.store b IDX_TAIL ((TAIL b + 1) mod NUM_SLOTS b)).
    pose proof (Z.mod_pos_bound (TAIL b + 1) (NUM_SLOTS b) HN) as Hr.
    destruct (tail_store_valid b _ Hv Hr) as (Hv' & HT & HH & HN' & HS').
    pose proof (tail_store_frame b ((TAIL b + 1) mod NUM_SLOTS b) Hlen) as Hf.
    split; [now apply shared_tail_claim|].
    split; [exact HT|]. split; [exact HH|].
    do 2 (split; [apply (same_outside_cell _ _ _ _ Hf); cbv; intuition discriminate|]).
    split; [exact HN'|]. split; [exact HS'|]. split; [exact Hv'|].
    split; [now apply used_pull|]. split; [apply Hf|].
    intros k Hk. apply Hf. intros i [<-|[]]. cbv. lia.
Qed.

(** X1 on a ring of two slots holding one message. *)
Lemma X1_shared_tail_read_witness :
  valid_segment full_ring = true
  /\ TAIL full_ring <> HEAD full_ring
  /\ holds full_ring (SLOT_SIZE full_ring) (TAIL full_ring) [Byte.x61]
  /\ exists b',
       read_message_shared_tail full_ring = (Ret (Some [Byte.x61]), b')
       /\ TAIL b' = (TAIL full_ring + 1) mod NUM_SLOTS full_ring
       /\ HEAD b' = HEAD full_ring.
Proof.
  assert (Hv : valid_segment full_ring = true) by (vm_compute; reflexivity).
  assert (Hne : TAIL full_ring <> HEAD full_ring) by (vm_compute; congruence).
  assert (Hh : holds full_ring (SLOT_SIZE full_ring) (TAIL full_ring) [Byte.x61]).
  { repeat split; try (vm_compute; congruence). }
  refine (conj Hv (conj Hne (conj Hh _))).
  destruct (proj2 (X1_shared_tail_read full_ring Hv) [Byte.x61] Hne Hh)
    as (b' & H1 & H2 & H3 & _).
  exists b'. auto.
Defined.

(** X2: push/pull delivers in order, each message once.  On a valid
    segment whose ring is empty (TAIL = HEAD, anywhere in the ring), up
    to [NUM_SLOTS - 1] non-overwriting writes of payloads that fit all
    return [True]; the shared-tail reads that follow return exactly those
    messages in the order written, whichever consumer makes each read,
    and then find the ring empty again. *)
Theorem X2_push_pull_fifo :
  forall fuel env b msgs block timeout,
    (1 <= fuel)%nat ->
    valid_segment b = true ->
    TAIL b = HEAD b ->
    Z.of_nat (length msgs) <= NUM_SLOTS b - 1 ->
    Forall (fun m => Py.len m <= SLOT_SIZE b - 4 /\ Py.len m < 2 ^ 32) msgs ->
    exists b1,
      write_all fuel env msgs block timeout false b
        = (Ret (repeat true (length msgs)), b1)
      /\ used b1 = Z.of_nat (length msgs)
      /\ forall n, (length msgs <= n)%nat ->
           exists b2,
             pull_all n b1 = (msgs, b2)
             /\ TAIL b2 = HEAD b2
             /\ read_message_shared_tail b2 = (Ret None, b2).
Proof.
  intros fuel env b msgs block timeout Hfuel Hv Hempty Hk Hlegal.
  destruct (valid_ranges b Hv) as (HN & Hh & Ht & Hlen).
  assert (Hu : used b = 0) by (apply used_zero; auto).
  destruct (write_all_overwrite fuel env block timeout msgs b)
    as (b1 & Hall & Hw1 & HN1 & HS1 & Hh1 & Hslots);
    [now apply valid_writable|exact Hlegal|].
  destruct (write_all_over_valid fuel env block timeout msgs b _ b1 Hv Hlegal Hall)
    as [Hv1 Ht1].
  exists b1. split.
  { rewrite (write_all_room fuel env block timeout block timeout) by (assumption || lia).
    exact Hall. }
  split.
  { unfold used. rewrite Hh1, Ht1, HN1, Hempty.
    rewrite (mod_cases (HEAD b + Z.of_nat (length msgs))) by lia.
    destruct (Z.ltb_spec (HEAD b + Z.of_nat (length msgs)) 0); [lia|].
    destruct (Z.ltb_spec (HEAD b + Z.of_nat (length msgs)) (NUM_SLOTS b));
      rewrite mod_cases by lia;
      repeat match goal with |- context [?x <? ?y] => destruct (Z.ltb_spec x y) end;
      lia. }
  intros n Hn.
  destruct (pull_all_wrap msgs n b1) as (b2 & Hpull & Hv2 & Ht2 & Hh2 & _).
  - exact Hv1.
  - rewrite HN1. lia.
  - rewrite Ht1, HN1, Hempty. exact Hh1.
  - intros j q Hj. rewrite Ht1, HN1, HS1, Hempty. apply Hslots; [exact Hj|].
    apply lookup_lt_Some in Hj. lia.
  - exact Hn.
  - exists b2. split; [exact Hpull|]. split; [congruence|].
    apply shared_tail_empty; [|congruence].
    destruct (valid_ranges b2 Hv2) as (_ & _ & _ & L). exact L.
Qed.

(** X2 on a ring of four slots that has been used before (HEAD = TAIL =
    3), so that the three messages wrap around its end. *)
Lemma X2_push_pull_fifo_witness :
  let b := snd (pull_all 3 backlog) in
  let msgs := [[Byte.x0a]; [Byte.x0b]; [Byte.x0c]] in
  valid_segment b = true /\ TAIL b = HEAD b /\ HEAD b = 3
  /\ exists b1,
       write_all 1 quiet msgs false None false b
         = (Ret (repeat true (length msgs)), b1)
       /\ used b1 = Z.of_nat (length msgs)
       /\ forall n, (length msgs <= n)%nat ->
            exists b2,
              pull_all n b1 = (msgs, b2)
              /\ TAIL b2 = HEAD b2
              /\ read_message_shared_tail b2 = (Ret None, b2).
Proof.
  intros b msgs.
  assert (Hv : valid_segment b = true) by (vm_compute; reflexivity).
  assert (He : TAIL b = HEAD b) by (vm_compute; reflexivity).
  assert (H3 : HEAD b = 3) by (vm_compute; reflexivity).
  refine (conj Hv (conj He (conj H3 _))).
  apply (X2_push_pull_fifo 1 quiet b msgs false None).
  - lia.
  - exact Hv.
  - exact He.
  - vm_compute. congruence.
  - repeat constructor; vm_compute; congruence.
Defined.

(** X3: what a subscriber sees of an overwriting burst.  On a valid
    segment with [N] slots, after [k] overwriting writes (all of which
    return [True]) a consumer whose private cursor was at the HEAD of
    before the burst reads exactly the last [k mod N] messages, in the
    order written, and then [None].  So it sees all of them when
    [k < N], and loses the whole lap when the producer gets [N] ahead. *)
Theorem X3_subscriber_sees_last_k_mod_N :
  forall fuel env b msgs block timeout,
    valid_segment b = true ->
    Forall (fun m => Py.len m <= SLOT_SIZE b - 4 /\ Py.len m < 2 ^ 32) msgs ->
    exists b1,
      write_all fuel env msgs block timeout true b
        = (Ret (repeat true (length msgs)), b1)
      /\ forall n,
           (Z.to_nat (Z.of_nat (length msgs) mod NUM_SLOTS b) <= n)%nat ->
           read_all n (HEAD b) b1
           = drop (length msgs - Z.to_nat (Z.of_nat (length msgs) mod NUM_SLOTS b)) msgs.
Proof.
  intros fuel env b msgs block timeout Hv Hlegal.
  destruct (valid_ranges b Hv) as (HN & Hh & Ht & Hlen).
  destruct (write_all_overwrite fuel env block timeout msgs b)
    as (b1 & Hall & Hw1 & HN1 & HS1 & Hh1 & Hslots);
    [now apply valid_writable|exact Hlegal|].
  exists b1. split; [exact Hall|]. intros n Hn.
  set (k := Z.of_nat (length msgs)) in *.
  set (r := k mod NUM_SLOTS b) in *.
  pose proof (Z.mod_pos_bound k (NUM_SLOTS b) HN) as Hr. fold r in Hr.
  pose proof (Z.div_mod k (NUM_SLOTS b) ltac:(lia)) as Hdm. fold r in Hdm.
  assert (Hrk : r <= k).
  { pose proof (Z.div_pos k (NUM_SLOTS b) ltac:(lia) HN). nia. }
  apply read_all_wrap.
  - apply header_fits, Hw1.
  - rewrite HN1. exact HN.
  - rewrite HN1. exact Hh.
  - rewrite length_drop, HN1. lia.
  - rewrite length_drop, Hh1, HN1.
    replace (Z.of_nat (length msgs - (length msgs - Z.to_nat r))) with r by lia.
    replace (HEAD b + k) with (HEAD b + r + (k / NUM_SLOTS b) * NUM_SLOTS b) by lia.
    now rewrite Z.mod_add by lia.
  - intros j q Hj. rewrite lookup_drop in Hj. rewrite HN1, HS1.
    pose proof (lookup_lt_Some _ _ _ Hj) as Hlt.
    replace ((HEAD b + Z.of_nat j) mod NUM_SLOTS b)
      with ((HEAD b + Z.of_nat (length msgs - Z.to_nat r + j)) mod NUM_SLOTS b).
    + apply Hslots; [exact Hj|]. fold k. lia.
    + replace (HEAD b + Z.of_nat (length msgs - Z.to_nat r + j))
        with (HEAD b + Z.of_nat j + (k / NUM_SLOTS b) * NUM_SLOTS b) by lia.
      now rewrite Z.mod_add by lia.
  - rewrite length_drop. lia.
Qed.

(** X3 on a ring of four slots with a backlog (HEAD = 3): of six
    messages the subscriber reads the last two. *)
Lemma X3_subscriber_sees_last_k_mod_N_witness :
  let msgs := map (fun c => [c])
                [Byte.x01; Byte.x02; Byte.x03; Byte.x04; Byte.x05; Byte.x06] in
  valid_segment backlog = true
  /\ Forall (fun m => Py.len m <= SLOT_SIZE backlog - 4 /\ Py.len m < 2 ^ 32) msgs
  /\ exists b1,
       write_all 1 quiet msgs false None true backlog
         = (Ret (repeat true (length msgs)), b1)
       /\ read_all 4 (HEAD backlog) b1 = [[Byte.x05]; [Byte.x06]].
Proof.
  intros msgs.
  assert (Hv : valid_segment backlog = true) by (vm_compute; reflexivity).
  assert (Hl : Forall (fun m => Py.len m <= SLOT_SIZE backlog - 4
                                /\ Py.len m < 2 ^ 32) msgs)
    by (repeat constructor; vm_compute; congruence).
  refine (conj Hv (conj Hl _)).
  destruct (X3_subscriber_sees_last_k_mod_N 1 quiet backlog msgs false None Hv Hl)
    as (b1 & Hall & Hread).
  exists b1. split; [exact Hall|].
  rewrite (Hread 4%nat); [reflexivity|vm_compute; lia].
Defined.

(** ** Reads that do not write, statistics, the header invariant *)

Section ReadOnly.

Implicit Types (b p : bytes).

Lemma read_slot_pure i S b : snd (_read_slot i S b) = b.
Proof.
  unfold _read_slot, bind, Py.unpack_from.
  destruct (Py.struct_offset _ _); reflexivity.
Qed.

Lemma read_spsc_pure t b : snd (read_message_spsc t b) = b.
Proof.
  unfold read_message_spsc.
  unfold bind at 1. unfold get_header, _make_header_array.
  destruct (Py.len b <? HEADER_SIZE); [reflexivity|].
  unfold bind at 1. unfold Py.getitem at 1.
  unfold bind at 1. unfold Py.getitem at 1.
  unfold bind at 1. unfold Py.getitem at 1.
  destruct (t =? Py.cell b IDX_HEAD); [reflexivity|].
  unfold bind at 1. pose proof (read_slot_pure t (Py.cell b IDX_SLOT_SIZE) b) as Hs.
  destruct (_read_slot t (Py.cell b IDX_SLOT_SIZE) b) as [[payload|e|] b'];
    cbn [snd] in Hs; subst b'; try reflexivity.
  unfold bind, Py.mod_, ret, raise.
  destruct (Py.cell b IDX_NUM_SLOTS =? 0); reflexivity.
Qed.

Lemma get_stats_pure b : snd (get_stats b) = b.
Proof.
  unfold get_stats.
  unfold bind at 1. unfold get_header, _make_header_array.
  destruct (Py.len b <? HEADER_SIZE); [reflexivity|].
  unfold bind, Py.getitem, Py.mod_, ret, raise.
  destruct (Py.cell b IDX_NUM_SLOTS =? 0); reflexivity.
Qed.

Lemma get_stats_valid b :
  valid_segment b = true ->
  get_stats b
  = (Ret {| Stats.head := HEAD b;
            Stats.tail := TAIL b;
            Stats.num_slots := NUM_SLOTS b;
            Stats.slot_size := SLOT_SIZE b;
            Stats.msg_count := MSG_COUNT b;
            Stats.drop_count := DROP_COUNT b;
            Stats.used_slots := used b;
            Stats.free_slots := NUM_SLOTS b - used b - 1 |}, b).
Proof.
  intros Hv. destruct (valid_ranges b Hv) as (HN & _ & _ & Hlen).
  unfold get_stats.
  unfold bind at 1. unfold get_header, _make_header_array.
  destruct (Z.ltb_spec (Py.len b) HEADER_SIZE); [lia|].
  unfold bind, Py.getitem, Py.mod_, ret.
  fold (HEAD b) (TAIL b) (NUM_SLOTS b) (SLOT_SIZE b) (MSG_COUNT b) (DROP_COUNT b).
  destruct (Z.eqb_spec (NUM_SLOTS b) 0); [lia|]. reflexivity.
Qed.

(** The shared-tail read stores the next TAIL when it returns a message,
    and leaves the memory alone otherwise. *)
Lemma shared_tail_effect b r b' :
  0 < NUM_SLOTS b ->
  read_message_shared_tail b = (r, b') ->
  (b' = b /\ forall q, r <> Ret (Some q))
  \/ (b' = Py.store b IDX_TAIL ((TAIL b + 1) mod NUM_SLOTS b)
      /\ exists q, r = Ret (Some q)).
Proof.
  intros HN. unfold read_message_shared_tail.
  unfold bind at 1. unfold get_header, _make_header_array.
  destruct (Py.len b <? HEADER_SIZE);
    [intros [= <- <-]; left; split; [reflexivity|discriminate]|].
  unfold bind at 1. unfold Py.getitem at 1.
  unfold bind at 1. unfold Py.getitem at 1.
  unfold bind at 1. unfold Py.getitem at 1.
  unfold bind at 1. unfold Py.getitem at 1.
  fold (HEAD b) (TAIL b) (NUM_SLOTS b) (SLOT_SIZE b).
  destruct (TAIL b =? HEAD b);
    [intros [= <- <-]; left; split; [reflexivity|discriminate]|].
  unfold bind at 1. pose proof (read_slot_pure (TAIL b) (SLOT_SIZE b) b) as Hs.
  destruct (_read_slot (TAIL b) (SLOT_SIZE b) b) as [[payload|e|] b1];
    cbn [snd] in Hs; subst b1;
    try (intros [= <- <-]; left; split; [reflexivity|discriminate]).
  unfold bind at 1. unfold Py.mod_.
  destruct (Z.eqb_spec (NUM_SLOTS b) 0); [lia|]. unfold ret at 1.
  unfold bind, Py.setitem, ret.
  destruct (Py.in_int64 ((TAIL b + 1) mod NUM_SLOTS b)); intros [= <- <-].
  - right. split; [reflexivity|]. now exists payload.
  - left. split; [reflexivity|discriminate].
Qed.

Lemma drop_store_valid b v :
  valid_segment b = true ->
  valid_segment (Py.store b IDX_DROP_COUNT v) = true
  /\ HEAD (Py.store b IDX_DROP_COUNT v) = HEAD b
  /\ TAIL (Py.store b IDX_DROP_COUNT v) = TAIL b
  /\ NUM_SLOTS (Py.store b IDX_DROP_COUNT v) = NUM_SLOTS b
  /\ SLOT_SIZE (Py.store b IDX_DROP_COUNT v) = SLOT_SIZE b.
Proof.
  intros Hv. destruct (valid_ranges b Hv) as (_ & _ & _ & Hlen).
  assert (Hf : same_outside [IDX_DROP_COUNT] b (Py.store b IDX_DROP_COUNT v)).
  { unfold HEADER_SIZE in Hlen.
    apply same_outside_store; [now left|unfold IDX_DROP_COUNT, _IDX_DROP_COUNT; lia]. }
  assert (HH : HEAD (Py.store b IDX_DROP_COUNT v) = HEAD b)
    by (apply (same_outside_cell _ _ _ _ Hf); cbv; intuition discriminate).
  assert (HT : TAIL (Py.store b IDX_DROP_COUNT v) = TAIL b)
    by (apply (same_outside_cell _ _ _ _ Hf); cbv; intuition discriminate).
  assert (HN : NUM_SLOTS (Py.store b IDX_DROP_COUNT v) = NUM_SLOTS b)
    by (apply (same_outside_cell _ _ _ _ Hf); cbv; intuition discriminate).
  assert (HS : SLOT_SIZE (Py.store b IDX_DROP_COUNT v) = SLOT_SIZE b)
    by (apply (same_outside_cell _ _ _ _ Hf); cbv; intuition discriminate).
  repeat split; try assumption.
  apply valid_segment_spec in Hv. apply valid_segment_spec.
  unfold sound_geometry in *.
  rewrite HT, HH, HN, HS, (same_outside_len _ _ _ Hf).
  rewrite !(same_outside_cell _ _ _ _ Hf) by (cbv; intuition discriminate).
  exact Hv.
Qed.

Lemma write_message_oversize fuel env b p block timeout overwrite :
  HEADER_SIZE <= Py.len b -> SLOT_SIZE b - 4 < Py.len p ->
  write_message fuel env p block timeout overwrite b
  = (Raise (Exn ValueError "Payload size exceeds slot capacity"), b).
Proof.
  intros Hlen Hbig. unfold write_message.
  unfold bind at 1. unfold get_header, _make_header_array.
  destruct (Z.ltb_spec (Py.len b) HEADER_SIZE); [lia|].
  unfold bind at 1. unfold Py.getitem at 1.
  unfold bind at 1. unfold Py.getitem at 1.
  fold (SLOT_SIZE b). unfold SLOT_PREFIX_SIZE.
  destruct (Z.ltb_spec (SLOT_SIZE b - 4) (Py.len p)); [reflexivity|lia].
Qed.

(** A write that does not wait leaves the memory as it was, or commits
    the message, or counts a drop. *)
Lemma write_message_effect fuel env b p block timeout overwrite :
  valid_segment b = true -> overwrite = true \/ block = false ->
  let b' := snd (write_message fuel env p block timeout overwrite b) in
  b' = b
  \/ (Py.len p <= SLOT_SIZE b - 4 /\ Py.len p < 2 ^ 32 /\ b' = commit b p)
  \/ (ring_full b = true
      /\ b' = Py.store b IDX_DROP_COUNT (Py.int64 ((DROP_COUNT b + 1) mod 2 ^ 64))).
Proof.
  intros Hv Hmode. destruct (valid_ranges b Hv) as (HN & _ & _ & Hlen). cbv zeta.
  destruct (Z.lt_ge_cases (SLOT_SIZE b - 4) (Py.len p)) as [Hbig|Hp].
  { left. now rewrite write_message_oversize. }
  rewrite write_message_cases; [|now apply valid_writable|lia].
  destruct overwrite.
  - destruct (Z.ltb_spec (Py.len p) (2 ^ 32)); cbn [snd]; [right; left; auto|now left].
  - destruct Hmode as [Hmode| ->]; [discriminate|].
    destruct fuel as [|fuel]; [now left|].
    destruct (ring_full b) eqn:Hfull.
    + rewrite wait_drop by (lia || assumption). right. right. auto.
    + rewrite wait_free by (lia || assumption).
      destruct (Z.ltb_spec (Py.len p) (2 ^ 32)); cbn [snd]; [right; left; auto|now left].
Qed.

End ReadOnly.

(** X4: the private-cursor read and the statistics snapshot never write
    to the segment, whatever the cursor, the memory and the outcome. *)
Theorem X4_reads_leave_memory_untouched :
  forall local_tail b,
    snd (read_message_spsc local_tail b) = b /\ snd (get_stats b) = b.
Proof.
  intros t b. split; [apply read_spsc_pure|apply get_stats_pure].
Qed.

(** X5: on a valid segment [get_stats] returns the header cells with
    [used_slots = (head - tail) mod num_slots] between 0 and
    [num_slots - 1] and [free_slots = num_slots - 1 - used_slots], so the
    two add up to the capacity [num_slots - 1]; [used_slots] is 0 exactly
    when HEAD = TAIL and [free_slots] is 0 exactly when a non-overwriting
    write would find the ring full.  With NUM_SLOTS = 0 the snapshot
    raises [ZeroDivisionError]. *)
Theorem X5_get_stats :
  forall b,
    (valid_segment b = true ->
     exists s,
       get_stats b = (Ret s, b)
       /\ Stats.head s = HEAD b /\ Stats.tail s = TAIL b
       /\ Stats.num_slots s = NUM_SLOTS b /\ Stats.slot_size s = SLOT_SIZE b
       /\ Stats.msg_count s = MSG_COUNT b /\ Stats.drop_count s = DROP_COUNT b
       /\ Stats.used_slots s = (HEAD b - TAIL b) mod NUM_SLOTS b
       /\ 0 <= Stats.used_slots s <= Stats.num_slots s - 1
       /\ Stats.used_slots s + Stats.free_slots s = Stats.num_slots s - 1
       /\ (Stats.used_slots s = 0 <-> HEAD b = TAIL b)
       /\ (Stats.free_slots s = 0 <-> ring_full b = true))
    /\ (HEADER_SIZE <= Py.len b -> NUM_SLOTS b = 0 ->
        exists e, get_stats b = (Raise e, b) /\ exn_class e = ZeroDivisionError).
Proof.
  intros b. split.
  - intros Hv. eexists. split; [now apply get_stats_valid|].
    cbn [Stats.head Stats.tail Stats.num_slots Stats.slot_size Stats.msg_count
         Stats.drop_count Stats.used_slots Stats.free_slots].
    pose proof (used_range b Hv). pose proof (used_zero b Hv).
    pose proof (ring_full_used b Hv).
    repeat split; try reflexivity; try tauto; try lia.
    + intros. tauto || (apply H1; lia).
    + intros Hf. apply H1 in Hf. lia.
  - intros Hlen HN. unfold get_stats.
    unfold bind at 1. unfold get_header, _make_header_array.
    destruct (Z.ltb_spec (Py.len b) HEADER_SIZE); [lia|].
    unfold bind, Py.getitem, Py.mod_, raise. fold (NUM_SLOTS b).
    rewrite HN. cbn. eexists. split; reflexivity.
Qed.

(** X5 on a ring of four slots holding three messages. *)
Lemma X5_get_stats_witness :
  valid_segment backlog = true
  /\ exists s,
       get_stats backlog = (Ret s, backlog)
       /\ Stats.used_slots s = (HEAD backlog - TAIL backlog) mod NUM_SLOTS backlog
       /\ Stats.used_slots s + Stats.free_slots s = Stats.num_slots s - 1
       /\ (Stats.free_slots s = 0 <-> ring_full backlog = true).
Proof.
  assert (Hv : valid_segment backlog = true) by (vm_compute; reflexivity).
  split; [exact Hv|].
  destruct (proj1 (X5_get_stats backlog) Hv)
    as (s & Hs & _ & _ & _ & _ & _ & _ & Hu & _ & Hsum & _ & Hfull).
  exists s. split; [exact Hs|]. split; [exact Hu|]. split; [exact Hsum|exact Hfull].
Defined.

Section Waiting.

Variable env : Env.

Implicit Types (b p : bytes).

(** While the producer waits, the consumers store TAIL; if what they
    store is a slot of the ring, the segment stays valid. *)
Lemma observed_valid b :
  valid_segment b = true ->
  (forall k t, consumer env k = Some t -> 0 <= t < NUM_SLOTS b) ->
  forall k,
    valid_segment (observed env k b) = true
    /\ HEAD (observed env k b) = HEAD b
    /\ NUM_SLOTS (observed env k b) = NUM_SLOTS b
    /\ SLOT_SIZE (observed env k b) = SLOT_SIZE b.
Proof.
  intros Hv Hcons. induction k as [|k (IHv & IHh & IHn & IHs)].
  - auto.
  - cbn [observed]. unfold sleep.
    destruct (consumer env k) as [t|] eqn:Hc; cbn [snd]; [|auto].
    destruct (tail_store_valid (observed env k b) t IHv) as (Hv' & _ & HH & HN & HS).
    { rewrite IHn. eauto. }
    repeat split; congruence.
Qed.

(** How the wait loop ends when it returns: with a free slot in the
    segment as some iteration saw it, or, for a producer that does not
    block, with a drop at the first look. *)
Lemma wait_outcome deadline block b :
  HEADER_SIZE <= Py.len b -> NUM_SLOTS b <> 0 ->
  forall fuel k r b',
    wait_for_slot fuel env k deadline block (NUM_SLOTS b) (observed env k b)
      = (Ret r, b') ->
    match r with
    | SlotFree =>
        exists j, b' = observed env j b /\ ring_full b' = false
                  /\ (block = false -> j = k)
    | Dropped =>
        block = false /\ ring_full (observed env k b) = true
        /\ b' = Py.store (observed env k b) IDX_DROP_COUNT
                  (Py.int64 ((DROP_COUNT (observed env k b) + 1) mod 2 ^ 64))
    end.
Proof.
  intros Hlen HN. induction fuel as [|fuel IH]; intros k r b' Hw.
  - discriminate.
  - pose proof (observed_num_slots env k b Hlen) as Hn.
    rewrite <- Hn in Hw, HN.
    destruct (ring_full (observed env k b)) eqn:Hfull.
    + destruct block.
      * destruct (match deadline with
                  | Some d => d <=? monotonic env (S k)
                  | None => false
                  end) eqn:Hd.
        { destruct deadline as [d|]; [|discriminate].
          rewrite wait_deadline in Hw by (assumption || lia). discriminate. }
        rewrite wait_sleep in Hw; [|assumption|assumption|].
        2:{ destruct deadline as [d|]; [lia|exact I]. }
        rewrite Hn in Hw. change (snd (sleep env k (observed env k b)))
          with (observed env (S k) b) in Hw.
        specialize (IH _ _ _ Hw). destruct r; [|now destruct IH].
        destruct IH as (j & -> & Hf & _). exists j. repeat split; auto; discriminate.
      * rewrite wait_drop in Hw by assumption. injection Hw as <- <-. auto.
    + rewrite wait_free in Hw by assumption. injection Hw as <- <-.
      exists k. auto.
Qed.

End Waiting.

(** X6: how the operations move the occupancy that [get_stats] reports,
    on a valid segment.  A write that commits a message, in either mode
    and whether or not it had to wait, raises [used_slots] by one over
    the occupancy of the segment as the write last saw it: the segment
    it was given when it did not wait, and otherwise the segment after
    the sleeps of the wait, during which the consumers stored TAIL (only
    slots of the ring, by assumption).  The one exception is an
    overwriting write on a full ring, which takes [used_slots] from
    [num_slots - 1] back to 0.  A rejected write leaves it as it is, at
    [num_slots - 1]; a shared-tail read that returns a message lowers it
    by one. *)
Theorem X6_occupancy_steps :
  forall fuel env b p block timeout overwrite r b',
    valid_segment b = true ->
    (overwrite = false -> block = true ->
     forall k t, consumer env k = Some t -> 0 <= t < NUM_SLOTS b) ->
    write_message fuel env p block timeout overwrite b = (r, b') ->
    (r = Ret true ->
       exists k,
         let seen := observed env k b in
         (overwrite = true \/ block = false -> k = 0%nat)
         /\ valid_segment seen = true
         /\ b' = commit seen p
         /\ used b' = (if used seen =? NUM_SLOTS b - 1 then 0 else used seen + 1)
         /\ (overwrite = false -> used b' = used seen + 1))
    /\ (r = Ret false -> used b' = used b /\ used b = NUM_SLOTS b - 1)
    /\ (forall q b'', read_message_shared_tail b = (Ret (Some q), b'') ->
          used b'' = used b - 1).
Proof.
  intros fuel env b p block timeout overwrite r b' Hv Hcons Hw.
  destruct (valid_ranges b Hv) as (HN & Hh & Ht & Hlen).
  (* every way the write can end *)
  assert (Hcases :
    (r = Ret true /\ Py.len p <= SLOT_SIZE b - 4 /\ Py.len p < 2 ^ 32
       /\ exists k, (overwrite = true \/ block = false -> k = 0%nat)
            /\ valid_segment (observed env k b) = true
            /\ NUM_SLOTS (observed env k b) = NUM_SLOTS b
            /\ SLOT_SIZE (observed env k b) = SLOT_SIZE b
            /\ b' = commit (observed env k b) p
            /\ (overwrite = false -> ring_full (observed env k b) = false))
    \/ (r = Ret false /\ ring_full b = true
        /\ b' = Py.store b IDX_DROP_COUNT (Py.int64 ((DROP_COUNT b + 1) mod 2 ^ 64)))
    \/ (r <> Ret true /\ r <> Ret false)).
  { destruct (Z.lt_ge_cases (SLOT_SIZE b - 4) (Py.len p)) as [Hbig|Hp].
    { rewrite write_message_oversize in Hw by assumption.
      injection Hw as <- <-. right. right. split; discriminate. }
    rewrite write_message_cases in Hw; [|now apply valid_writable|lia].
    destruct overwrite.
    - destruct (Z.ltb_spec (Py.len p) (2 ^ 32)); injection Hw as <- <-.
      + left. repeat split; try assumption; try lia.
        exists 0%nat. cbn [observed]. repeat split; auto; discriminate.
      + right. right. split; discriminate.
    - destruct (wait_for_slot fuel env 0 _ block (NUM_SLOTS b) b)
        as [[w| |] b1] eqn:Hwait.
      + pose proof (wait_outcome env _ block b Hlen ltac:(lia) fuel 0%nat w b1 Hwait)
          as Hout.
        destruct w.
        * destruct Hout as (j & -> & Hfree & Hj).
          assert (Hobs : valid_segment (observed env j b) = true
                         /\ NUM_SLOTS (observed env j b) = NUM_SLOTS b
                         /\ SLOT_SIZE (observed env j b) = SLOT_SIZE b).
          { destruct block.
            - destruct (observed_valid env b Hv (Hcons eq_refl eq_refl) j)
                as (H1 & _ & H2 & H3). auto.
            - rewrite (Hj eq_refl). cbn [observed]. auto. }
          destruct Hobs as (Hvj & Hnj & Hsj).
          destruct (Z.ltb_spec (Py.len p) (2 ^ 32)); injection Hw as <- <-.
          -- left. repeat split; try assumption; try lia.
             exists j. repeat split; auto.
             intros [Ho|Hb]; [discriminate|]. auto.
          -- right. right. split; discriminate.
        * destruct Hout as (_ & Hfull & ->). cbn [observed] in *.
          injection Hw as <- <-. right. left. auto.
      + injection Hw as <- <-. right. right. split; discriminate.
      + injection Hw as <- <-. right. right. split; discriminate. }
  split; [|split].
  - intros ->.
    destruct Hcases as [(_ & Hp & Hp32 & k & Hk & Hvk & Hnk & Hsk & -> & Hnf)
                       |[(E & _)|(E & _)]];
      [|discriminate|congruence].
    exists k. cbv zeta.
    assert (Hu : used (commit (observed env k b) p)
                 = if used (observed env k b) =? NUM_SLOTS b - 1
                   then 0 else used (observed env k b) + 1).
    { rewrite used_commit, Hnk; [reflexivity|assumption|now rewrite Hsk|assumption]. }
    repeat split; try assumption.
    intros Ho. rewrite Hu.
    destruct (Z.eqb_spec (used (observed env k b)) (NUM_SLOTS b - 1)) as [E|E];
      [|reflexivity].
    rewrite <- Hnk in E. apply (ring_full_used _ Hvk) in E.
    rewrite (Hnf Ho) in E. discriminate.
  - intros ->. destruct Hcases as [(E & _)|[(_ & Hfull & ->)|(_ & E)]];
      [discriminate| |congruence].
    destruct (drop_store_valid b (Py.int64 ((DROP_COUNT b + 1) mod 2 ^ 64)) Hv)
      as (_ & HH & HT & HN' & _).
    split; [unfold used; now rewrite HH, HT, HN'|].
    now apply ring_full_used.
  - intros q b'' Hr.
    destruct (Z.eq_dec (TAIL b) (HEAD b)) as [E|E].
    + rewrite shared_tail_empty in Hr by assumption. discriminate.
    + destruct (shared_tail_effect b _ _ HN Hr) as [[_ Hno]|[-> _]].
      * exfalso. now apply (Hno q).
      * now apply used_pull.
Qed.

(** X6 for a blocking write on a full ring of two slots that a consumer
    drains during the first sleep: the write commits at its second look,
    one above the occupancy it saw then. *)
Lemma X6_occupancy_steps_witness :
  let out := write_message 2 draining [Byte.x62] true None false full_ring in
  fst out = Ret true
  /\ exists k,
       snd out = commit (observed draining k full_ring) [Byte.x62]
       /\ used (snd out) = used (observed draining k full_ring) + 1.
Proof.
  intros out.
  assert (Hr : out = (Ret true, snd out)) by (vm_compute; reflexivity).
  assert (Hv : valid_segment full_ring = true) by (vm_compute; reflexivity).
  assert (Hc : false = false -> true = true ->
               forall k t, consumer draining k = Some t ->
                           0 <= t < NUM_SLOTS full_ring).
  { intros _ _ k t. destruct k; cbn; [|discriminate].
    intros [= <-]. vm_compute. split; congruence. }
  split; [now rewrite Hr|].
  destruct (proj1 (X6_occupancy_steps 2 draining full_ring [Byte.x62] true None
                     false (Ret true) (snd out) Hv Hc Hr) eq_refl)
    as (k & Hk & _ & Hb & _ & Hu).
  exists k. split; [exact Hb|]. exact (Hu eq_refl).
Defined.

(** X7: the header invariant.  On a valid segment (MAGIC and VERSION
    right, geometry covered by the memory, HEAD and TAIL inside the ring)
    a write that does not wait (overwriting, or with [block = False])
    leaves the segment valid and its geometry unchanged whatever the
    payload and the outcome, and so does a shared-tail read. *)
Theorem X7_header_stays_valid :
  forall fuel env b p block timeout overwrite,
    valid_segment b = true ->
    overwrite = true \/ block = false ->
    let w := snd (write_message fuel env p block timeout overwrite b) in
    let t := snd (read_message_shared_tail b) in
    valid_segment w = true
    /\ NUM_SLOTS w = NUM_SLOTS b /\ SLOT_SIZE w = SLOT_SIZE b
    /\ Py.len w = Py.len b
    /\ valid_segment t = true
    /\ NUM_SLOTS t = NUM_SLOTS b /\ SLOT_SIZE t = SLOT_SIZE b
    /\ Py.len t = Py.len b.
Proof.
  intros fuel env b p block timeout overwrite Hv Hmode w t.
  destruct (valid_ranges b Hv) as (HN & Hh & Ht & Hlen).
  assert (Hw : valid_segment w = true /\ NUM_SLOTS w = NUM_SLOTS b
               /\ SLOT_SIZE w = SLOT_SIZE b /\ Py.len w = Py.len b).
  { destruct (write_message_effect fuel env b p block timeout overwrite Hv Hmode)
      as [E|[(Hp & Hp32 & E)|(_ & E)]]; fold w in E; rewrite E.
    - auto.
    - destruct (commit_valid b p Hv Hp Hp32) as (Hv' & _ & _ & HN' & HS').
      destruct (commit_spec b p (valid_writable b Hv) Hp Hp32) as (L & _).
      auto.
    - destruct (drop_store_valid b (Py.int64 ((DROP_COUNT b + 1) mod 2 ^ 64)) Hv)
        as (Hv' & _ & _ & HN' & HS').
      repeat split; try assumption.
      apply len_store_hdr; [cbv; lia|exact Hlen]. }
  assert (Hr : valid_segment t = true /\ NUM_SLOTS t = NUM_SLOTS b
               /\ SLOT_SIZE t = SLOT_SIZE b /\ Py.len t = Py.len b).
  { destruct (read_message_shared_tail b) as [r b'] eqn:Hread.
    destruct (shared_tail_effect b r b' HN Hread) as [[E _]|[E _]];
      unfold t; cbn [snd]; rewrite E.
    - auto.
    - pose proof (Z.mod_pos_bound (TAIL b + 1) (NUM_SLOTS b) HN) as Hrange.
      destruct (tail_store_valid b _ Hv Hrange) as (Hv' & _ & _ & HN' & HS').
      repeat split; try assumption.
      apply len_store_hdr; [cbv; lia|exact Hlen]. }
  tauto.
Qed.

(** X7 on a ring of four slots holding three messages, for a rejected
    write and a shared-tail read. *)
Lemma X7_header_stays_valid_witness :
  valid_segment backlog = true
  /\ valid_segment (snd (write_message 1 quiet [Byte.x09] false None false backlog)) = true
  /\ valid_segment (snd (read_message_shared_tail backlog)) = true.
Proof.
  assert (Hv : valid_segment backlog = true) by (vm_compute; reflexivity).
  pose proof (X7_header_stays_valid 1 quiet backlog [Byte.x09] false None false
                Hv (or_intror eq_refl)) as H.
  cbv zeta in H. tauto.
Defined.

(** ** A request/reply channel over its lifetime *)

Section Lifetime.

Implicit Types (b p : bytes).

Lemma run_spsc_results env : forall ops b,
  valid_segment b = true -> TAIL b = 0 ->
  Forall (fun m => Py.len m <= SLOT_SIZE b - 4 /\ Py.len m < 2 ^ 32) (sends ops) ->
  fst (run_spsc env ops b)
  = repeat true (length (sends ops) `min` Z.to_nat (NUM_SLOTS b - 1 - HEAD b))
    ++ repeat false (length (sends ops) - Z.to_nat (NUM_SLOTS b - 1 - HEAD b)).
Proof.
  induction ops as [|[p|t] ops IH]; intros b Hv Ht0 Hlegal.
  - reflexivity.
  - cbn [sends omap] in Hlegal. cbn [sends omap length run_spsc].
    fold (sends ops) in *.
    apply Forall_cons in Hlegal as [[Hp Hp32] Hlegal].
    destruct (valid_ranges b Hv) as (HN & Hh & _ & Hlen).
    assert (Hu : used b = HEAD b)
      by (unfold used; rewrite Ht0, Z.sub_0_r; apply Z.mod_small; lia).
    destruct (Z.eq_dec (HEAD b) (NUM_SLOTS b - 1)) as [Hfull|Hroom].
    + (* full: the send is rejected *)
      assert (Hf : ring_full b = true) by (apply ring_full_used; [exact Hv|lia]).
      rewrite write_message_cases; [|now apply valid_writable|exact Hp].
      rewrite wait_drop by (lia || exact Hf).
      destruct (drop_store_valid b (Py.int64 ((DROP_COUNT b + 1) mod 2 ^ 64)) Hv)
        as (Hv' & HH & HT & HN' & HS').
      specialize (IH _ Hv' ltac:(congruence) ltac:(now rewrite HS')).
      destruct (run_spsc env ops _) as [oks b''] eqn:Hrun. cbn [fst] in *.
      rewrite IH, HH, HN', Hfull.
      replace (Z.to_nat (NUM_SLOTS b - 1 - (NUM_SLOTS b - 1))) with 0%nat by lia.
      rewrite !Nat.min_0_r, !Nat.sub_0_r. reflexivity.
    + (* room: the send commits *)
      rewrite write_message_room by (assumption || lia).
      destruct (commit_valid b p Hv Hp Hp32) as (Hv' & HH & HT & HN' & HS').
      specialize (IH _ Hv' ltac:(congruence) ltac:(now rewrite HS')).
      destruct (run_spsc env ops _) as [oks b''] eqn:Hrun. cbn [fst] in *.
      rewrite IH, HH, HN', Z.mod_small by lia.
      replace (Z.to_nat (NUM_SLOTS b - 1 - HEAD b))
        with (S (Z.to_nat (NUM_SLOTS b - 1 - (HEAD b + 1)))) by lia.
      reflexivity.
  - cbn [sends omap] in Hlegal. cbn [sends omap run_spsc].
    fold (sends ops) in *. rewrite read_spsc_pure. now apply IH.
Qed.

End Lifetime.

(** X8: a request/reply channel carries [NUM_SLOTS - 1] messages over its
    whole lifetime.  From the header that [_init_header] writes, however
    the producer's sends ([write_message] with the defaults [block=False],
    [overwrite=False]) are interleaved with the consumer's private-cursor
    reads, the first [NUM_SLOTS - 1] sends return [True] and every later
    send returns [False]: the private-cursor read never advances TAIL, so
    reading frees no slot. *)
Theorem X8_spsc_channel_lifetime :
  forall env N S buf b0 ops,
    _init_header N S buf = (Ret tt, b0) ->
    segment_size N S <= Py.len buf ->
    1 <= N -> 0 <= S ->
    Forall (fun m => Py.len m <= S - 4 /\ Py.len m < 2 ^ 32) (sends ops) ->
    fst (run_spsc env ops b0)
    = repeat true (length (sends ops) `min` Z.to_nat (N - 1))
      ++ repeat false (length (sends ops) - Z.to_nat (N - 1)).
Proof.
  intros env N S buf b0 ops Hinit Hsz HN HS Hlegal.
  pose proof (init_header_valid _ _ _ _ Hinit Hsz ltac:(lia) HS) as Hv.
  apply init_header_spec in Hinit
    as (_ & _ & _ & _ & Hh & Ht & _ & _ & HN' & HS').
  rewrite run_spsc_results; [|exact Hv|exact Ht|now rewrite HS'].
  rewrite Hh, HN', Z.sub_0_r. reflexivity.
Qed.

(** X8 on a channel of three slots: of four sends, with reads of every
    message in between, the first two succeed. *)
Lemma X8_spsc_channel_lifetime_witness :
  let ops := [Send [Byte.x01]; Recv 0; Send [Byte.x02]; Recv 1;
              Send [Byte.x03]; Recv 2; Send [Byte.x04]] in
  _init_header 3 8 (zeros (segment_size 3 8)) = (Ret tt, fresh_ring 3 8)
  /\ fst (run_spsc quiet ops (fresh_ring 3 8)) = [true; true; false; false].
Proof.
  intros ops.
  assert (H1 : _init_header 3 8 (zeros (segment_size 3 8)) = (Ret tt, fresh_ring 3 8))
    by (vm_compute; reflexivity).
  split; [exact H1|].
  apply (X8_spsc_channel_lifetime quiet 3 8 (zeros (segment_size 3 8))
           (fresh_ring 3 8) ops H1).
  - vm_compute. congruence.
  - lia.
  - lia.
  - repeat constructor; vm_compute; congruence.
Defined.

(** ** Polling *)

Section Polling.

Context {Σ A : Type}.
Variables (env : Env) (pause : nat -> Σ -> Σ) (check_fn : St Σ (pyval A)).

Lemma poll_loop_step fuel deadline poll k s :
  poll_loop env pause check_fn (S fuel) deadline poll k s
  = match check_fn s with
    | (Ret (PyVal a), s') => (Ret (PyVal a), s')
    | (Ret _, s') =>
        if reached env deadline k then (Ret PyNone, s')
        else if poll <? 0
        then (Raise (Exn ValueError "sleep length must be non-negative"), s')
        else poll_loop env pause check_fn fuel deadline poll (S k) (pause k s')
    | (Raise e, s') => (Raise e, s')
    | (Diverge, s') => (Diverge, s')
    end.
Proof.
  cbn [poll_loop]. unfold bind at 1, reached.
  destruct (check_fn s) as [[[| |a]| |] s']; try reflexivity;
    (destruct (match deadline with Some d => d <=? monotonic env (S k) | None => false end);
     [reflexivity|]; destruct (poll <? 0); reflexivity).
Qed.

Lemma poll_loop_value fuel deadline poll k s a s' :
  check_fn s = (Ret (PyVal a), s') ->
  poll_loop env pause check_fn (S fuel) deadline poll k s = (Ret (PyVal a), s').
Proof. intros H. now rewrite poll_loop_step, H. Qed.

Lemma poll_loop_raise fuel deadline poll k s e s' :
  check_fn s = (Raise e, s') ->
  poll_loop env pause check_fn (S fuel) deadline poll k s = (Raise e, s').
Proof. intros H. now rewrite poll_loop_step, H. Qed.

Lemma poll_loop_timeout fuel deadline poll k s x s' :
  check_fn s = (Ret x, s') -> nothing x -> reached env deadline k = true ->
  poll_loop env pause check_fn (S fuel) deadline poll k s = (Ret PyNone, s').
Proof.
  intros H Hx Hd. rewrite poll_loop_step, H, Hd.
  destruct x as [| |a]; [reflexivity|reflexivity|now destruct (Hx a)].
Qed.

Lemma poll_loop_sleep fuel deadline poll k s x s' :
  check_fn s = (Ret x, s') -> nothing x -> reached env deadline k = false ->
  0 <= poll ->
  poll_loop env pause check_fn (S fuel) deadline poll k s
  = poll_loop env pause check_fn fuel deadline poll (S k) (pause k s').
Proof.
  intros H Hx Hd Hp. rewrite poll_loop_step, H, Hd.
  destruct (Z.ltb_spec poll 0); [lia|].
  destruct x as [| |a]; [reflexivity|reflexivity|now destruct (Hx a)].
Qed.

Lemma poll_loop_negative fuel deadline poll k s x s' :
  check_fn s = (Ret x, s') -> nothing x -> reached env deadline k = false ->
  poll < 0 ->
  poll_loop env pause check_fn (S fuel) deadline poll k s
  = (Raise (Exn ValueError "sleep length must be non-negative"), s').
Proof.
  intros H Hx Hd Hp. rewrite poll_loop_step, H, Hd.
  destruct (Z.ltb_spec poll 0); [|lia].
  destruct x as [| |a]; [reflexivity|reflexivity|now destruct (Hx a)].
Qed.

(** What a returning loop returns: the result of its last check, [False]
    turned into [None], in the state that check left. *)
Lemma poll_loop_result : forall fuel deadline poll k s r s',
  poll_loop env pause check_fn fuel deadline poll k s = (Ret r, s') ->
  (exists s0 x, check_fn s0 = (Ret x, s')
     /\ r = match x with PyVal a => PyVal a | _ => PyNone end)
  /\ (r = PyNone -> exists j, reached env deadline j = true).
Proof.
  induction fuel as [|fuel IH]; intros deadline poll k s r s' H.
  - discriminate.
  - rewrite poll_loop_step in H.
    destruct (check_fn s) as [[x| |] s1] eqn:Hc; try discriminate.
    destruct x as [| |a].
    + destruct (reached env deadline k) eqn:Hd.
      * injection H as <- <-. split; [|eauto]. exists s, PyNone. now rewrite Hc.
      * destruct (poll <? 0); [discriminate|]. now apply IH in H.
    + destruct (reached env deadline k) eqn:Hd.
      * injection H as <- <-. split; [|eauto]. exists s, PyFalse. now rewrite Hc.
      * destruct (poll <? 0); [discriminate|]. now apply IH in H.
    + injection H as <- <-. split; [|discriminate]. exists s, (PyVal a). now rewrite Hc.
Qed.

(** [n] rounds in which the check gives nothing and the deadline is not
    reached are [n] sleeps. *)
Lemma poll_loop_idle deadline poll s : forall n fuel,
  0 <= poll ->
  (forall i, (i < n)%nat ->
     exists x, fst (check_fn (idle pause check_fn i s)) = Ret x /\ nothing x) ->
  (forall i, (i < n)%nat -> reached env deadline i = false) ->
  poll_loop env pause check_fn (n + fuel) deadline poll 0 s
  = poll_loop env pause check_fn fuel deadline poll n (idle pause check_fn n s).
Proof.
  induction n as [|n IH]; intros fuel Hp Hidle Hd.
  - reflexivity.
  - replace (S n + fuel)%nat with (n + S fuel)%nat by lia.
    rewrite IH by (auto with lia).
    destruct (Hidle n ltac:(lia)) as (x & Hx & Hn).
    destruct (check_fn (idle pause check_fn n s)) as [r s1] eqn:Hc.
    cbn [fst] in Hx. subst r.
    rewrite (poll_loop_sleep _ _ _ _ _ _ _ Hc Hn (Hd n ltac:(lia)) Hp).
    cbn [idle]. now rewrite Hc.
Qed.

End Polling.

(** X9: the non-blocking poll.  With a timeout of zero (or less) and a
    clock that does not run backwards, [poll_until] calls [check_fn]
    exactly once and does not sleep: it returns what the call returned,
    [None] for [False], in the state the call left, and an exception of
    the call propagates.  The poll interval plays no part. *)
Theorem X9_poll_until_zero_timeout :
  forall (Σ A : Type) env pause (check_fn : St Σ (pyval A)) fuel timeout poll s,
    timeout <= 0 ->
    monotonic env 0 <= monotonic env 1 ->
    poll_until env pause check_fn (S fuel) (Some timeout) poll s
    = match check_fn s with
      | (Ret (PyVal a), s') => (Ret (PyVal a), s')
      | (Ret _, s') => (Ret PyNone, s')
      | other => other
      end.
Proof.
  intros Σ A env pause check_fn fuel timeout poll s Ht Hclock.
  unfold poll_until. cbn [option_map]. rewrite poll_loop_step.
  assert (Hd : reached env (Some (monotonic env 0 + timeout)) 0 = true)
    by (cbn [reached]; lia).
  rewrite Hd.
  destruct (check_fn s) as [[[| |a]| |] s']; reflexivity.
Qed.

(** X9 with a check that counts its calls and always answers [False],
    and a negative poll interval: one call, [None]. *)
Lemma X9_poll_until_zero_timeout_witness :
  poll_until ticking (fun _ s => s) (fun s : nat => (Ret (@PyFalse nat), S s))
    3 (Some 0) (-1) 0%nat
  = (Ret PyNone, 1%nat).
Proof.
  exact (X9_poll_until_zero_timeout nat nat ticking (fun _ s => s)
           (fun s : nat => (Ret (@PyFalse nat), S s)) 2 0 (-1) 0%nat
           ltac:(lia) ltac:(cbn; lia)).
Defined.

(** X10: what [poll_until] can return.  It never returns [False]; what it
    returns is the result of its last call of [check_fn], with [None] for
    [False], and the state is as that call left it (no sleep follows the
    last call); it returns [None] only when a timeout was given and a
    clock reading reached the deadline, so with [timeout = None] it never
    returns [None]. *)
Theorem X10_poll_until_result :
  forall (Σ A : Type) env pause (check_fn : St Σ (pyval A)) fuel timeout poll s r s',
    poll_until env pause check_fn fuel timeout poll s = (Ret r, s') ->
    r <> PyFalse
    /\ (exists s0 x, check_fn s0 = (Ret x, s')
          /\ r = match x with PyVal a => PyVal a | _ => PyNone end)
    /\ (r = PyNone ->
        exists t j, timeout = Some t /\ monotonic env 0 + t <= monotonic env (S j)).
Proof.
  intros Σ A env pause check_fn fuel timeout poll s r s' H.
  unfold poll_until in H. apply poll_loop_result in H as [(s0 & x & Hc & Hr) Hnone].
  split; [|split].
  - rewrite Hr. now destruct x.
  - eauto.
  - intros E. destruct (Hnone E) as [j Hj].
    destruct timeout as [t|]; [|discriminate].
    exists t, j. split; [reflexivity|]. cbn in Hj. lia.
Qed.

(** X10 with a check that counts its calls and always answers [False], a
    clock that advances 50 microseconds per reading and a timeout of 120:
    the third reading ends the loop. *)
Lemma X10_poll_until_result_witness :
  let check := fun s : nat => (Ret (@PyFalse nat), S s) in
  poll_until ticking (fun _ s => s) check 5 (Some 120) 100 0%nat = (Ret PyNone, 3%nat)
  /\ exists t j, Some 120 = Some t /\ monotonic ticking 0 + t <= monotonic ticking (S j).
Proof.
  intros check.
  assert (H : poll_until ticking (fun _ s => s) check 5 (Some 120) 100 0%nat
              = (Ret PyNone, 3%nat)) by (vm_compute; reflexivity).
  split; [exact H|].
  exact (proj2 (proj2 (X10_poll_until_result nat nat ticking (fun _ s => s) check
                         5 (Some 120) 100 0%nat PyNone 3%nat H)) eq_refl).
Defined.

(** X11: waiting.  Let the first [n] calls of [check_fn] give nothing
    ([None] or [False]) while the clock stays short of the deadline, each
    followed by one sleep of a non-negative [poll_interval].  Then, with
    fuel for one more round, the [n+1]-th call decides: its value is
    returned; its exception propagates; and if it gives nothing while the
    clock has reached the deadline, [None] is returned.  When
    [poll_interval] is negative the first round that would sleep raises
    [ValueError] instead. *)
Theorem X11_poll_until_waits :
  forall (Σ A : Type) env pause (check_fn : St Σ (pyval A)) n fuel timeout poll s,
    (n < fuel)%nat ->
    (forall i, (i < n)%nat ->
       exists x, fst (check_fn (idle pause check_fn i s)) = Ret x /\ nothing x) ->
    (forall i t, (i < n)%nat -> timeout = Some t ->
       monotonic env (S i) < monotonic env 0 + t) ->
    let sn := idle pause check_fn n s in
    (0 <= poll ->
       (forall a s', check_fn sn = (Ret (PyVal a), s') ->
          poll_until env pause check_fn fuel timeout poll s = (Ret (PyVal a), s'))
       /\ (forall e s', check_fn sn = (Raise e, s') ->
          poll_until env pause check_fn fuel timeout poll s = (Raise e, s'))
       /\ (forall x s' t, check_fn sn = (Ret x, s') -> nothing x ->
          timeout = Some t -> monotonic env 0 + t <= monotonic env (S n) ->
          poll_until env pause check_fn fuel timeout poll s = (Ret PyNone, s')))
    /\ (poll < 0 -> (0 < n)%nat ->
        exists e s',
          poll_until env pause check_fn fuel timeout poll s = (Raise e, s')
          /\ exn_class e = ValueError
          /\ s' = snd (check_fn s)).
Proof.
  intros Σ A env pause check_fn n fuel timeout poll s Hfuel Hidle Hclock sn.
  assert (Hd : forall i, (i < n)%nat ->
            reached env (option_map (fun t => monotonic env 0 + t) timeout) i = false).
  { intros i Hi. destruct timeout as [t|]; [|reflexivity].
    cbn. specialize (Hclock i t Hi eq_refl). lia. }
  split.
  - intros Hp.
    assert (E : poll_until env pause check_fn fuel timeout poll s
                = poll_loop env pause check_fn (fuel - n)
                    (option_map (fun t => monotonic env 0 + t) timeout) poll n sn).
    { unfold poll_until. replace fuel with (n + (fuel - n))%nat at 1 by lia.
      now apply poll_loop_idle. }
    rewrite E. destruct (fuel - n)%nat as [|f] eqn:Hf; [lia|].
    split; [|split].
    + intros a s' Hc. now apply poll_loop_value.
    + intros e s' Hc. now apply poll_loop_raise.
    + intros x s' t Hc Hx -> Hreach. apply (poll_loop_timeout _ _ _ _ _ _ _ _ x); auto.
      cbn. lia.
  - intros Hp Hn.
    destruct (Hidle 0%nat Hn) as (x & Hx & Hnot). cbn [idle] in Hx.
    destruct (check_fn s) as [r s1] eqn:Hc. cbn [fst] in Hx. subst r.
    destruct fuel as [|fuel]; [lia|].
    eexists. exists s1. unfold poll_until.
    rewrite (poll_loop_negative _ _ _ _ _ _ _ _ _ _ Hc Hnot (Hd 0%nat Hn) Hp).
    repeat split.
Qed.

(** X11 with a check that answers [None] twice and then its call count,
    under no timeout. *)
Lemma X11_poll_until_waits_witness :
  let check := fun s : nat =>
    (Ret (if (s <? 2)%nat then PyNone else PyVal s), S s) in
  poll_until quiet (fun _ s => s) check 3 None 100 0%nat = (Ret (PyVal 2%nat), 3%nat).
Proof.
  intros check.
  refine (proj1 (proj1 (X11_poll_until_waits nat nat quiet (fun _ s => s) check
                          2 3 None 100 0%nat _ _ _) _) 2%nat 3%nat _).
  - lia.
  - intros i Hi. exists PyNone. split; [|intros a; discriminate].
    destruct i as [|[|i]]; [reflexivity|reflexivity|lia].
  - intros i t _ [=].
  - lia.
  - reflexivity.
Defined.

(** ** Serialization both ways *)

Section Decoding.

Context {Obj : Type} (codec : Serialize.Codec Obj) (dec : Serialize.Decoder Obj).

(** Every class of [pyclass] derives from [Exception]. *)
Lemma isinstance_Exception e : isinstance e Exception = true.
Proof. destruct e as [[] msg]; reflexivity. Qed.

(** Whatever [deserialize] raises is an [SHMSerializationError]. *)
Lemma deserialize_raises data method e :
  Serialize.deserialize codec dec data method = Raise e ->
  exn_class e = SHMSerializationError.
Proof.
  unfold Serialize.deserialize.
  destruct (String.eqb method "pickle").
  { destruct (Serialize.pickle_loads dec data) as [v|exc|]; try discriminate.
    rewrite isinstance_Exception. now intros [= <-]. }
  destruct (String.eqb method "msgpack"); [|now intros [= <-]].
  destruct (negb (Serialize._MSGPACK_AVAILABLE codec)); [now intros [= <-]|].
  destruct (Serialize.msgpack_unpackb dec data) as [v|exc|]; try discriminate.
  rewrite isinstance_Exception. now intros [= <-].
Qed.


End Decoding.

(** ** Receiving on a private cursor *)

Section Receiving.

Implicit Types (b p : bytes) (self : Subscriber.t).

Lemma try_recv_bytes_empty self b :
  valid_segment b = true -> Subscriber._tail self = HEAD b ->
  Subscriber._try_recv_bytes (self, b) = (Ret PyNone, (self, b)).
Proof.
  intros Hv Ht. destruct (valid_ranges b Hv) as (_ & _ & _ & Hlen).
  unfold Subscriber._try_recv_bytes. now rewrite Ht, read_spsc_empty.
Qed.

Lemma try_recv_bytes_holds self b p :
  valid_segment b = true -> Subscriber._tail self <> HEAD b ->
  holds b (SLOT_SIZE b) (Subscriber._tail self) p ->
  Subscriber._try_recv_bytes (self, b)
  = (Ret (PyVal p),
     (Subscriber.set_tail self ((Subscriber._tail self + 1) mod NUM_SLOTS b), b)).
Proof.
  intros Hv Ht Hp. destruct (valid_ranges b Hv) as (HN & _ & _ & Hlen).
  unfold Subscriber._try_recv_bytes.
  now rewrite (read_spsc_holds b _ p) by (assumption || lia).
Qed.

Lemma try_recv_empty {Obj} (codec : Serialize.Codec Obj) dec self b :
  valid_segment b = true -> Subscriber._tail self = HEAD b ->
  Subscriber._try_recv codec dec (self, b) = (Ret PyNone, (self, b)).
Proof.
  intros Hv Ht. destruct (valid_ranges b Hv) as (_ & _ & _ & Hlen).
  unfold Subscriber._try_recv. now rewrite Ht, read_spsc_empty.
Qed.

Lemma try_recv_holds {Obj} (codec : Serialize.Codec Obj) dec self b p :
  valid_segment b = true -> Subscriber._tail self <> HEAD b ->
  holds b (SLOT_SIZE b) (Subscriber._tail self) p ->
  Subscriber._try_recv codec dec (self, b)
  = (Serialize.deserialize codec dec p (Subscriber._serialization self),
     (Subscriber.set_tail self ((Subscriber._tail self + 1) mod NUM_SLOTS b), b)).
Proof.
  intros Hv Ht Hp. destruct (valid_ranges b Hv) as (HN & _ & _ & Hlen).
  unfold Subscriber._try_recv.
  now rewrite (read_spsc_holds b _ p) by (assumption || lia).
Qed.

End Receiving.



(** X13: [Subscriber.recv_bytes] on a valid segment.  If a message is in
    the slot at the private cursor it is returned at once whatever the
    timeout, the empty message included, and the cursor moves one slot
    on; if the cursor is at HEAD a poll with timeout 0 returns [None] and
    moves nothing; and a subscriber that waits without timeout at HEAD
    returns the message an overwriting write publishes during its first
    sleep.  The memory is never written by the subscriber. *)
Theorem X13_subscriber_recv_bytes :
  forall fuel env world self b,
    valid_segment b = true ->
    (forall p timeout,
       Subscriber._tail self <> HEAD b ->
       holds b (SLOT_SIZE b) (Subscriber._tail self) p ->
       Subscriber.recv_bytes (S fuel) env world timeout (self, b)
       = (Ret (PyVal p),
          (Subscriber.set_tail self ((Subscriber._tail self + 1) mod NUM_SLOTS b), b)))
    /\ (forall timeout,
       Subscriber._tail self = HEAD b ->
       timeout <= 0 -> monotonic env 0 <= monotonic env 1 ->
       Subscriber.recv_bytes (S fuel) env world (Some timeout) (self, b)
       = (Ret PyNone, (self, b)))
    /\ (forall p,
       Subscriber._tail self = HEAD b ->
       Py.len p <= SLOT_SIZE b - 4 -> Py.len p < 2 ^ 32 -> 1 < NUM_SLOTS b ->
       world 0%nat b = snd (write_message 1 env p false None true b) ->
       Subscriber.recv_bytes (S (S fuel)) env world None (self, b)
       = (Ret (PyVal p),
          (Subscriber.set_tail self ((HEAD b + 1) mod NUM_SLOTS b), world 0%nat b))).
Proof.
  intros fuel env world self b Hv. split; [|split].
  - intros p timeout Ht Hp. unfold Subscriber.recv_bytes, poll_until.
    apply poll_loop_value. now apply try_recv_bytes_holds.
  - intros timeout Ht Hto Hclock. unfold Subscriber.recv_bytes, poll_until.
    apply (poll_loop_timeout _ _ _ _ _ _ _ _ PyNone).
    + now apply try_recv_bytes_empty.
    + intros a. discriminate.
    + cbn. lia.
  - intros p Ht Hp Hp32 HN Hworld.
    rewrite write_message_over in Hworld by assumption. cbn [snd] in Hworld.
    destruct (commit_valid b p Hv Hp Hp32) as (Hv' & HH & HT & HN' & HS').
    destruct (commit_spec b p (valid_writable b Hv) Hp Hp32)
      as (_ & _ & _ & _ & Hholds & _).
    destruct (valid_ranges b Hv) as (_ & Hh & _ & _).
    unfold Subscriber.recv_bytes, poll_until. cbn [option_map].
    rewrite (poll_loop_sleep _ _ _ (S fuel) _ _ _ _ PyNone (self, b));
      [|now apply try_recv_bytes_empty|intros a; discriminate|reflexivity
       |unfold poll_until_poll_interval; lia].
    cbn [Subscriber.others]. rewrite Hworld.
    assert (Hne : Subscriber._tail self <> HEAD (commit b p)).
    { rewrite Ht, HH. intros E.
      destruct (Z.eq_dec (HEAD b + 1) (NUM_SLOTS b)) as [E'|E'].
      - rewrite E', Z.mod_same in E by lia. lia.
      - rewrite Z.mod_small in E by lia. lia. }
    rewrite (poll_loop_value _ _ _ _ _ _ _ _ p
               (Subscriber.set_tail self ((Subscriber._tail self + 1)
                                          mod NUM_SLOTS (commit b p)), commit b p)).
    + now rewrite HN', Ht.
    + apply try_recv_bytes_holds; [exact Hv'|exact Hne|].
      now rewrite HS', Ht.
Qed.

(** X13 for the subscriber at slot 0 of a ring holding three messages. *)
Lemma X13_subscriber_recv_bytes_witness :
  valid_segment backlog = true
  /\ Subscriber.recv_bytes 1 quiet (fun _ b => b) None (subscriber_c1, backlog)
     = (Ret (PyVal [Byte.x01]), (Subscriber.set_tail subscriber_c1 1, backlog)).
Proof.
  assert (Hv : valid_segment backlog = true) by (vm_compute; reflexivity).
  split; [exact Hv|].
  refine (proj1 (X13_subscriber_recv_bytes 0 quiet (fun _ b => b) subscriber_c1
                   backlog Hv) [Byte.x01] None _ _).
  - vm_compute. congruence.
  - repeat split; vm_compute; congruence.
Defined.

(** X14: [Subscriber.recv] moves the cursor before it deserializes.  With
    a message in the slot at the private cursor of a valid segment, the
    cursor moves one slot on in every case: when the message decodes to
    an object other than [None] and [False] the object is returned; when
    [deserialize] raises, the [SHMSerializationError] propagates and the
    message is skipped; and when the message decodes to [None] or [False]
    it is consumed without being delivered, so that a poll with timeout 0
    returns [None]. *)
Theorem X14_subscriber_recv :
  forall Obj (codec : Serialize.Codec Obj) (dec : Serialize.Decoder Obj)
         fuel env world self b p,
    valid_segment b = true ->
    Subscriber._tail self <> HEAD b ->
    holds b (SLOT_SIZE b) (Subscriber._tail self) p ->
    let moved :=
      (Subscriber.set_tail self ((Subscriber._tail self + 1) mod NUM_SLOTS b), b) in
    let decoded :=
      Serialize.deserialize codec dec p (Subscriber._serialization self) in
    (forall o timeout, decoded = Ret (PyVal o) ->
       Subscriber.recv codec dec (S fuel) env world timeout (self, b)
       = (Ret (PyVal o), moved))
    /\ (forall e timeout, decoded = Raise e ->
       Subscriber.recv codec dec (S fuel) env world timeout (self, b)
       = (Raise e, moved)
       /\ exn_class e = SHMSerializationError)
    /\ (forall x timeout, decoded = Ret x -> nothing x ->
       timeout <= 0 -> monotonic env 0 <= monotonic env 1 ->
       Subscriber.recv codec dec (S fuel) env world (Some timeout) (self, b)
       = (Ret PyNone, moved)).
Proof.
  intros Obj codec dec fuel env world self b p Hv Ht Hp moved decoded.
  pose proof (try_recv_holds codec dec self b p Hv Ht Hp) as Hc.
  fold moved decoded in Hc.
  split; [|split].
  - intros o timeout Hd. unfold Subscriber.recv, poll_until.
    apply poll_loop_value. now rewrite Hc, Hd.
  - intros e timeout Hd. split.
    + unfold Subscriber.recv, poll_until.
      apply poll_loop_raise. now rewrite Hc, Hd.
    + exact (deserialize_raises codec dec _ _ _ Hd).
  - intros x timeout Hd Hx Hto Hclock. unfold Subscriber.recv, poll_until.
    apply (poll_loop_timeout _ _ _ _ _ _ _ _ x).
    + now rewrite Hc, Hd.
    + exact Hx.
    + cbn. lia.
Qed.

(** X14 for the subscriber at slot 0 of a ring whose first message the
    decoder reads as [False]: the poll returns [None] and the cursor is
    at slot 1. *)
Lemma X14_subscriber_recv_witness :
  Serialize.deserialize toy_codec toy_decoder [Byte.x01] "pickle" = Ret PyFalse
  /\ Subscriber.recv toy_codec toy_decoder 1 quiet (fun _ b => b) (Some 0)
       (subscriber_c1, backlog)
     = (Ret PyNone, (Subscriber.set_tail subscriber_c1 1, backlog)).
Proof.
  assert (Hd : Serialize.deserialize toy_codec toy_decoder [Byte.x01] "pickle"
               = Ret PyFalse) by reflexivity.
  split; [exact Hd|].
  refine (proj2 (proj2 (X14_subscriber_recv nat toy_codec toy_decoder 0 quiet
                          (fun _ b => b) subscriber_c1 backlog [Byte.x01] _ _ _))
            PyFalse 0 Hd _ _ _).
  - vm_compute. reflexivity.
  - vm_compute. congruence.
  - repeat split; vm_compute; congruence.
  - intros a. discriminate.
  - lia.
  - cbn. lia.
Defined.

(** ** Segment names *)



(** ** Creating and destroying segments *)

Section Segments.

Implicit Types (s : Proc) (host : Host) (nm : string).

Lemma openable_spec host nm s :
  openable host nm s = true <-> nm ∈ linked s /\ denies host nm = None.
Proof.
  unfold openable. rewrite andb_true_iff, bool_decide_eq_true.
  destruct (denies host nm); split; intros [H1 H2]; split; congruence.
Qed.


Lemma stale_spec host nm s :
  try_except
    (stale <- SharedMemory_attach host nm ;;
     SharedMemory_close stale ;;;
     SharedMemory_unlink stale)
    (fun exc => if isinstance exc FileNotFoundError then ret tt else ret tt) s
  = (Ret tt,
     if openable host nm s
     then {| linked := linked s ∖ {[nm]}; mapped := mapped s |}
     else s).
Proof.
  unfold openable, try_except, bind, SharedMemory_attach, SharedMemory_close,
    SharedMemory_unlink, ret.
  destruct (decide (nm ∈ linked s)) as [Hin|Hout].
  - rewrite bool_decide_eq_true_2 by assumption. cbn [andb].
    destruct (denies host nm) as [e|].
    + now destruct (isinstance e FileNotFoundError).
    + cbn [linked mapped name shm_id].
      destruct (decide (nm ∈ linked s)); [|contradiction].
      do 2 f_equal. pose proof (is_fresh (mapped s)). set_solver.
  - rewrite bool_decide_eq_false_2 by assumption. reflexivity.
Qed.

Lemma len_zeros n : 0 <= n -> Py.len (zeros n) = n.
Proof. intros. unfold Py.len, zeros. rewrite repeat_length. lia. Qed.

Lemma init_header_ok N S buf :
  HEADER_SIZE <= Py.len buf -> Py.in_int64 N = true -> Py.in_int64 S = true ->
  exists b0, _init_header N S buf = (Ret tt, b0).
Proof.
  intros Hlen HN HS.
  unfold _init_header, bind, _make_header_array, Py.setitem.
  destruct (Z.ltb_spec (Py.len buf) HEADER_SIZE); [lia|].
  change (Py.in_int64 MAGIC) with true. change (Py.in_int64 VERSION) with true.
  change (Py.in_int64 0) with true. cbv iota. rewrite HN, HS. eauto.
Qed.



(** [create_segment] when a stale segment of the name is there and
    cannot be opened: the cleanup fails, the name is still taken, and
    nothing changes. *)
Lemma create_segment_blocked host nm N S s e0 :
  nm ∈ linked s -> denies host nm = Some e0 ->
  create_segment host nm N S s
  = (Raise (Exn SHMConnectionError "Failed to create shared memory"), s).
Proof.
  intros Hin Hden. unfold create_segment. unfold bind at 1.
  rewrite stale_spec.
  assert (Hop : openable host nm s = false).
  { unfold openable. rewrite Hden. apply andb_false_r. }
  rewrite Hop. unfold bind, try_except, SharedMemory_create, raise.
  destruct (segment_size N S <? 0); [reflexivity|].
  destruct (segment_size N S =? 0); [reflexivity|].
  destruct (decide (nm ∈ linked s)); [reflexivity|contradiction].
Qed.

(** [create_segment] when no stale segment is in the way: there is none,
    or it can be opened and is destroyed. *)
Lemma create_segment_clean host nm N S s :
  (nm ∈ linked s -> denies host nm = None) ->
  create_segment host nm N S s
  = let s0 := {| linked := linked s ∖ {[nm]}; mapped := mapped s |} in
    let made := {| linked := linked s ∪ {[nm]}; mapped := mapped s |} in
    let refused := Raise (Exn SHMConnectionError "Failed to create shared memory") in
    if segment_size N S <=? 0 then (refused, s0)
    else if 2 ^ 63 <=? segment_size N S then (refused, made)
    else match refuses host nm (segment_size N S) with
         | Some e => if isinstance e OSError then (refused, s0) else (refused, made)
         | None =>
             let id := fresh (mapped s) in
             let s1 := {| linked := linked s ∪ {[nm]}; mapped := mapped s ∪ {[id]} |} in
             match _init_header N S (zeros (segment_size N S)) with
             | (Ret _, b) => (Ret {| shm_id := id; name := nm; buf := b |}, s1)
             | (Raise e, _) => (Raise e, s1)
             | (Diverge, _) => (Diverge, s1)
             end
         end.
Proof.
  intros Hopen. unfold create_segment. unfold bind at 1.
  rewrite stale_spec.
  assert (Hs0 : (if openable host nm s
                 then {| linked := linked s ∖ {[nm]}; mapped := mapped s |}
                 else s)
                = {| linked := linked s ∖ {[nm]}; mapped := mapped s |}).
  { destruct (openable host nm s) eqn:Hop; [reflexivity|].
    assert (Hout : nm ∉ linked s).
    { intros Hin. apply not_true_iff_false in Hop. apply Hop.
      apply openable_spec. auto. }
    destruct s as [l m]. cbn in *. f_equal. set_solver. }
  rewrite Hs0. cbv zeta.
  unfold bind, try_except, SharedMemory_create, raise. cbn [linked mapped].
  assert (E : linked s ∖ {[nm]} ∪ {[nm]} = linked s ∪ {[nm]}).
  { apply set_eq. intros x. destruct (decide (x = nm)); set_solver. }
  destruct (Z.leb_spec (segment_size N S) 0) as [Hle|Hgt].
  { destruct (Z.ltb_spec (segment_size N S) 0); [reflexivity|].
    destruct (Z.eqb_spec (segment_size N S) 0); [reflexivity|lia]. }
  destruct (Z.ltb_spec (segment_size N S) 0); [lia|].
  destruct (Z.eqb_spec (segment_size N S) 0); [lia|].
  destruct (decide (nm ∈ linked s ∖ {[nm]})) as [Hin|_]; [set_solver|].
  rewrite E.
  destruct (2 ^ 63 <=? segment_size N S); [reflexivity|].
  destruct (refuses host nm (segment_size N S)) as [e|].
  { now destruct (isinstance e OSError). }
  cbn [buf shm_id name].
  destruct (_init_header N S (zeros (segment_size N S))) as [[[]| |] b]; reflexivity.
Qed.

End Segments.



(** X17: [create_segment] starts clean when nothing is in its way.  When
    a stale segment of the name, if there is one, can be opened, the
    host grants the memory, the segment covers the header and is smaller
    than 2^63 bytes, and both geometry numbers fit int64, it returns a
    new handle of the process, the name is linked, and the memory is
    exactly [segment_size] zero bytes with the initial header on top: it
    passes [_validate_header], HEAD = TAIL = 0, both counters are 0, and
    a reader at cursor 0 finds it empty. With at least one slot and a
    non-negative slot size the segment is valid. *)
Theorem X17_create_segment :
  forall host nm N S s,
    (nm ∈ linked s -> denies host nm = None) ->
    refuses host nm (segment_size N S) = None ->
    HEADER_SIZE <= segment_size N S < 2 ^ 63 ->
    Py.in_int64 N = true -> Py.in_int64 S = true ->
    exists shm s',
      create_segment host nm N S s = (Ret shm, s')
      /\ name shm = nm /\ (shm_id shm ∉ mapped s)
      /\ linked s' = linked s ∪ {[nm]}
      /\ mapped s' = mapped s ∪ {[shm_id shm]}
      /\ buf shm = fresh_ring N S
      /\ Py.len (buf shm) = segment_size N S
      /\ _validate_header (buf shm) = (Ret tt, buf shm)
      /\ HEAD (buf shm) = 0 /\ TAIL (buf shm) = 0
      /\ MSG_COUNT (buf shm) = 0 /\ DROP_COUNT (buf shm) = 0
      /\ NUM_SLOTS (buf shm) = N /\ SLOT_SIZE (buf shm) = S
      /\ read_message_spsc 0 (buf shm) = (Ret None, buf shm)
      /\ (0 < N -> 0 <= S -> valid_segment (buf shm) = true).
Proof.
  intros host nm N S s Hopen Hgrant [Hsize Hmax] HN HS.
  assert (Hpos : 0 <= segment_size N S) by (unfold HEADER_SIZE in Hsize; lia).
  destruct (init_header_ok N S (zeros (segment_size N S))) as [b0 Hinit];
    [now rewrite len_zeros|assumption|assumption|].
  rewrite create_segment_clean by assumption. cbv zeta.
  destruct (Z.leb_spec (segment_size N S) 0); [unfold HEADER_SIZE in Hsize; lia|].
  destruct (Z.leb_spec (2 ^ 63) (segment_size N S)); [lia|].
  rewrite Hgrant, Hinit.
  pose proof (init_header_spec _ _ _ _ Hinit)
    as (Hlen & L & Hm & Hv & Hh & Ht & Hmc & Hdc & HN' & HS').
  rewrite len_zeros in L by assumption.
  eexists. eexists. split; [reflexivity|]. cbn [name shm_id buf linked mapped].
  assert (Hb0 : b0 = fresh_ring N S) by (unfold fresh_ring; now rewrite Hinit).
  repeat (split; [first [reflexivity | assumption | apply is_fresh]|]).
  assert (Hlen0 : HEADER_SIZE <= Py.len b0) by lia.
  split; [now apply validate_header_ok|].
  repeat (split; [assumption|]).
  split.
  - rewrite <- Hh at 1. now apply read_spsc_empty.
  - intros HNpos HSpos.
    apply (init_header_valid N S (zeros (segment_size N S))); try assumption.
    rewrite len_zeros by assumption. lia.
Qed.

(** X17 where a stale segment of the name exists. *)
Lemma X17_create_segment_witness :
  exists shm s',
    create_segment generous "shmcomm_pub_c1" 4 8 running = (Ret shm, s')
    /\ linked s' = linked running ∪ {[ "shmcomm_pub_c1"%string ]}
    /\ buf shm = fresh_ring 4 8.
Proof.
  destruct (X17_create_segment generous "shmcomm_pub_c1" 4 8 running
              ltac:(reflexivity) ltac:(reflexivity)
              ltac:(vm_compute; split; [congruence|reflexivity])
              ltac:(reflexivity) ltac:(reflexivity))
    as (shm & s' & H & _ & _ & Hl & _ & Hb & _).
  exists shm, s'. auto.
Defined.



(** ** Owners from construction to [close] *)

Section Owners.

Implicit Types (s : Proc) (host : Host) (nm : string).

Lemma create_segment_ret host nm N S s shm s1 :
  create_segment host nm N S s = (Ret shm, s1) ->
  name shm = nm /\ (shm_id shm ∉ mapped s)
  /\ linked s1 = linked s ∪ {[nm]}
  /\ mapped s1 = mapped s ∪ {[shm_id shm]}.
Proof.
  destruct (decide (nm ∈ linked s)) as [Hin|Hout].
  - destruct (denies host nm) as [e0|] eqn:Hden.
    + now rewrite (create_segment_blocked host nm N S s e0).
    + rewrite create_segment_clean by auto. cbv zeta.
      destruct (segment_size N S <=? 0); [discriminate|].
      destruct (2 ^ 63 <=? segment_size N S); [discriminate|].
      destruct (refuses host nm (segment_size N S)) as [e|];
        [destruct (isinstance e OSError); discriminate|].
      destruct (_init_header N S (zeros (segment_size N S))) as [[[]| |] b];
        try discriminate.
      intros [= <- <-]. cbn [name shm_id linked mapped].
      repeat split. apply is_fresh.
  - rewrite create_segment_clean by (intros; contradiction). cbv zeta.
    destruct (segment_size N S <=? 0); [discriminate|].
    destruct (2 ^ 63 <=? segment_size N S); [discriminate|].
    destruct (refuses host nm (segment_size N S)) as [e|];
      [destruct (isinstance e OSError); discriminate|].
    destruct (_init_header N S (zeros (segment_size N S))) as [[[]| |] b];
      try discriminate.
    intros [= <- <-]. cbn [name shm_id linked mapped].
    repeat split. apply is_fresh.
Qed.

Lemma close_created shm s s1 :
  (shm_id shm ∉ mapped s) ->
  linked s1 = linked s ∪ {[name shm]} ->
  mapped s1 = mapped s ∪ {[shm_id shm]} ->
  close_segment shm true s1
  = (Ret tt, {| linked := linked s ∖ {[name shm]}; mapped := mapped s |}).
Proof.
  intros Hid Hl Hm. rewrite close_segment_spec, Hl, Hm.
  do 2 f_equal; set_solver.
Qed.

End Owners.

(** X19: an owner leaves nothing behind.  When the constructor of a
    Publisher, Pusher or Replier returns, its segment names are linked;
    and [close] on the endpoint it built then returns with the names
    unlinked and the process holding exactly the mappings it held before
    the constructor ran.  A stale segment under one of the names is gone
    as well. *)
Theorem X19_owner_lifecycle :
  forall host channel N S ser s,
    (forall pub s1,
       Publisher.init host channel N S ser s = (Ret pub, s1) ->
       pub_segment_name channel ∈ linked s1
       /\ exists pub',
            Publisher.close pub s1
            = (Ret pub', {| linked := linked s ∖ {[pub_segment_name channel]};
                            mapped := mapped s |})
            /\ Publisher._shm pub' = None)
    /\ (forall push s1,
       Pusher.init host channel N S ser s = (Ret push, s1) ->
       push_segment_name channel ∈ linked s1
       /\ exists push',
            Pusher.close push s1
            = (Ret push', {| linked := linked s ∖ {[push_segment_name channel]};
                             mapped := mapped s |})
            /\ Pusher._shm push' = None)
    /\ (forall rep s1,
       Replier.init host channel N S ser s = (Ret rep, s1) ->
       req_segment_name channel ∈ linked s1
       /\ rep_segment_name channel ∈ linked s1
       /\ exists rep',
            Replier.close rep s1
            = (Ret rep',
               {| linked := linked s ∖ {[req_segment_name channel]}
                                     ∖ {[rep_segment_name channel]};
                  mapped := mapped s |})
            /\ Replier._req_shm rep' = None /\ Replier._rep_shm rep' = None).
Proof.
  intros host channel N S ser s. split; [|split].
  - intros pub s1. unfold Publisher.init. cbv zeta. unfold bind, ret.
    destruct (create_segment host _ N S s) as [[shm| |] s'] eqn:Hc; try discriminate.
    intros [= <- <-].
    apply create_segment_ret in Hc as (Hn & Hid & Hl & Hm).
    split; [rewrite Hl; set_solver|].
    unfold Publisher.close. cbn [Publisher._shm]. unfold bind, ret.
    rewrite (close_created shm s s') by (rewrite ?Hn; assumption).
    rewrite Hn. eexists. split; reflexivity.
  - intros push s1. unfold Pusher.init. cbv zeta. unfold bind, ret.
    destruct (create_segment host _ N S s) as [[shm| |] s'] eqn:Hc; try discriminate.
    intros [= <- <-].
    apply create_segment_ret in Hc as (Hn & Hid & Hl & Hm).
    split; [rewrite Hl; set_solver|].
    unfold Pusher.close. cbn [Pusher._shm]. unfold bind, ret.
    rewrite (close_created shm s s') by (rewrite ?Hn; assumption).
    rewrite Hn. eexists. split; reflexivity.
  - intros rep s1. unfold Replier.init. cbv zeta. unfold bind at 1.
    destruct (create_segment host (req_segment_name channel) N S s)
      as [[shm1| |] s'] eqn:Hc1; try discriminate.
    unfold bind, ret.
    destruct (create_segment host (rep_segment_name channel) N S s')
      as [[shm2| |] s''] eqn:Hc2; try discriminate.
    intros [= <- <-].
    apply create_segment_ret in Hc1 as (Hn1 & Hid1 & Hl1 & Hm1).
    apply create_segment_ret in Hc2 as (Hn2 & Hid2 & Hl2 & Hm2).
    split; [rewrite Hl2, Hl1; set_solver|].
    split; [rewrite Hl2; set_solver|].
    unfold Replier.close. cbn [Replier._req_shm Replier._rep_shm].
    unfold bind, ret. rewrite !close_segment_spec. cbn [linked mapped].
    rewrite Hn1, Hn2, Hl2, Hl1, Hm2, Hm1.
    eexists. split.
    { f_equal. f_equal.
      - set_solver.
      - rewrite Hm1 in Hid2. set_solver. }
    split; reflexivity.
Qed.

(** X19 for a Publisher built over a stale segment of its name. *)
Lemma X19_owner_lifecycle_witness :
  exists pub s1,
    Publisher.init generous "c1" 4 8 "pickle" running = (Ret pub, s1)
    /\ exists pub',
         Publisher.close pub s1
         = (Ret pub', {| linked := linked running ∖ {[pub_segment_name "c1"]};
                         mapped := mapped running |}).
Proof.
  destruct (Publisher.init generous "c1" 4 8 "pickle" running) as [r s1] eqn:Hinit.
  assert (Hr : exists pub, r = Ret pub).
  { vm_compute in Hinit. injection Hinit as <- _. eexists. reflexivity. }
  destruct Hr as [pub ->]. exists pub, s1. split; [reflexivity|].
  destruct (proj1 (X19_owner_lifecycle generous "c1" 4 8 "pickle" running) pub s1 Hinit)
    as (_ & pub' & Hclose & _).
  exists pub'. exact Hclose.
Defined.

(** ** Request and reply *)

Section ReqRep.

Implicit Types (b p : bytes).

Lemma write_message_full fuel env b p timeout :
  valid_segment b = true -> ring_full b = true ->
  Py.len p <= SLOT_SIZE b - 4 ->
  write_message (S fuel) env p false timeout false b
  = (Ret false, Py.store b IDX_DROP_COUNT (Py.int64 ((DROP_COUNT b + 1) mod 2 ^ 64))).
Proof.
  intros Hv Hf Hp. destruct (valid_ranges b Hv) as (HN & _).
  rewrite write_message_cases by (assumption || now apply valid_writable).
  now rewrite wait_drop by (assumption || lia).
Qed.

Lemma replier_try_recv_bytes_holds (self : Replier.t) b p :
  valid_segment b = true -> Replier._req_tail self <> HEAD b ->
  holds b (SLOT_SIZE b) (Replier._req_tail self) p ->
  Replier._try_recv_bytes (self, b)
  = (Ret (PyVal p),
     (Replier.set_tail self ((Replier._req_tail self + 1) mod NUM_SLOTS b), b)).
Proof.
  intros Hv Ht Hp. destruct (valid_ranges b Hv) as (HN & _ & _ & Hlen).
  unfold Replier._try_recv_bytes.
  now rewrite (read_spsc_holds b _ p) by (assumption || lia).
Qed.

Lemma requester_try_recv_bytes_holds (self : Requester.t) b p :
  valid_segment b = true -> Requester._rep_tail self <> HEAD b ->
  holds b (SLOT_SIZE b) (Requester._rep_tail self) p ->
  Requester._try_recv_bytes (self, b)
  = (Ret (PyVal p),
     (Requester.set_tail self ((Requester._rep_tail self + 1) mod NUM_SLOTS b), b)).
Proof.
  intros Hv Ht Hp. destruct (valid_ranges b Hv) as (HN & _ & _ & Hlen).
  unfold Requester._try_recv_bytes.
  now rewrite (read_spsc_holds b _ p) by (assumption || lia).
Qed.

Lemma requester_try_recv_empty {Obj} (codec : Serialize.Codec Obj) dec
    (self : Requester.t) b :
  valid_segment b = true -> Requester._rep_tail self = HEAD b ->
  Requester._try_recv codec dec (self, b) = (Ret PyNone, (self, b)).
Proof.
  intros Hv Ht. destruct (valid_ranges b Hv) as (_ & _ & _ & Hlen).
  unfold Requester._try_recv. now rewrite Ht, read_spsc_empty.
Qed.

(** A committed message is at the old HEAD, and the new HEAD is another
    slot when the ring has more than one. *)
Lemma commit_next b p :
  valid_segment b = true -> 1 < NUM_SLOTS b ->
  Py.len p <= SLOT_SIZE b - 4 -> Py.len p < 2 ^ 32 ->
  valid_segment (commit b p) = true
  /\ HEAD b <> HEAD (commit b p)
  /\ (HEAD b + 1) mod NUM_SLOTS (commit b p) = HEAD (commit b p)
  /\ holds (commit b p) (SLOT_SIZE (commit b p)) (HEAD b) p.
Proof.
  intros Hv HN Hp Hp32.
  destruct (commit_valid b p Hv Hp Hp32) as (Hv' & HH & HT & HN' & HS').
  destruct (commit_spec b p (valid_writable b Hv) Hp Hp32)
    as (_ & _ & _ & _ & Hholds & _).
  destruct (valid_ranges b Hv) as (_ & Hh & _ & _).
  split; [|split; [|split]].
  - exact Hv'.
  - rewrite HH. intros E.
    destruct (Z.eq_dec (HEAD b + 1) (NUM_SLOTS b)) as [E'|E'].
    + rewrite E', Z.mod_same in E by lia. lia.
    + rewrite Z.mod_small in E by lia. lia.
  - now rewrite HN', HH.
  - now rewrite HS'.
Qed.

End ReqRep.

(** X20: one exchange over a request/reply service.  With both rings
    valid, each side's private cursor at the HEAD of the ring it reads,
    and room in both rings, the Requester's [send_bytes] returns [True],
    the Replier's [recv_bytes] then returns that request, the Replier's
    [send_bytes] returns [True] and the Requester's [recv_bytes] then
    returns that reply, each receive whatever its timeout; both cursors
    end at the new HEADs.  The exchange takes one slot of each ring for
    good: the occupancy of both rings has grown by one. *)
Theorem X20_request_reply_exchange :
  forall fuel env world (rq : Requester.t) (rp : Replier.t) req rep p q t1 t2,
    valid_segment req = true -> valid_segment rep = true ->
    Replier._req_tail rp = HEAD req -> Requester._rep_tail rq = HEAD rep ->
    used req < NUM_SLOTS req - 1 -> used rep < NUM_SLOTS rep - 1 ->
    Py.len p <= SLOT_SIZE req - 4 -> Py.len p < 2 ^ 32 ->
    Py.len q <= SLOT_SIZE rep - 4 -> Py.len q < 2 ^ 32 ->
    exists req' rep',
      Requester.send_bytes (S fuel) env rq p req = (Ret true, req')
      /\ Replier.recv_bytes (S fuel) env world t1 (rp, req')
         = (Ret (PyVal p), (Replier.set_tail rp (HEAD req'), req'))
      /\ Replier.send_bytes (S fuel) env rp q rep = (Ret true, rep')
      /\ Requester.recv_bytes (S fuel) env world t2 (rq, rep')
         = (Ret (PyVal q), (Requester.set_tail rq (HEAD rep'), rep'))
      /\ used req' = used req + 1 /\ used rep' = used rep + 1.
Proof.
  intros fuel env world rq rp req rep p q t1 t2 Hv1 Hv2 Ht1 Ht2 Hr1 Hr2
    Hp Hp32 Hq Hq32.
  pose proof (used_range req Hv1) as Hu1. pose proof (used_range rep Hv2) as Hu2.
  destruct (commit_next req p Hv1 ltac:(lia) Hp Hp32) as (Hv1' & Hne1 & Hnx1 & Hh1).
  destruct (commit_next rep q Hv2 ltac:(lia) Hq Hq32) as (Hv2' & Hne2 & Hnx2 & Hh2).
  exists (commit req p), (commit rep q).
  split; [|split; [|split; [|split; [|split]]]].
  - unfold Requester.send_bytes. apply write_message_room; (assumption || lia).
  - unfold Replier.recv_bytes, poll_until. apply poll_loop_value.
    rewrite (replier_try_recv_bytes_holds rp _ p);
      rewrite ?Ht1; try assumption. now rewrite Hnx1.
  - unfold Replier.send_bytes. apply write_message_room; (assumption || lia).
  - unfold Requester.recv_bytes, poll_until. apply poll_loop_value.
    rewrite (requester_try_recv_bytes_holds rq _ q);
      rewrite ?Ht2; try assumption. now rewrite Hnx2.
  - rewrite used_commit by assumption.
    destruct (Z.eqb_spec (used req) (NUM_SLOTS req - 1)); lia.
  - rewrite used_commit by assumption.
    destruct (Z.eqb_spec (used rep) (NUM_SLOTS rep - 1)); lia.
Qed.

(** X20 for the first exchange of service ["svc"]. *)
Lemma X20_request_reply_exchange_witness :
  exists req' rep',
    Requester.send_bytes 1 quiet requester_svc [Byte.x01] (fresh_ring 4 8)
      = (Ret true, req')
    /\ Replier.recv_bytes 1 quiet (fun _ b => b) None (replier_svc, req')
       = (Ret (PyVal [Byte.x01]), (Replier.set_tail replier_svc (HEAD req'), req'))
    /\ Replier.send_bytes 1 quiet replier_svc [Byte.x02] (fresh_ring 4 8)
       = (Ret true, rep')
    /\ Requester.recv_bytes 1 quiet (fun _ b => b) None (requester_svc, rep')
       = (Ret (PyVal [Byte.x02]), (Requester.set_tail requester_svc (HEAD rep'), rep'))
    /\ used req' = used (fresh_ring 4 8) + 1 /\ used rep' = used (fresh_ring 4 8) + 1.
Proof.
  assert (Hv : valid_segment (fresh_ring 4 8) = true) by (vm_compute; reflexivity).
  assert (Hh : 0 = HEAD (fresh_ring 4 8)) by (vm_compute; reflexivity).
  assert (Hu : used (fresh_ring 4 8) < NUM_SLOTS (fresh_ring 4 8) - 1)
    by (vm_compute; reflexivity).
  assert (Hs : forall c, Py.len [c] <= SLOT_SIZE (fresh_ring 4 8) - 4)
    by (intros c; vm_compute; congruence).
  assert (H32 : forall c, Py.len [c] < 2 ^ 32) by (intros c; vm_compute; reflexivity).
  exact (X20_request_reply_exchange 0 quiet (fun _ b => b) requester_svc replier_svc
           (fresh_ring 4 8) (fresh_ring 4 8) [Byte.x01] [Byte.x02] None None
           Hv Hv Hh Hh Hu Hu (Hs _) (H32 _) (Hs _) (H32 _)).
Defined.

(** X21: [Requester.request].  It never returns [None] or [False]: a
    reply that decodes to either is taken for no reply.  A request sent
    on a full request ring is dropped without notice: [send] returns
    [False], which [request] ignores, DROP_COUNT goes up, and with no
    reply in the reply ring a zero timeout ends in [SHMTimeoutError] with
    the request never queued.  With [timeout = None] the receive cannot
    time out, so every exception that [request] raises is one raised by
    [send] or by [recv]. *)
Theorem X21_requester_request :
  forall Obj (codec : Serialize.Codec Obj) (dec : Serialize.Decoder Obj)
         fuel env world self data timeout req rep,
    let out :=
      Requester.request codec dec (S fuel) env world data timeout (self, req, rep) in
    (forall x, fst out = Ret x -> exists o, x = PyVal o)
    /\ (forall e, timeout = None -> fst out = Raise e ->
        fst (Requester.send codec (S fuel) env self data req) = Raise e
        \/ fst (Requester.recv codec dec (S fuel) env world None (self, rep)) = Raise e)
    /\ (forall p t,
        timeout = Some t -> t <= 0 -> monotonic env 0 <= monotonic env 1 ->
        Serialize.serialize codec data (Requester._serialization self) = Ret p ->
        valid_segment req = true -> ring_full req = true ->
        Py.len p <= SLOT_SIZE req - 4 ->
        valid_segment rep = true -> Requester._rep_tail self = HEAD rep ->
        out = (Raise (Exn SHMTimeoutError "No reply from service"),
               (self,
                Py.store req IDX_DROP_COUNT (Py.int64 ((DROP_COUNT req + 1) mod 2 ^ 64)),
                rep))
        /\ HEAD (Py.store req IDX_DROP_COUNT
                   (Py.int64 ((DROP_COUNT req + 1) mod 2 ^ 64))) = HEAD req).
Proof.
  intros Obj codec dec fuel env world self data timeout req rep out.
  split; [|split].
  - intros x. unfold out, Requester.request.
    destruct (Requester.send codec (S fuel) env self data req) as [[ok| |] req'];
      [|discriminate|discriminate].
    destruct (Requester.recv codec dec (S fuel) env world timeout (self, rep))
      as [[r| |] [self' rep']] eqn:Hrecv; [|discriminate|discriminate].
    unfold Requester.recv, poll_until in Hrecv.
    apply poll_loop_result in Hrecv as [(s0 & x0 & _ & Hr) _].
    destruct r as [| |o]; [discriminate| |].
    + destruct x0; discriminate.
    + intros [= <-]. eauto.
  - intros e -> . unfold out, Requester.request.
    destruct (Requester.send codec (S fuel) env self data req) as [[ok| |] req'];
      [|cbn [fst]; intros [= ->]; left; reflexivity|discriminate].
    destruct (Requester.recv codec dec (S fuel) env world None (self, rep))
      as [[r| |] [self' rep']] eqn:Hrecv; [|cbn [fst]; intros H; right; exact H|discriminate].
    unfold Requester.recv, poll_until in Hrecv.
    apply poll_loop_result in Hrecv as [_ Hnone].
    destruct r as [| |o]; [|discriminate|discriminate].
    destruct (Hnone eq_refl) as [j Hj]. discriminate Hj.
  - intros p t -> Ht Hclock Hser Hv1 Hfull Hp Hv2 Htail.
    split.
    + unfold out, Requester.request, Requester.send. unfold bind, lift.
      rewrite Hser, write_message_full by assumption.
      unfold Requester.recv, poll_until. cbn [option_map].
      rewrite (poll_loop_timeout _ _ _ _ _ _ _ _ PyNone (self, rep));
        [reflexivity|now apply requester_try_recv_empty|intros a; discriminate|].
      cbn. lia.
    + now destruct (drop_store_valid req
                      (Py.int64 ((DROP_COUNT req + 1) mod 2 ^ 64)) Hv1) as (_ & H & _).
Qed.

(** X21 for a request on a full ring of two slots. *)
Lemma X21_requester_request_witness :
  Requester.request toy_codec toy_decoder 1 quiet (fun _ b => b)
    (Serialize.PyObject 7%nat) (Some 0) (requester_svc, full_ring, fresh_ring 4 8)
  = (Raise (Exn SHMTimeoutError "No reply from service"),
     (requester_svc,
      Py.store full_ring IDX_DROP_COUNT
        (Py.int64 ((DROP_COUNT full_ring + 1) mod 2 ^ 64)),
      fresh_ring 4 8)).
Proof.
  refine (proj1 (proj2 (proj2 (X21_requester_request nat toy_codec toy_decoder 0 quiet
                                 (fun _ b => b) requester_svc
                                 (Serialize.PyObject 7%nat) (Some 0)
                                 full_ring (fresh_ring 4 8)))
                   [Byte.x07] 0 eq_refl _ _ _ _ _ _ _ _)).
  - lia.
  - cbn. lia.
  - reflexivity.
  - vm_compute. reflexivity.
  - vm_compute. reflexivity.
  - vm_compute. congruence.
  - vm_compute. reflexivity.
  - vm_compute. reflexivity.
Defined.

(** ** The lock file *)

Section LockPath.

Local Open Scope string_scope.

Lemma append_inv_l (p a b : string) : p ++ a = p ++ b -> a = b.
Proof.
  induction p as [|c p IH]; cbv [String.append]; fold String.append.
  - auto.
  - intros [= H]. auto.
Qed.

Lemma to_list_append (a b : string) :
  list_ascii_of_string (a ++ b)
  = (list_ascii_of_string a ++ list_ascii_of_string b)%list.
Proof.
  induction a as [|c a IH]; cbv [String.append]; fold String.append.
  - reflexivity.
  - cbn [list_ascii_of_string]. now rewrite IH.
Qed.

Lemma to_list_inj (a b : string) :
  list_ascii_of_string a = list_ascii_of_string b -> a = b.
Proof.
  intros H. rewrite <- (string_of_list_ascii_of_string a),
    <- (string_of_list_ascii_of_string b). now rewrite H.
Qed.

Lemma append_inv_r (a b q : string) : a ++ q = b ++ q -> a = b.
Proof.
  intros H. apply to_list_inj.
  apply (f_equal list_ascii_of_string) in H. rewrite !to_list_append in H.
  now apply app_inv_tail in H.
Qed.

(** After [replace(old, new)] a character is [new] or was there before,
    and it is not [old] unless [new] is. *)
Lemma str_replace_chars old new s c :
  In c (list_ascii_of_string (str_replace old new s)) ->
  (c = new \/ In c (list_ascii_of_string s)) /\ (old <> new -> c <> old).
Proof.
  induction s as [|a s IH]; cbn [str_replace list_ascii_of_string In].
  - intros [].
  - intros [H|H].
    + destruct (Ascii.eqb_spec a old) as [->|Hne]; subst c.
      * split; [now left|auto].
      * split; [right; now left|intros _; exact Hne].
    + destruct (IH H) as [[->|Hin] Hold]; split; auto.
Qed.

End LockPath.

(** X22: the lock file of a name.  [_lock_path] joins the temporary
    directory with a file name that contains neither [/] nor [\], so the
    lock file lies directly in that directory, whatever the name; and two
    names have the same lock file exactly when they agree once both
    separators are replaced by underscores. *)
Theorem X22_lock_path :
  forall tmpdir name1 name2,
    let safe := fun n => str_replace "\"%char "_"%char (str_replace "/"%char "_"%char n) in
    let file := ("shmcomm_" ++ safe name1 ++ ".lock")%string in
    _lock_path tmpdir name1 = path_join tmpdir file
    /\ (forall c, In c (list_ascii_of_string file) -> c <> "/"%char /\ c <> "\"%char)
    /\ (tmpdir <> ""%string -> endswith "/"%char tmpdir = false ->
        _lock_path tmpdir name1 = (tmpdir ++ "/" ++ file)%string)
    /\ (_lock_path tmpdir name1 = _lock_path tmpdir name2 <-> safe name1 = safe name2).
Proof.
  intros tmpdir name1 name2 safe file.
  assert (Hjoin : forall x,
            path_join tmpdir ("shmcomm_" ++ x)%string
            = (if String.eqb tmpdir "" || endswith "/"%char tmpdir
               then tmpdir ++ "shmcomm_" ++ x
               else tmpdir ++ "/" ++ "shmcomm_" ++ x)%string).
  { intros x. reflexivity. }
  split; [reflexivity|]. split; [|split].
  - intros c Hc. unfold file in Hc.
    rewrite to_list_append, in_app_iff, to_list_append, in_app_iff in Hc.
    assert (Hlit : forall l,
              In c l -> forallb (fun a => negb (Ascii.eqb a "/"%char)
                                          && negb (Ascii.eqb a "\"%char)) l = true ->
              c <> "/"%char /\ c <> "\"%char).
    { intros l Hin Hall. rewrite forallb_forall in Hall.
      specialize (Hall c Hin). apply andb_prop in Hall as [H1 H2].
      split; intros ->; discriminate. }
    destruct Hc as [Hc|[Hc|Hc]].
    + now apply (Hlit _ Hc).
    + unfold safe in Hc.
      destruct (str_replace_chars _ _ _ _ Hc) as [[->|Hin] Hback].
      * split; discriminate.
      * destruct (str_replace_chars _ _ _ _ Hin) as [_ Hslash].
        split; [apply Hslash|apply Hback]; discriminate.
    + now apply (Hlit _ Hc).
  - intros Hne Hend. unfold _lock_path. fold safe. rewrite Hjoin.
    apply String.eqb_neq in Hne. now rewrite Hne, Hend.
  - unfold _lock_path. rewrite !Hjoin. subst file safe. cbv beta. split.
    + intros H.
      destruct (String.eqb tmpdir "" || endswith "/"%char tmpdir).
      * apply append_inv_l, append_inv_l in H. now apply append_inv_r in H.
      * apply append_inv_l, append_inv_l, append_inv_l in H.
        now apply append_inv_r in H.
    + intros H. now rewrite H.
Qed.

(** X22 for two channel names that differ in a separator. *)
Lemma X22_lock_path_witness :
  _lock_path "/tmp" "robot/pose" = _lock_path "/tmp" "robot_pose"
  /\ _lock_path "/tmp" "robot/pose" = "/tmp/shmcomm_robot_pose.lock"%string.
Proof.
  split.
  - exact (proj2 (proj2 (proj2 (proj2 (X22_lock_path "/tmp" "robot/pose" "robot_pose"))))
             eq_refl).
  - exact (proj1 (proj2 (proj2 (X22_lock_path "/tmp" "robot/pose" "robot_pose")))
             ltac:(discriminate) eq_refl).
Defined.

(** ** Taking and releasing the lock *)

Section Locking.

Context {W : Type}.
Variables (env : Env) (flock : nat -> bool) (nap : nat -> W -> W).

Implicit Types (self : FileLock.t) (f : FileLock.Files) (w : W).

Lemma acquire_loop_idle deadline fd self : forall n fuel k0 fds0 locked0 c w,
  (forall i, (i < n)%nat -> flock (c + i)%nat = false) ->
  (forall i, (i < n)%nat -> reached env deadline (k0 + i) = false) ->
  FileLock.acquire_loop env flock nap (n + fuel) deadline fd k0
    (self, {| FileLock.fds := fds0; FileLock.locked := locked0;
              FileLock.flock_calls := c |}, w)
  = FileLock.acquire_loop env flock nap fuel deadline fd (k0 + n)
      (self, {| FileLock.fds := fds0; FileLock.locked := locked0;
                FileLock.flock_calls := (c + n)%nat |},
       FileLock.napped nap c n w).
Proof.
  induction n as [|n IH]; intros fuel k0 fds0 locked0 c w Hbusy Hclock.
  - cbn [FileLock.napped plus]. now rewrite !Nat.add_0_r.
  - replace (S n + fuel)%nat with (n + S fuel)%nat by lia.
    rewrite IH by (auto with lia).
    cbn [FileLock.acquire_loop FileLock.flock_calls FileLock.fds FileLock.locked].
    rewrite (Hbusy n) by lia. rewrite (Hclock n) by lia.
    cbn [FileLock.napped].
    replace (k0 + S n)%nat with (S (k0 + n)) by lia.
    replace (c + S n)%nat with (S (c + n)) by lia.
    reflexivity.
Qed.

Lemma acquire_loop_busy deadline fd self :
  deadline = None -> (forall i, flock i = false) ->
  forall fuel k0 f w,
    fst (FileLock.acquire_loop env flock nap fuel deadline fd k0 (self, f, w)) = Diverge.
Proof.
  intros -> Hbusy. induction fuel as [|fuel IH]; intros k0 f w.
  - reflexivity.
  - cbn [FileLock.acquire_loop]. rewrite Hbusy. cbn [reached]. apply IH.
Qed.

(** What [acquire] does when the first [n] attempts find the lock taken
    and attempt [n] decides. *)
Lemma acquire_spec fuel timeout self f w n :
  let c := FileLock.flock_calls f in
  let fd := fresh (FileLock.fds f) in
  let limit := match timeout with
               | None => FileLock._timeout self
               | Some _ => timeout
               end in
  (n < fuel)%nat ->
  (forall i, (i < n)%nat -> flock (c + i)%nat = false) ->
  (forall i t, (i < n)%nat -> limit = Some t ->
     monotonic env (S i) < monotonic env 0 + t) ->
  FileLock.locked f ⊆ FileLock.fds f ->
  (flock (c + n)%nat = true ->
     FileLock.acquire env flock nap fuel timeout (self, f, w)
     = (Ret tt,
        (FileLock.set_fd self (Some fd),
         {| FileLock.fds := FileLock.fds f ∪ {[fd]};
            FileLock.locked := FileLock.locked f ∪ {[fd]};
            FileLock.flock_calls := S (c + n) |},
         FileLock.napped nap c n w)))
  /\ (flock (c + n)%nat = false ->
      forall t, limit = Some t -> monotonic env 0 + t <= monotonic env (S n) ->
      FileLock.acquire env flock nap fuel timeout (self, f, w)
      = (Raise (Exn SHMTimeoutError "Could not acquire lock"),
         (FileLock.set_fd self None,
          {| FileLock.fds := FileLock.fds f;
             FileLock.locked := FileLock.locked f;
             FileLock.flock_calls := S (c + n) |},
          FileLock.napped nap c n w))).
Proof.
  intros c fd limit Hfuel Hbusy Hclock Hin.
  assert (Hfresh : fd ∉ FileLock.fds f) by apply is_fresh.
  assert (Hd : forall i, (i < n)%nat ->
            reached env (option_map (fun t => monotonic env 0 + t) limit) (0 + i) = false).
  { intros i Hi. destruct limit as [t|] eqn:El; [|reflexivity].
    cbn. specialize (Hclock i t Hi eq_refl). lia. }
  assert (E : FileLock.acquire env flock nap fuel timeout (self, f, w)
              = FileLock.acquire_loop env flock nap (fuel - n)
                  (option_map (fun t => monotonic env 0 + t) limit) fd n
                  (FileLock.set_fd self (Some fd),
                   {| FileLock.fds := FileLock.fds f ∪ {[fd]};
                      FileLock.locked := FileLock.locked f;
                      FileLock.flock_calls := (c + n)%nat |},
                   FileLock.napped nap c n w)).
  { unfold FileLock.acquire. fold limit fd c.
    replace fuel with (n + (fuel - n))%nat at 1 by lia.
    now rewrite acquire_loop_idle. }
  rewrite E. destruct (fuel - n)%nat as [|g] eqn:Hg; [lia|].
  cbn [FileLock.acquire_loop FileLock.flock_calls FileLock.fds FileLock.locked].
  split.
  - intros ->. reflexivity.
  - intros -> t Hl Hreach.
    assert (Hr : reached env (option_map (fun t => monotonic env 0 + t) limit) n = true)
      by (rewrite Hl; cbn; lia).
    rewrite Hr.
    assert (E1 : (FileLock.fds f ∪ {[fd]}) ∖ {[fd]} = FileLock.fds f) by set_solver.
    assert (E2 : FileLock.locked f ∖ {[fd]} = FileLock.locked f) by set_solver.
    rewrite E1, E2. reflexivity.
Qed.

End Locking.

(** The block of a [with] statement that holds the lock on descriptor
    [fd], and the release after it. *)
Lemma locked_block {W A : Type} (body : St W A) (self : FileLock.t)
    (f : FileLock.Files) (w : W) (fd : nat) :
  fd ∉ FileLock.fds f -> FileLock.locked f ⊆ FileLock.fds f ->
  fst (body w) <> Diverge ->
  forall calls,
  match FileLock.inside body
          (FileLock.set_fd self (Some fd),
           {| FileLock.fds := FileLock.fds f ∪ {[fd]};
              FileLock.locked := FileLock.locked f ∪ {[fd]};
              FileLock.flock_calls := calls |}, w) with
  | (Diverge, s2) => (Diverge, s2)
  | (r, s2) =>
      match FileLock.release s2 with
      | (Ret _, s3) => (r, s3)
      | (Raise e, s3) => (Raise e, s3)
      | (Diverge, s3) => (Diverge, s3)
      end
  end
  = (fst (body w),
     (FileLock.set_fd self None,
      {| FileLock.fds := FileLock.fds f; FileLock.locked := FileLock.locked f;
         FileLock.flock_calls := calls |},
      snd (body w))).
Proof.
  intros Hfresh Hin Hterm calls. unfold FileLock.inside.
  destruct (body w) as [r w'] eqn:Hb. cbn [fst snd] in *.
  assert (E1 : (FileLock.fds f ∪ {[fd]}) ∖ {[fd]} = FileLock.fds f) by set_solver.
  assert (E2 : (FileLock.locked f ∪ {[fd]}) ∖ {[fd]} = FileLock.locked f) by set_solver.
  destruct r as [a|e|]; [| |contradiction];
    unfold FileLock.release;
    cbn [FileLock.set_fd FileLock._fd FileLock.fds FileLock.locked
         FileLock.flock_calls FileLock._path FileLock._timeout];
    (destruct (decide (fd ∈ FileLock.fds f ∪ {[fd]})) as [_|Hn]; [|set_solver]);
    rewrite E1, E2; reflexivity.
Qed.

(** X23: [FileLock.acquire].  Let the first [n] non-blocking attempts
    find the lock taken while the clock stays short of the deadline
    (given by the argument or, without one, by the object's default).
    If attempt [n] succeeds, [acquire] returns after [n] sleeps with
    [_fd] a descriptor that was not open before, now open and holding the
    lock.  If it fails once the deadline is reached, [acquire] raises
    [SHMTimeoutError] with the descriptor closed again and [_fd = None].
    At least one attempt is made whatever the timeout, and without a
    deadline a lock that is never free means [acquire] does not return. *)
Theorem X23_filelock_acquire :
  forall (W : Type) env flock (nap : nat -> W -> W) fuel timeout self f w n,
    let c := FileLock.flock_calls f in
    let fd := fresh (FileLock.fds f) in
    let limit := match timeout with
                 | None => FileLock._timeout self
                 | Some _ => timeout
                 end in
    (n < fuel)%nat ->
    (forall i, (i < n)%nat -> flock (c + i)%nat = false) ->
    (forall i t, (i < n)%nat -> limit = Some t ->
       monotonic env (S i) < monotonic env 0 + t) ->
    FileLock.locked f ⊆ FileLock.fds f ->
    (fd ∉ FileLock.fds f)
    /\ (flock (c + n)%nat = true ->
        FileLock.acquire env flock nap fuel timeout (self, f, w)
        = (Ret tt,
           (FileLock.set_fd self (Some fd),
            {| FileLock.fds := FileLock.fds f ∪ {[fd]};
               FileLock.locked := FileLock.locked f ∪ {[fd]};
               FileLock.flock_calls := S (c + n) |},
            FileLock.napped nap c n w)))
    /\ (flock (c + n)%nat = false ->
        forall t, limit = Some t -> monotonic env 0 + t <= monotonic env (S n) ->
        FileLock.acquire env flock nap fuel timeout (self, f, w)
        = (Raise (Exn SHMTimeoutError "Could not acquire lock"),
           (FileLock.set_fd self None,
            {| FileLock.fds := FileLock.fds f;
               FileLock.locked := FileLock.locked f;
               FileLock.flock_calls := S (c + n) |},
            FileLock.napped nap c n w)))
    /\ (limit = None -> (forall i, flock i = false) ->
        forall fuel',
          fst (FileLock.acquire env flock nap fuel' timeout (self, f, w)) = Diverge).
Proof.
  intros W env flock nap fuel timeout self f w n c fd limit Hfuel Hbusy Hclock Hin.
  destruct (acquire_spec env flock nap fuel timeout self f w n Hfuel Hbusy Hclock Hin)
    as [Hok Hto].
  split; [apply is_fresh|]. split; [exact Hok|]. split; [exact Hto|].
  intros Hl Hnever fuel'. unfold FileLock.acquire. fold limit. rewrite Hl.
  now apply acquire_loop_busy.
Qed.

(** X23 with a timeout of zero on a lock that is free: the one attempt
    takes it. *)
Lemma X23_filelock_acquire_witness :
  FileLock.acquire ticking (fun _ => true) (fun _ (w : unit) => w) 1 (Some 0)
    (lock_jobs, idle_files, tt)
  = (Ret tt,
     (FileLock.set_fd lock_jobs (Some (fresh (FileLock.fds idle_files))),
      {| FileLock.fds := FileLock.fds idle_files ∪ {[fresh (FileLock.fds idle_files)]};
         FileLock.locked := FileLock.locked idle_files ∪ {[fresh (FileLock.fds idle_files)]};
         FileLock.flock_calls := 1 |},
      tt)).
Proof.
  refine (proj1 (proj2 (X23_filelock_acquire unit ticking (fun _ => true)
                          (fun _ w => w) 1 (Some 0) lock_jobs idle_files tt 0 _ _ _ _))
            eq_refl).
  - lia.
  - intros i Hi. lia.
  - intros i t Hi. lia.
  - cbn. set_solver.
Defined.

(** X24: the lock around a block.  If the lock is taken at attempt [n]
    (after [n] sleeps) and the block, which leaves the lock alone,
    returns or raises, then [with lock: block] and [named_lock] give the
    block's outcome on the state the sleeps left; afterwards [_fd] is
    [None], the process has the descriptors open that it had before and
    holds the lock on none of them more than before; and a further
    [release] does nothing. *)
Theorem X24_with_lock :
  forall (W A : Type) env flock (nap : nat -> W -> W) fuel limit f w n (body : St W A),
    let c := FileLock.flock_calls f in
    let w1 := FileLock.napped nap c n w in
    let f1 := {| FileLock.fds := FileLock.fds f; FileLock.locked := FileLock.locked f;
                 FileLock.flock_calls := S (c + n) |} in
    (n < fuel)%nat ->
    (forall i, (i < n)%nat -> flock (c + i)%nat = false) ->
    (forall i t, (i < n)%nat -> limit = Some t ->
       monotonic env (S i) < monotonic env 0 + t) ->
    flock (c + n)%nat = true ->
    FileLock.locked f ⊆ FileLock.fds f ->
    fst (body w1) <> Diverge ->
    (forall self, FileLock._timeout self = limit ->
       FileLock.with_ env flock nap fuel (FileLock.inside body) (self, f, w)
       = (fst (body w1), (FileLock.set_fd self None, f1, snd (body w1)))
       /\ FileLock.release (FileLock.set_fd self None, f1, snd (body w1))
          = (Ret tt, (FileLock.set_fd self None, f1, snd (body w1))))
    /\ (forall tmpdir name,
       named_lock env flock nap tmpdir name limit fuel (FileLock.inside body) (f, w)
       = (fst (body w1), (f1, snd (body w1)))).
Proof.
  intros W A env flock nap fuel limit f w n body c w1 f1
    Hfuel Hbusy Hclock Hfree Hin Hterm.
  split.
  - intros self Hl. split; [|reflexivity].
    unfold FileLock.with_.
    rewrite (proj1 (acquire_spec env flock nap fuel None self f w n Hfuel Hbusy
                      ltac:(rewrite Hl; exact Hclock) Hin) Hfree).
    fold c w1.
    rewrite (locked_block body self f w1 (fresh (FileLock.fds f)) (is_fresh _)
               Hin Hterm (S (c + n))).
    reflexivity.
  - intros tmpdir name. unfold named_lock.
    assert (Hl : match limit with
                 | None => FileLock._timeout (FileLock.init tmpdir name limit)
                 | Some _ => limit
                 end = limit) by now destruct limit.
    rewrite (proj1 (acquire_spec env flock nap fuel limit
                      (FileLock.init tmpdir name limit) f w n Hfuel Hbusy
                      ltac:(rewrite Hl; exact Hclock) Hin) Hfree).
    fold c w1. unfold FileLock.inside.
    destruct (body w1) as [r w'] eqn:Hb. cbn [fst snd] in *.
    pose proof (is_fresh (FileLock.fds f)) as Hfresh.
    assert (E1 : (FileLock.fds f ∪ {[fresh (FileLock.fds f)]})
                 ∖ {[fresh (FileLock.fds f)]} = FileLock.fds f) by set_solver.
    assert (E2 : (FileLock.locked f ∪ {[fresh (FileLock.fds f)]})
                 ∖ {[fresh (FileLock.fds f)]} = FileLock.locked f) by set_solver.
    destruct r as [a|e|]; [| |contradiction];
      unfold FileLock.release;
      cbn [FileLock.set_fd FileLock._fd FileLock.fds FileLock.locked
           FileLock.flock_calls FileLock._path FileLock._timeout];
      (destruct (decide (fresh (FileLock.fds f)
                         ∈ FileLock.fds f ∪ {[fresh (FileLock.fds f)]})) as [_|Hn];
       [|set_solver]);
      cbn [fst snd]; rewrite E1, E2; reflexivity.
Qed.

(** X24 for a block that counts, entered at the second attempt. *)
Lemma X24_with_lock_witness :
  FileLock.with_ quiet (fun k => (0 <? k)%nat) (fun _ (w : nat) => (w + 10)%nat) 2
    (FileLock.inside (fun w : nat => (Ret w, S w))) (lock_jobs, idle_files, 0%nat)
  = (Ret 10%nat,
     (FileLock.set_fd lock_jobs None,
      {| FileLock.fds := FileLock.fds idle_files;
         FileLock.locked := FileLock.locked idle_files;
         FileLock.flock_calls := 2 |},
      11%nat)).
Proof.
  refine (proj1 (proj1 (X24_with_lock nat nat quiet (fun k => (0 <? k)%nat)
                          (fun _ w => (w + 10)%nat) 2 None idle_files 0%nat 1
                          (fun w => (Ret w, S w)) _ _ _ _ _ _) lock_jobs eq_refl)).
  - lia.
  - intros i Hi. destruct i; [reflexivity|lia].
  - intros i t _ [=].
  - reflexivity.
  - cbn. set_solver.
  - discriminate.
Defined.

(** X25: [Puller.recv_bytes].  With the lock free at the first attempt
    and a valid segment, a message in the slot at the shared TAIL is
    claimed whatever the timeout: it is returned, TAIL moves one slot on,
    and the lock is released again with no descriptor left open; with
    TAIL at HEAD a poll with timeout 0 returns [None] and leaves the
    memory as it was.  But the wait for the lock has no deadline: if the
    lock is never free, [recv_bytes] does not return, whatever its
    timeout. *)
Theorem X25_puller_recv_bytes :
  forall fuel env flock nap world l f b,
    let f1 := {| FileLock.fds := FileLock.fds f; FileLock.locked := FileLock.locked f;
                 FileLock.flock_calls := S (FileLock.flock_calls f) |} in
    (valid_segment b = true -> FileLock.locked f ⊆ FileLock.fds f ->
     flock (FileLock.flock_calls f) = true ->
     (forall p timeout,
        TAIL b <> HEAD b -> holds b (SLOT_SIZE b) (TAIL b) p ->
        Puller.recv_bytes (S fuel) env flock nap world timeout (l, f, b)
        = (Ret (PyVal p),
           (FileLock.set_fd l None, f1,
            Py.store b IDX_TAIL ((TAIL b + 1) mod NUM_SLOTS b))))
     /\ (forall timeout,
        TAIL b = HEAD b -> timeout <= 0 -> monotonic env 0 <= monotonic env 1 ->
        Puller.recv_bytes (S fuel) env flock nap world (Some timeout) (l, f, b)
        = (Ret PyNone, (FileLock.set_fd l None, f1, b))))
    /\ ((forall i, flock i = false) -> FileLock._timeout l = None ->
        forall fuel' timeout,
          fst (Puller.recv_bytes fuel' env flock nap world timeout (l, f, b)) = Diverge).
Proof.
  intros fuel env flock nap world l f b f1. split.
  - intros Hv Hin Hfree.
    destruct (valid_ranges b Hv) as (HN & _ & _ & Hlen).
    assert (Hwith : forall r b',
              read_message_shared_tail b = (Ret r, b') ->
              FileLock.with_ env flock nap (S fuel)
                (FileLock.inside read_message_shared_tail) (l, f, b)
              = (Ret r, (FileLock.set_fd l None, f1, b'))).
    { intros r b' Hread. unfold FileLock.with_.
      rewrite (proj1 (acquire_spec env flock nap (S fuel) None l f b 0
                        ltac:(lia) ltac:(intros; lia) ltac:(intros; lia) Hin));
        [|now rewrite Nat.add_0_r].
      cbn [FileLock.napped]. rewrite Nat.add_0_r.
      rewrite (locked_block read_message_shared_tail l f b _ (is_fresh _) Hin);
        rewrite Hread; [reflexivity|discriminate]. }
    split.
    + intros p timeout Ht Hp. unfold Puller.recv_bytes, poll_until.
      apply poll_loop_value. unfold Puller._try_claim_bytes.
      now rewrite (Hwith _ _ (shared_tail_claim b p Hlen Ht HN Hp)).
    + intros timeout Ht Hto Hclock. unfold Puller.recv_bytes, poll_until.
      apply (poll_loop_timeout _ _ _ _ _ _ _ _ PyNone).
      * unfold Puller._try_claim_bytes.
        now rewrite (Hwith _ _ (shared_tail_empty b Hlen Ht)).
      * intros a. discriminate.
      * cbn. lia.
  - intros Hnever Hl fuel' timeout. unfold Puller.recv_bytes, poll_until.
    destruct fuel' as [|g]; [reflexivity|].
    rewrite poll_loop_step.
    assert (Hd : fst (Puller._try_claim_bytes (S g) env flock nap (l, f, b)) = Diverge).
    { unfold Puller._try_claim_bytes, FileLock.with_.
      pose proof (acquire_loop_busy env flock nap
                    (option_map (fun t => monotonic env 0 + t) (FileLock._timeout l))
                    (fresh (FileLock.fds f)) (FileLock.set_fd l (Some (fresh (FileLock.fds f))))
                    ltac:(now rewrite Hl) Hnever (S g) 0%nat
                    {| FileLock.fds := FileLock.fds f ∪ {[fresh (FileLock.fds f)]};
                       FileLock.locked := FileLock.locked f;
                       FileLock.flock_calls := FileLock.flock_calls f |} b) as Hacq.
      unfold FileLock.acquire.
      destruct (FileLock.acquire_loop _ _ _ _ _ _ _ _) as [[[]|e|] s1];
        cbn [fst] in Hacq; try discriminate. reflexivity. }
    destruct (Puller._try_claim_bytes (S g) env flock nap (l, f, b)) as [[x|e|] s1];
      cbn [fst] in Hd; try discriminate. reflexivity.
Qed.

(** X25 on a ring of four slots holding three messages. *)
Lemma X25_puller_recv_bytes_witness :
  Puller.recv_bytes 1 quiet (fun _ => true) (fun _ b => b) (fun _ b => b) None
    (lock_jobs, idle_files, backlog)
  = (Ret (PyVal [Byte.x01]),
     (FileLock.set_fd lock_jobs None,
      {| FileLock.fds := FileLock.fds idle_files;
         FileLock.locked := FileLock.locked idle_files;
         FileLock.flock_calls := 1 |},
      Py.store backlog IDX_TAIL ((TAIL backlog + 1) mod NUM_SLOTS backlog))).
Proof.
  refine (proj1 (proj1 (X25_puller_recv_bytes 0 quiet (fun _ => true) (fun _ b => b)
                          (fun _ b => b) lock_jobs idle_files backlog) _ _ _)
            [Byte.x01] None _ _).
  - vm_compute. reflexivity.
  - cbn. set_solver.
  - reflexivity.
  - vm_compute. congruence.
  - repeat split; vm_compute; congruence.
Defined.

(** ** A work item from Pusher to Puller *)

(** X26: one work item through a push/pull channel.  On a valid segment
    whose ring is empty and has more than one slot, [Pusher.send] of an
    object whose serialization fits returns [True] without waiting,
    whatever [block] and [timeout]; a [Puller.recv] that finds the lock
    free then returns the object the bytes decode to, whatever its
    timeout, releases the lock, and leaves the ring empty again and the
    segment valid. *)
Theorem X26_pipeline_round_trip :
  forall Obj (codec : Serialize.Codec Obj) (dec : Serialize.Decoder Obj)
         fuel env flock nap world (push : Pusher.t) (pull : Puller.t)
         l f b data p o block timeout timeout',
    valid_segment b = true -> TAIL b = HEAD b -> 1 < NUM_SLOTS b ->
    Serialize.serialize codec data (Pusher._serialization push) = Ret p ->
    Py.len p <= SLOT_SIZE b - 4 -> Py.len p < 2 ^ 32 ->
    Serialize.deserialize codec dec p (Puller._serialization pull) = Ret (PyVal o) ->
    FileLock.locked f ⊆ FileLock.fds f ->
    flock (FileLock.flock_calls f) = true ->
    exists b1 b2,
      Pusher.send codec (S fuel) env push data block timeout b = (Ret true, b1)
      /\ Puller.recv codec dec (S fuel) env flock nap world pull timeout' (l, f, b1)
         = (Ret (PyVal o),
            (FileLock.set_fd l None,
             {| FileLock.fds := FileLock.fds f; FileLock.locked := FileLock.locked f;
                FileLock.flock_calls := S (FileLock.flock_calls f) |},
             b2))
      /\ TAIL b2 = HEAD b2 /\ HEAD b2 = (HEAD b + 1) mod NUM_SLOTS b
      /\ valid_segment b2 = true.
Proof.
  intros Obj codec dec fuel env flock nap world push pull l f b data p o
    block timeout timeout' Hv Hempty HN Hser Hp Hp32 Hdes Hin Hfree.
  assert (Hu : used b = 0) by now apply used_zero.
  destruct (commit_valid b p Hv Hp Hp32) as (Hv1 & HH1 & HT1 & HN1 & HS1).
  destruct (commit_next b p Hv HN Hp Hp32) as (_ & Hne & _ & Hholds).
  destruct (valid_ranges (commit b p) Hv1) as (HNpos & _ & _ & Hlen1).
  assert (Hrange : 0 <= (TAIL (commit b p) + 1) mod NUM_SLOTS (commit b p)
                   < NUM_SLOTS (commit b p)) by (apply Z.mod_pos_bound; lia).
  destruct (tail_store_valid (commit b p) _ Hv1 Hrange) as (Hv2 & HT2 & HH2 & _ & _).
  exists (commit b p),
    (Py.store (commit b p) IDX_TAIL ((TAIL (commit b p) + 1) mod NUM_SLOTS (commit b p))).
  split; [|split; [|split; [|split]]].
  - unfold Pusher.send, bind, lift. rewrite Hser.
    apply write_message_room; (assumption || lia).
  - unfold Puller.recv, poll_until. apply poll_loop_value.
    unfold Puller._try_claim, FileLock.with_.
    rewrite (proj1 (acquire_spec env flock nap (S fuel) None l f (commit b p) 0
                      ltac:(lia) ltac:(intros; lia) ltac:(intros; lia) Hin));
      [|now rewrite Nat.add_0_r].
    cbn [FileLock.napped]. rewrite Nat.add_0_r.
    assert (Hread : read_message_shared_tail (commit b p)
                    = (Ret (Some p),
                       Py.store (commit b p) IDX_TAIL
                         ((TAIL (commit b p) + 1) mod NUM_SLOTS (commit b p)))).
    { apply shared_tail_claim; try assumption.
      - rewrite HT1, Hempty. exact Hne.
      - now rewrite HT1, Hempty. }
    rewrite (locked_block read_message_shared_tail l f (commit b p) _ (is_fresh _) Hin);
      rewrite Hread; [|discriminate].
    cbn [fst snd]. now rewrite Hdes.
  - rewrite HT2, HH2, HT1, HN1, HH1, Hempty. reflexivity.
  - now rewrite HH2, HH1.
  - exact Hv2.
Qed.

(** X26 for the number 7 through a new ring of four slots. *)
Lemma X26_pipeline_round_trip_witness :
  exists b1 b2,
    Pusher.send toy_codec 1 quiet pusher_jobs (Serialize.PyObject 7%nat) true None
      (fresh_ring 4 8) = (Ret true, b1)
    /\ Puller.recv toy_codec toy_decoder 1 quiet (fun _ => true) (fun _ b => b)
         (fun _ b => b) puller_jobs None (lock_jobs, idle_files, b1)
       = (Ret (PyVal 7%nat),
          (FileLock.set_fd lock_jobs None,
           {| FileLock.fds := FileLock.fds idle_files;
              FileLock.locked := FileLock.locked idle_files;
              FileLock.flock_calls := 1 |},
           b2))
    /\ TAIL b2 = HEAD b2.
Proof.
  destruct (X26_pipeline_round_trip nat toy_codec toy_decoder 0 quiet (fun _ => true)
              (fun _ b => b) (fun _ b => b) pusher_jobs puller_jobs lock_jobs
              idle_files (fresh_ring 4 8) (Serialize.PyObject 7%nat) [Byte.x07] 7%nat
              true None None
              ltac:(vm_compute; reflexivity) ltac:(vm_compute; reflexivity)
              ltac:(vm_compute; reflexivity) ltac:(reflexivity)
              ltac:(vm_compute; congruence) ltac:(vm_compute; reflexivity)
              ltac:(reflexivity) ltac:(cbn; set_solver) ltac:(reflexivity))
    as (b1 & b2 & H1 & H2 & H3 & _).
  exists b1, b2. auto.
Defined.

(** ** Listing segments *)

(** X27: [list_segments] returns, in the order of the directory listing,
    exactly the entries that start with ["shmcomm_"], and nothing off
    Linux or when the listing fails; so every segment made under a name
    of the four name functions is listed when its entry is in the
    directory. *)
Theorem X27_list_segments :
  forall is_linux listdir entry,
    (In entry (list_segments is_linux listdir) <->
     is_linux = true
     /\ String.prefix "shmcomm_" entry = true
     /\ exists entries, listdir = Ret entries /\ In entry entries)
    /\ (forall channel entries,
          is_linux = true -> listdir = Ret entries ->
          (In (pub_segment_name channel) entries ->
             In (pub_segment_name channel) (list_segments is_linux listdir))
          /\ (In (req_segment_name channel) entries ->
             In (req_segment_name channel) (list_segments is_linux listdir))
          /\ (In (rep_segment_name channel) entries ->
             In (rep_segment_name channel) (list_segments is_linux listdir))
          /\ (In (push_segment_name channel) entries ->
             In (push_segment_name channel) (list_segments is_linux listdir))).
Proof.
  intros is_linux listdir entry.
  assert (Hiff : forall e,
            In e (list_segments is_linux listdir) <->
            is_linux = true
            /\ String.prefix "shmcomm_" e = true
            /\ exists entries, listdir = Ret entries /\ In e entries).
  { intros e. unfold list_segments. destruct is_linux; cbn [negb].
    - destruct listdir as [entries|exc|].
      + rewrite filter_In. split.
        * intros [Hin Hp]. repeat split; [assumption|eauto].
        * intros (_ & Hp & entries' & [= <-] & Hin). now split.
      + split; [intros []|intros (_ & _ & ? & [=] & _)].
      + split; [intros []|intros (_ & _ & ? & [=] & _)].
    - split; [intros []|intros ([=] & _)]. }
  split; [apply Hiff|].
  intros channel entries Hl Hd.
  repeat split; intros Hin; apply Hiff;
    (split; [exact Hl|split; [|eauto]]);
    unfold pub_segment_name, req_segment_name, rep_segment_name, push_segment_name;
    cbv [String.append String.prefix]; reflexivity.
Qed.

(** X27 for a directory with a foreign entry. *)
Lemma X27_list_segments_witness :
  In (pub_segment_name "imu")
     (list_segments true (Ret ["psm_1234"; "shmcomm_pub_imu"]%string))
  /\ ~ In "psm_1234"%string
       (list_segments true (Ret ["psm_1234"; "shmcomm_pub_imu"]%string)).
Proof.
  split.
  - apply (proj1 (proj2 (X27_list_segments true
                           (Ret ["psm_1234"; "shmcomm_pub_imu"]%string) "x")
                    "imu" ["psm_1234"; "shmcomm_pub_imu"]%string eq_refl eq_refl)).
    right. left. reflexivity.
  - intros H.
    apply (proj1 (X27_list_segments true
                    (Ret ["psm_1234"; "shmcomm_pub_imu"]%string) "psm_1234")) in H.
    destruct H as (_ & Hp & _). discriminate Hp.
Defined.
